(** * hacker-screensaver: a shallow embedding of [screensaver.js]

    The animation engine of the screensaver (matrix rain, code chunks, node
    network, hack events and the per-frame [update]) is embedded as Rocq
    functions, one per JavaScript method, and the properties of the
    specification are stated and proved about them.

    Conventions of the embedding.
    - A JavaScript number is a rational ([Q]): arithmetic is exact, so the
      rounding of IEEE doubles is not modelled.  Comparisons ([<], [<=],
      [>], [>=]) are the boolean tests below.
    - [Math.random()] reads the next value of a random source; the source
      and a cursor are threaded through every method that draws from it.
      [unit_range] says that the source only yields values in [0,1), as
      [Math.random] does.
    - Objects that are shared by reference and mutated ([Node], [Packet])
      live in a store and are named by their index; objects owned by one
      array ([MatrixColumn], [CodeChunk], [HackEvent]) are values, and
      [forEach] over such an array rebuilds it.
    - [undefined] and [null] are [None]; a [TypeError] aborts the frame and
      is [None] at the level of the update functions.
    - Every call of [sendPacket] and of the [Packet] constructor in the
      script passes all its arguments, so the default values of their
      parameters are not modelled.
    - The canvas is outside the script.  A [draw] method is modelled by the
      list of the calls that it makes on the 2D context; the pixels are not.
    - A frame of the main loop is one call of [update(dt)]; [loop] computes
      the time step from two timestamps and then draws.  The properties of
      the specification are stated on [update], those of the last part of
      the file also on [loop], [draw] and [startWhenReady]. *)

From Stdlib Require Import QArith Qround Lqa ZArith Lia String List Bool.
From stdpp Require Import base list.

Open Scope Q_scope.

(** ** Numbers *)

Definition Qltb (a b : Q) : bool := negb (Qle_bool b a).
Definition Qgtb (a b : Q) : bool := Qltb b a.
Definition Qleb (a b : Q) : bool := Qle_bool a b.
Definition Qgeb (a b : Q) : bool := Qle_bool b a.

(** [Math.floor] *)
Definition Math_floor (q : Q) : Z := Qfloor q.

(** [a[i]] for a computed index: [undefined] out of range. *)
Definition array_get {A : Type} (a : list A) (i : Z) : option A :=
  if (i <? 0)%Z then None else a !! Z.to_nat i.

(** ** The random source *)

Record Rng := mkRng { source : nat -> Q; cursor : nat }.

Definition unit_range (g : Rng) : Prop := forall k, 0 <= source g k /\ source g k < 1.

(** A computation that may draw random numbers. *)
Definition Rand (A : Type) : Type := Rng -> A * Rng.

Definition ret {A : Type} (a : A) : Rand A := fun g => (a, g).

Definition bind {A B : Type} (c : Rand A) (k : A -> Rand B) : Rand B :=
  fun g => let (a, g') := c g in k a g'.

Notation "'let*' x ':=' c 'in' k" := (bind c (fun x => k))
  (at level 10, x name, c at level 100, k at level 200).

(** [Math.random()] *)
Definition Math_random : Rand Q :=
  fun g => (source g (cursor g), mkRng (source g) (S (cursor g))).

(** [a.forEach(o => o.m(...))] over an array of owned objects that the
    method mutates in place. *)
Fixpoint forEach {A : Type} (m : A -> Rand A) (a : list A) : Rand (list A) :=
  match a with
  | [] => ret []
  | o :: rest => let* o' := m o in let* rest' := forEach m rest in ret (o' :: rest')
  end.

(** A computation that may draw random numbers and may throw. *)
Definition Exec (A : Type) : Type := Rng -> option (A * Rng).

Definition throw {A : Type} : Exec A := fun _ => None.

Definition lift {A : Type} (c : Rand A) : Exec A := fun g => Some (c g).

Definition ebind {A B : Type} (c : Exec A) (k : A -> Exec B) : Exec B :=
  fun g => match c g with
           | Some (a, g') => k a g'
           | None => None
           end.

Notation "'do*' x ':=' c 'in' k" := (ebind c (fun x => k))
  (at level 10, x name, c at level 100, k at level 200).

(** ** Matrix rain *)

Module MatrixColumn.

Record obj := mk { x : Q; y : Q; speed : Q }.

(** [constructor(x, height)] *)
Definition new (x0 height : Q) : Rand obj :=
  let* r1 := Math_random in
  let* r2 := Math_random in
  ret (mk x0 (r1 * - height) (50 + r2 * 150)).

(** [update(dt, height)] *)
Definition update (dt height : Q) (this : obj) : Rand obj :=
  let y1 := y this + speed this * dt in
  if Qgtb y1 (height + 100)
  then let* r := Math_random in ret (mk (x this) (r * - height) (speed this))
  else ret (mk (x this) y1 (speed this)).

(** A run of [update] calls, one per frame. *)
Fixpoint updates (dts : list Q) (height : Q) (this : obj) : Rand obj :=
  match dts with
  | [] => ret this
  | dt :: rest => let* this' := update dt height this in updates rest height this'
  end.

End MatrixColumn.

Module MatrixRainSystem.

Record obj := mk { columns : list MatrixColumn.obj; spacing : Q }.

(** The loop of [reset]:
    [for (let x = 0; x < width; x += this.spacing) columns.push(...)].
    [fuel] bounds the number of iterations; running out of it is [None]. *)
Fixpoint reset_loop (fuel : nat) (x width height step : Q)
    (cols : list MatrixColumn.obj) (g : Rng)
    : option (list MatrixColumn.obj * Rng) :=
  if Qltb x width then
    match fuel with
    | O => None
    | S fuel' =>
        let (c, g') := MatrixColumn.new x height g in
        reset_loop fuel' (x + step) width height step (cols ++ [c]) g'
    end
  else Some (cols, g).

(** [reset(width, height)] *)
Definition reset (fuel : nat) (width height : Q) (this : obj) (g : Rng)
    : option (obj * Rng) :=
  match reset_loop fuel 0 width height (spacing this) [] g with
  | Some (cols, g') => Some (mk cols (spacing this), g')
  | None => None
  end.

(** [constructor(width, height)] *)
Definition new (fuel : nat) (width height : Q) (g : Rng) : option (obj * Rng) :=
  reset fuel width height (mk [] 16) g.

(** [update(dt, width, height)] *)
Definition update (dt width height : Q) (this : obj) : Rand obj :=
  let* cols := forEach (MatrixColumn.update dt height) (columns this) in
  ret (mk cols (spacing this)).

End MatrixRainSystem.

(** ** Code chunks *)

Module CodeChunk.

Inductive State := fadeIn | hold | fadeOut.

Record obj := mk {
  direction : Q;                      (* 1 = left->right, -1 = right->left *)
  speed : Q;
  alpha : Q;
  state : State;
  y : Q;
  x : Q;
  textLines : option (list string);
  holdTime : option Q                 (* undefined until the chunk holds *)
}.

(** [constructor(width, height, textLines, direction)] *)
Definition new (width height : Q) (lines : option (list string)) (dir : Q)
    : Rand obj :=
  let* r1 := Math_random in
  let* r2 := Math_random in
  ret (mk dir (20 + r1 * 40) 0 fadeIn (50 + r2 * (height - 100))
          (if Qeq_bool dir 1 then - 300 else width + 300) lines None).

(** [update(dt)] *)
Definition update (dt : Q) (this : obj) : Rand obj :=
  let x1 := x this + direction this * speed this * dt in
  match state this with
  | fadeIn =>
      let a1 := alpha this + dt * 0.5 in
      if Qgeb a1 0.8 then
        let* r := Math_random in
        ret (mk (direction this) (speed this) 0.8 hold (y this) x1
                (textLines this) (Some (2 + r * 3)))
      else
        ret (mk (direction this) (speed this) a1 fadeIn (y this) x1
                (textLines this) (holdTime this))
  | hold =>
      match holdTime this with
      | Some h =>
          let h1 := h - dt in
          ret (mk (direction this) (speed this) (alpha this)
                  (if Qleb h1 0 then fadeOut else hold) (y this) x1
                  (textLines this) (Some h1))
      | None =>
          ret (mk (direction this) (speed this) (alpha this) hold (y this) x1
                  (textLines this) None)
      end
  | fadeOut =>
      ret (mk (direction this) (speed this) (alpha this - dt * 0.3) fadeOut
              (y this) x1 (textLines this) (holdTime this))
  end.

(** [isDead(width)] *)
Definition isDead (width : Q) (this : obj) : bool :=
  Qleb (alpha this) 0 && (Qltb (x this) (- 400) || Qgtb (x this) (width + 400)).

(** A run of [update] calls, one per frame. *)
Fixpoint updates (dts : list Q) (this : obj) : Rand obj :=
  match dts with
  | [] => ret this
  | dt :: rest => let* this' := update dt this in updates rest this'
  end.

End CodeChunk.

Module CodeChunkSystem.

Record obj := mk { chunks : list CodeChunk.obj; timer : Q }.

(** [constructor()] *)
Definition new : obj := mk [] 0.

Definition dquote : string := String (Ascii.ascii_of_nat 34) EmptyString.

Definition snippets : list (list string) :=
  [ [ "for (let i = 0; i < nodes.length; i++) {";
      "  sendPacket(hacker, nodes[i]);";
      "}" ];
    [ "def exploit(target):";
      "    payload = build_payload(target)";
      "    send(payload)";
      "    return get_shell()" ];
    [ "<div class=" ++ dquote ++ "node hacked" ++ dquote ++ ">";
      "  <span>&#9760; root access</span>";
      "</div>" ];
    [ "0x48 0x45 0x4C 0x4C 0x4F";
      "0x52 0x4F 0x4F 0x54" ] ]%string.

(** [randomSnippet()] *)
Definition randomSnippet : Rand (option (list string)) :=
  let* r := Math_random in
  ret (array_get snippets (Math_floor (r * inject_Z (Z.of_nat (length snippets))))).

(** The spawn step of [update]: the countdown and, when it has run out,
    the push of a new chunk. *)
Definition spawn (dt width height : Q) (this : obj) : Rand obj :=
  let timer1 := timer this - dt in
  if Qleb timer1 0 then
    let* r := Math_random in
    let* rd := Math_random in
    let dir := if Qgtb rd 0.5 then 1 else - 1 in
    let* lines := randomSnippet in
    let* c := CodeChunk.new width height lines dir in
    ret (mk (chunks this ++ [c]) (5 + r * 5))
  else ret (mk (chunks this) timer1).

(** [update(dt, width, height)] *)
Definition update (dt width height : Q) (this : obj) : Rand obj :=
  let* this1 := spawn dt width height this in
  let* cs := forEach (CodeChunk.update dt) (chunks this1) in
  ret (mk (List.filter (fun c => negb (CodeChunk.isDead width c)) cs) (timer this1)).

End CodeChunkSystem.

(** ** Node network *)

(** A reference to an object of the store. *)
Abbreviation ref := nat.

Module Node.

Record obj := mk { id : string; x : Q; y : Q; type : string; hackedAlpha : Q }.

(** [constructor(id, x, y, type)] *)
Definition new (i : string) (x0 y0 : Q) (ty : string) : obj := mk i x0 y0 ty 0.

(** [this.hackedAlpha = a] *)
Definition set_hackedAlpha (a : Q) (this : obj) : obj :=
  mk (id this) (x this) (y this) (type this) a.

(** [update(dt)] *)
Definition update (dt : Q) (this : obj) : obj :=
  if Qgtb (hackedAlpha this) 0 then
    let a1 := hackedAlpha this - dt * 0.2 in
    set_hackedAlpha (if Qltb a1 0 then 0 else a1) this
  else this.

End Node.

Module Link.

(** The two endpoints are node references; a link built from a failed
    lookup holds [undefined]. *)
Record obj := mk { from : option ref; to : option ref }.

End Link.

Module Packet.

Record obj := mk { link : Link.obj; t : Q; speed : Q; color : string }.

(** [constructor(link, color, speed)] *)
Definition new (l : Link.obj) (c : string) (s : Q) : obj := mk l 0 s c.

(** [update(dt)] *)
Definition update (dt : Q) (this : obj) : obj :=
  mk (link this) (t this + (speed this * dt) / 1000) (speed this) (color this).

(** [isDone()] *)
Definition isDone (this : obj) : bool := Qgeb (t this) 1.

End Packet.

(** [lerp(a, b, t)] *)
Definition lerp (a b t : Q) : Q := a + (b - a) * t.

(** The fields of a [NodeNetworkSystem] object; [nodes] and [packets] hold
    references into the store. *)
Record NodeNetworkObj := mkNodeNetwork {
  nodes : list ref;
  links : list Link.obj;
  packets : list ref;
  normalTrafficTimer : Q
}.

(** The store of shared objects together with the one network object that
    the hack system and every hack event refer to. *)
Record Scene := mkScene {
  nodeHeap : list Node.obj;
  packetHeap : list Packet.obj;
  network : NodeNetworkObj
}.

(** [refs.find(n => n.id === i)] *)
Definition has_id (h : list Node.obj) (i : string) (r : ref) : bool :=
  match h !! r with
  | Some n => String.eqb (Node.id n) i
  | None => false
  end.

Definition find_id (h : list Node.obj) (refs : list ref) (i : string) : option ref :=
  List.find (has_id h i) refs.

(** [refs.forEach(o => o.m(...))] over an array of references into a store:
    the objects are mutated where they live. *)
Definition forEach_ref {A : Type} (m : A -> A) (refs : list ref) (h : list A) : list A :=
  fold_left (fun h' r => alter m r h') refs h.

(** The position at which [Packet.draw] paints the packet; reading a
    coordinate of an [undefined] endpoint throws. *)
Definition Packet_position (h : list Node.obj) (p : Packet.obj) : option (Q * Q) :=
  match Link.from (Packet.link p), Link.to (Packet.link p) with
  | Some a, Some b =>
      match h !! a, h !! b with
      | Some na, Some nb =>
          Some (lerp (Node.x na) (Node.x nb) (Packet.t p),
                lerp (Node.y na) (Node.y nb) (Packet.t p))
      | _, _ => None
      end
  | _, _ => None
  end.

Module NodeNetworkSystem.

(** The nine nodes that [setupLayout] constructs, in array order. *)
Definition layout_nodes (width height : Q) : list Node.obj :=
  let cx := width * 0.45 in
  let cy := height * 0.35 in
  let sx := width * 0.25 in
  let sy := height * 0.25 in
  [ Node.new "hacker" (width * 0.72) (height * 0.65) "hacker";
    Node.new "server" (cx - sx * 0.4) (cy - sy * 0.4) "server";
    Node.new "desktop1" cx (cy - sy * 0.6) "desktop";
    Node.new "desktop2" (cx + sx * 0.4) (cy - sy * 0.3) "desktop";
    Node.new "router" cx cy "router";
    Node.new "laptop1" (cx - sx * 0.5) (cy + sy * 0.2) "laptop";
    Node.new "phone" (cx + sx * 0.3) (cy + sy * 0.3) "phone";
    Node.new "iot" (cx - sx * 0.1) (cy + sy * 0.5) "iot";
    Node.new "cloud" (cx + sx * 0.5) (cy - sy * 0.7) "cloud" ].

(** [setupLayout(width, height)]: the nodes are allocated, [this.nodes]
    is replaced by the references to them, and the links are rebuilt by
    identifier lookup in the new array. *)
Definition setupLayout (width height : Q) (s : Scene) : Scene :=
  let fresh := layout_nodes width height in
  let h := nodeHeap s ++ fresh in
  let refs := seq (length (nodeHeap s)) (length fresh) in
  let get := find_id h refs in
  mkScene h (packetHeap s)
    (mkNodeNetwork refs
        [ Link.mk (get "router"%string) (get "server"%string);
          Link.mk (get "router"%string) (get "desktop1"%string);
          Link.mk (get "router"%string) (get "desktop2"%string);
          Link.mk (get "router"%string) (get "laptop1"%string);
          Link.mk (get "router"%string) (get "phone"%string);
          Link.mk (get "router"%string) (get "iot"%string);
          Link.mk (get "router"%string) (get "cloud"%string);
          Link.mk (get "hacker"%string) (get "router"%string) ]
        (packets (network s)) (normalTrafficTimer (network s))).

(** [constructor(width, height)], in a store that holds [nh] and [ph]. *)
Definition new (width height : Q) (nh : list Node.obj) (ph : list Packet.obj) : Scene :=
  setupLayout width height (mkScene nh ph (mkNodeNetwork [] [] [] 0)).

(** [this.packets.push(p)] for a newly constructed packet [p]. *)
Definition push_packet (p : Packet.obj) (s : Scene) : Scene :=
  mkScene (nodeHeap s) (packetHeap s ++ [p])
    (mkNodeNetwork (nodes (network s)) (links (network s))
        (packets (network s) ++ [length (packetHeap s)])
        (normalTrafficTimer (network s))).

(** [sendPacket(fromId, toId, color, speed)] *)
Definition sendPacket (fromId toId color : string) (speed : Q) (s : Scene) : Scene :=
  match find_id (nodeHeap s) (nodes (network s)) fromId,
        find_id (nodeHeap s) (nodes (network s)) toId with
  | Some from, Some to =>
      push_packet (Packet.new (Link.mk (Some from) (Some to)) color speed) s
  | _, _ => s
  end.

(** [this.nodes.filter(n => n.id !== 'router' && n.id !== 'hacker')] *)
Definition others (s : Scene) : list ref :=
  List.filter (fun r => negb (has_id (nodeHeap s) "router" r)
                        && negb (has_id (nodeHeap s) "hacker" r))
              (nodes (network s)).

(** The background traffic step of [update].  Reading [target.id] of
    an [undefined] target throws. *)
Definition traffic (dt : Q) (s : Scene) : Exec Scene :=
  let timer1 := normalTrafficTimer (network s) - dt in
  let set_timer tm s0 :=
    mkScene (nodeHeap s0) (packetHeap s0)
      (mkNodeNetwork (nodes (network s0)) (links (network s0)) (packets (network s0)) tm) in
  if Qleb timer1 0 then
    do* r := lift Math_random in
    let s1 := set_timer (0.3 + r * 0.7) s in
    match find_id (nodeHeap s1) (nodes (network s1)) "router", others s1 with
    | Some router, _ :: _ =>
        do* ri := lift Math_random in
        match array_get (others s1)
                (Math_floor (ri * inject_Z (Z.of_nat (length (others s1))))) with
        | Some target =>
            match nodeHeap s1 !! router, nodeHeap s1 !! target with
            | Some nr, Some nt =>
                do* r1 := lift Math_random in
                let s2 := sendPacket (Node.id nr) (Node.id nt) "#00ff88"
                            (120 + r1 * 120) s1 in
                do* r2 := lift Math_random in
                lift (ret (sendPacket (Node.id nt) (Node.id nr) "#00ff88"
                             (120 + r2 * 120) s2))
            | _, _ => throw
            end
        | None => throw
        end
    | _, _ => lift (ret s1)
    end
  else lift (ret (set_timer timer1 s)).

(** [update(dt, width, height)] *)
Definition update (dt width height : Q) (s : Scene) : Exec Scene :=
  let s1 := mkScene (forEach_ref (Node.update dt) (nodes (network s)) (nodeHeap s))
              (packetHeap s) (network s) in
  do* s2 := traffic dt s1 in
  let ph := forEach_ref (Packet.update dt) (packets (network s2)) (packetHeap s2) in
  let live r := match ph !! r with
                | Some p => negb (Packet.isDone p)
                | None => false
                end in
  lift (ret (mkScene (nodeHeap s2) ph
         (mkNodeNetwork (nodes (network s2)) (links (network s2))
             (List.filter live (packets (network s2)))
             (normalTrafficTimer (network s2))))).

End NodeNetworkSystem.

(** ** Hack system *)

Module HackEvent.

Inductive State := prepare | launch | inFlight | impact | done.

Record obj := mk {
  state : State;
  timer : Q;
  hacker : option ref;
  targets : list ref;
  target : option ref;
  packet : option ref
}.

(** [constructor(network)] *)
Definition new (s : Scene) : Rand obj :=
  let h := find_id (nodeHeap s) (nodes (network s)) "hacker" in
  let ts := List.filter (fun r => negb (has_id (nodeHeap s) "hacker" r)
                                 && negb (has_id (nodeHeap s) "router" r))
              (nodes (network s)) in
  let* r := Math_random in
  ret (mk prepare 0 h ts
          (array_get ts (Math_floor (r * inject_Z (Z.of_nat (length ts))))) None).

(** [node.hackedAlpha = 1.0] on the node that [r] refers to. *)
Definition mark (r : ref) (s : Scene) : Scene :=
  mkScene (alter (Node.set_hackedAlpha 1) r (nodeHeap s)) (packetHeap s) (network s).

(** [update(dt)]; [None] is the [TypeError] of writing to an [undefined]
    target. *)
Definition update (dt : Q) (this : obj) (s : Scene) : option (obj * Scene) :=
  let timer1 := timer this + dt in
  match state this with
  | prepare =>
      let s1 := match hacker this with
                | Some h => mark h s
                | None => s
                end in
      if Qgtb timer1 0.5
      then Some (mk launch 0 (hacker this) (targets this) (target this) (packet this), s1)
      else Some (mk prepare timer1 (hacker this) (targets this) (target this)
                    (packet this), s1)
  | launch =>
      let p := Packet.new (Link.mk (hacker this) (target this)) "#ff0066" 260 in
      Some (mk inFlight timer1 (hacker this) (targets this) (target this)
               (Some (length (packetHeap s))),
            NodeNetworkSystem.push_packet p s)
  | inFlight =>
      let arrived := match packet this with
                     | Some pr => match packetHeap s !! pr with
                                  | Some p => Packet.isDone p
                                  | None => false
                                  end
                     | None => false
                     end in
      if arrived then
        match target this with
        | Some tg =>
            Some (mk impact 0 (hacker this) (targets this) (target this)
                     (packet this), mark tg s)
        | None => None
        end
      else Some (mk inFlight timer1 (hacker this) (targets this) (target this)
                    (packet this), s)
  | impact =>
      if Qgtb timer1 1.5
      then Some (mk done timer1 (hacker this) (targets this) (target this)
                    (packet this), s)
      else Some (mk impact timer1 (hacker this) (targets this) (target this)
                    (packet this), s)
  | done =>
      Some (mk done timer1 (hacker this) (targets this) (target this)
               (packet this), s)
  end.

(** [isDone()] *)
Definition isDone (this : obj) : bool :=
  match state this with
  | done => true
  | _ => false
  end.

(** A run of [update] calls on one event. *)
Fixpoint updates (dts : list Q) (this : obj) (s : Scene) : option (obj * Scene) :=
  match dts with
  | [] => Some (this, s)
  | dt :: rest =>
      match update dt this s with
      | Some (this', s') => updates rest this' s'
      | None => None
      end
  end.

End HackEvent.

Module HackSystem.

Record obj := mk { events : list HackEvent.obj; cooldown : Q }.

(** [constructor(network)] *)
Definition new : obj := mk [] 0.

(** [this.events.forEach(e => e.update(dt))] *)
Fixpoint forEach_event (dt : Q) (evs : list HackEvent.obj) (s : Scene)
    : option (list HackEvent.obj * Scene) :=
  match evs with
  | [] => Some ([], s)
  | e :: rest =>
      match HackEvent.update dt e s with
      | Some (e', s') =>
          match forEach_event dt rest s' with
          | Some (rest', s'') => Some (e' :: rest', s'')
          | None => None
          end
      | None => None
      end
  end.

(** The spawn step of [update]. *)
Definition spawn (dt : Q) (this : obj) (s : Scene) : Rand obj :=
  let cooldown1 := cooldown this - dt in
  if Qleb cooldown1 0 then
    let* r := Math_random in
    let* e := HackEvent.new s in
    ret (mk (events this ++ [e]) (5 + r * 10))
  else ret (mk (events this) cooldown1).

(** [update(dt)] *)
Definition update (dt : Q) (this : obj) (s : Scene) : Exec (obj * Scene) :=
  do* this1 := lift (spawn dt this s) in
  match forEach_event dt (events this1) s with
  | Some (evs, s') =>
      lift (ret (mk (List.filter (fun e => negb (HackEvent.isDone e)) evs)
                    (cooldown this1), s'))
  | None => throw
  end.

End HackSystem.

(** ** The page: canvas, systems and main loop *)

Record World := mkWorld {
  canvas_width : Q;
  canvas_height : Q;
  matrix : MatrixRainSystem.obj;
  codeChunks : CodeChunkSystem.obj;
  scene : Scene;
  hacks : HackSystem.obj;
  rng : Rng
}.

(** The script up to [startWhenReady()]: the canvas takes the size of the
    window and the four systems are constructed. *)
Definition start (fuel : nat) (innerWidth innerHeight : Q) (g : Rng) : option World :=
  match MatrixRainSystem.new fuel innerWidth innerHeight g with
  | Some (m, g') =>
      Some (mkWorld innerWidth innerHeight m CodeChunkSystem.new
              (NodeNetworkSystem.new innerWidth innerHeight [] []) HackSystem.new g')
  | None => None
  end.

(** The three [resize] listeners, in the order of their registration. *)
Definition on_resize (fuel : nat) (innerWidth innerHeight : Q) (w : World)
    : option World :=
  match MatrixRainSystem.reset fuel innerWidth innerHeight (matrix w) (rng w) with
  | Some (m, g') =>
      Some (mkWorld innerWidth innerHeight m (codeChunks w)
              (NodeNetworkSystem.setupLayout innerWidth innerHeight (scene w))
              (hacks w) g')
  | None => None
  end.

(** [update(dt)] of the main loop. *)
Definition update (dt : Q) (w : World) : option World :=
  let (m, g1) := MatrixRainSystem.update dt (canvas_width w) (canvas_height w)
                   (matrix w) (rng w) in
  let (c, g2) := CodeChunkSystem.update dt (canvas_width w) (canvas_height w)
                   (codeChunks w) g1 in
  match NodeNetworkSystem.update dt (canvas_width w) (canvas_height w) (scene w) g2 with
  | Some (s1, g3) =>
      match HackSystem.update dt (hacks w) s1 g3 with
      | Some ((h, s2), g4) =>
          Some (mkWorld (canvas_width w) (canvas_height w) m c s2 h g4)
      | None => None
      end
  | None => None
  end.

(** What the page does between two paints: a frame of the main loop with
    a non-negative time step, or a resize of the window. *)
Inductive step : World -> World -> Prop :=
  | step_frame dt w w' :
      0 <= dt -> update dt w = Some w' -> step w w'
  | step_resize fuel width height w w' :
      on_resize fuel width height w = Some w' -> step w w'.

Inductive steps : World -> World -> Prop :=
  | steps_refl w : steps w w
  | steps_next w1 w2 w3 : steps w1 w2 -> step w2 w3 -> steps w1 w3.

(** The worlds that the page can be in at paint time. *)
Definition reachable (w : World) : Prop :=
  exists (fuel : nat) (width height : Q) (g : Rng) (w0 : World),
    unit_range g /\ start fuel width height g = Some w0 /\ steps w0 w.

(** * Invariants, runs and example data *)

(** Drawing a number moves the cursor and leaves the source alone. *)
Definition same_source (g g' : Rng) : Prop := source g' = source g.

Definition CodeChunk_alpha_inv (c : CodeChunk.obj) : Prop :=
  CodeChunk.alpha c <= 0.8 /\
  (CodeChunk.state c <> CodeChunk.fadeOut -> 0 <= CodeChunk.alpha c).

(** A network contains a node with identifier [i]. *)
Definition contains_id (s : Scene) (i : string) : Prop :=
  exists r n,
    In r (nodes (network s)) /\
    nodeHeap s !! r = Some n /\ Node.id n = i.

(** The network that the constructor builds on a 1024 x 768 surface. *)
Definition scene0 : Scene := NodeNetworkSystem.new 1024 768 [] [].

Definition node_ok (n : Node.obj) : Prop :=
  0 <= Node.hackedAlpha n /\ Node.hackedAlpha n <= 1.

Definition packet_ok (p : Packet.obj) : Prop :=
  0 <= Packet.t p /\ 0 <= Packet.speed p.

(** An active packet is an object of the store that is still in flight. *)
Definition active_ok (ph : list Packet.obj) (r : ref) : Prop :=
  exists p, ph !! r = Some p /\ 0 <= Packet.t p /\ Packet.t p < 1.

Definition scene_inv (s : Scene) : Prop :=
  Forall node_ok (nodeHeap s) /\
  Forall packet_ok (packetHeap s) /\
  Forall (active_ok (packetHeap s)) (packets (network s)).

(** The same packet object, possibly further along its link. *)
Definition packet_advanced (p p' : Packet.obj) : Prop :=
  Packet.link p' = Packet.link p /\ Packet.speed p' = Packet.speed p /\
  Packet.color p' = Packet.color p /\ Packet.t p <= Packet.t p'.

Definition store_advanced (ph ph' : list Packet.obj) : Prop :=
  forall r p, ph !! r = Some p ->
              exists p', ph' !! r = Some p' /\ packet_advanced p p'.

(** What a step of the simulation leaves of a scene: the node objects and
    the node array are carried along with it, and every packet object is
    still there, no further back on its link. *)
Definition scene_frame (s s' : Scene) : Prop :=
  nodeHeap s' = nodeHeap s /\
  nodes (network s') = nodes (network s) /\
  store_advanced (packetHeap s) (packetHeap s').

Definition world_inv (w : World) : Prop :=
  scene_inv (scene w) /\ unit_range (rng w).

(** A run of frames, one [update(dt)] per frame. *)
Fixpoint run_frames (dts : list Q) (w : World) : option World :=
  match dts with
  | [] => Some w
  | dt :: rest =>
      match update dt w with
      | Some w' => run_frames rest w'
      | None => None
      end
  end.

(** A small page for the examples: a 64 x 48 surface and a random source
    that always yields one half. *)
Definition demo_rng : Rng := mkRng (fun _ => 0.5) 0.

Definition demo_run (dts : list Q) : option World :=
  match start 10 64 48 demo_rng with
  | Some w0 => run_frames dts w0
  | None => None
  end.

(** The states of the live hack events after a run of the demo page. *)
Definition demo_event_states (dts : list Q) : option (list HackEvent.State) :=
  option_map (fun w => map HackEvent.state (HackSystem.events (hacks w)))
    (demo_run dts).

(** An event in flight whose packet has arrived, in the network of a
    1024 x 768 surface. *)
Definition arrived_event : HackEvent.obj :=
  HackEvent.mk HackEvent.inFlight 0.2 (Some 0%nat) [1; 2; 3; 5; 6; 7; 8]%nat
    (Some 5%nat) (Some 0%nat).

Definition arrived_scene : Scene :=
  NodeNetworkSystem.push_packet
    (Packet.mk (Link.mk (Some 0%nat) (Some 5%nat)) 1.04 260 "#ff0066") scene0.

(** Three chunks on a surface 1024 pixels wide, no spawn due: a visible one
    far outside, a faded one inside, and a faded one far outside.  Only the
    last is removed. *)
Definition three_chunks : CodeChunkSystem.obj :=
  CodeChunkSystem.mk
    [ CodeChunk.mk 1 30 0.5 CodeChunk.fadeOut 100 2000 (Some []) (Some 0);
      CodeChunk.mk 1 30 (- 0.1) CodeChunk.fadeOut 200 100 (Some []) (Some 0);
      CodeChunk.mk 1 30 (- 0.1) CodeChunk.fadeOut 300 2000 (Some []) (Some 0) ]
    3.

(** The identifiers of the nodes of the layout, in array order. *)
Definition layout_ids : list string :=
  [ "hacker"; "server"; "desktop1"; "desktop2"; "router"; "laptop1"; "phone";
    "iot"; "cloud" ]%string.

(** The identifiers that the network's node array resolves to. *)
Definition node_ids (s : Scene) : list (option string) :=
  map (fun r => option_map Node.id (nodeHeap s !! r))
      (nodes (network s)).

Definition layout_ok (s : Scene) : Prop := node_ids s = map Some layout_ids.

Definition same_ids (h h' : list Node.obj) : Prop :=
  forall r : nat, option_map Node.id (h' !! r) = option_map Node.id (h !! r).

Definition id_is (i : string) (o : option string) : bool :=
  match o with
  | Some j => String.eqb j i
  | None => false
  end.

Definition events_ok (evs : list HackEvent.obj) : Prop :=
  Forall (fun e => HackEvent.target e <> None) evs.

(** The page state in which no update can throw. *)
Definition page_ok (w : World) : Prop :=
  unit_range (rng w) /\ layout_ok (scene w) /\
  events_ok (HackSystem.events (hacks w)) /\
  MatrixRainSystem.spacing (matrix w) = 16.

(** The time that a run of frames covers: the sum of its time steps. *)
Definition elapsed (dts : list Q) : Q := fold_right Qplus 0 dts.






(** A run of [MatrixRainSystem.update] calls on a surface of fixed size. *)
Fixpoint MatrixRainSystem_updates (dts : list Q) (width height : Q)
    (this : MatrixRainSystem.obj) : Rand MatrixRainSystem.obj :=
  match dts with
  | [] => ret this
  | dt :: rest =>
      let* this' := MatrixRainSystem.update dt width height this in
      MatrixRainSystem_updates rest width height this'
  end.

(** A rain column [c] that started as [c0]: same x and speed, and y within
    the band that [update] keeps it in. *)
Definition column_kept (height : Q) (c0 c : MatrixColumn.obj) : Prop :=
  MatrixColumn.x c = MatrixColumn.x c0 /\
  MatrixColumn.speed c = MatrixColumn.speed c0 /\
  (50 <= MatrixColumn.speed c0 /\ MatrixColumn.speed c0 < 200) /\
  - height <= MatrixColumn.y c /\ MatrixColumn.y c <= height + 100.

(** The index of the first element of a list that satisfies a test. *)
Fixpoint index_of {A : Type} (f : A -> bool) (l : list A) : option nat :=
  match l with
  | [] => None
  | a :: rest => if f a then Some 0%nat else option_map S (index_of f rest)
  end.

(** The identifier of the node at an endpoint of a link. *)
Definition endpoint_id (h : list Node.obj) (o : option ref) : option string :=
  match o with
  | Some r => option_map Node.id (h !! r)
  | None => None
  end.

(** The position of a state in the life of a hack event. *)
Definition HackEvent_rank (st : HackEvent.State) : nat :=
  match st with
  | HackEvent.prepare => 0
  | HackEvent.launch => 1
  | HackEvent.inFlight => 2
  | HackEvent.impact => 3
  | HackEvent.done => 4
  end.

(** Whether an event has run its launch branch. *)
Definition launched (e : HackEvent.obj) : nat :=
  if (2 <=? HackEvent_rank (HackEvent.state e))%nat then 1 else 0.

(** * Drawing and the main loop *)

(** [Math.max], [Math.min], [Math.ceil] and the [clamp] helper. *)
Definition Math_max (a b : Q) : Q := if Qltb a b then b else a.
Definition Math_min (a b : Q) : Q := if Qltb b a then b else a.
Definition Math_ceil (q : Q) : Z := Qceiling q.

Definition clamp (v a b : Q) : Q := Math_max a (Math_min b v).

(** The canvas is outside the script: a draw method is modelled by the
    calls that it makes on the 2D context, in order.  A fill style is a
    literal string or the template [rgba(0, 255, 120, a)] with the number
    that is interpolated; [arc] is always the full circle. *)
Inductive Style :=
  | Css (s : string)
  | Rgba (r g b : Z) (a : Q).

Inductive Image := bg_image | skull_image.

Inductive Call :=
  | save
  | restore
  | set_font (f : string)
  | set_fillStyle (s : Style)
  | set_strokeStyle (s : Style)
  | set_lineWidth (w : Q)
  | set_globalAlpha (a : Q)
  | set_globalCompositeOperation (op : string)
  | fillText (text : string) (x y : Q)
  | fillRect (x y w h : Q)
  | beginPath
  | arc (x y r : Q)
  | fill
  | moveTo (x y : Q)
  | lineTo (x y : Q)
  | stroke
  | drawImage (img : Image) (x y w h : Q).

(** The two image elements of the page: [None] when [getElementById] found
    no element, otherwise the element's [complete] flag. *)
Record Assets := mkAssets { bgImage : option bool; skullImage : option bool }.

(** The loop of [MatrixColumn.draw]:
    [for (let i = 0; i < count; i++) { ... }].  [fuel] bounds the number of
    iterations; running out of it is [None]. *)
Fixpoint MatrixColumn_draw_loop (fuel : nat) (i count : Z) (this : MatrixColumn.obj)
    (g : Rng) : option (list Call * Rng) :=
  if (i <? count)%Z then
    match fuel with
    | O => None
    | S fuel' =>
        let (r, g1) := Math_random g in
        let ch := if Qgtb r 0.5 then "1"%string else "0"%string in
        let y := MatrixColumn.y this - inject_Z i * 16 in
        let alpha := 1 - inject_Z i / inject_Z count in
        match MatrixColumn_draw_loop fuel' (i + 1) count this g1 with
        | Some (calls, g2) =>
            Some (set_fillStyle (Rgba 0 255 120 (Math_max alpha 0))
                  :: fillText ch (MatrixColumn.x this) y :: calls, g2)
        | None => None
        end
    end
  else Some ([], g).

(** [MatrixColumn.draw(ctx, height)] *)
Definition MatrixColumn_draw (fuel : nat) (height : Q) (this : MatrixColumn.obj)
    (g : Rng) : option (list Call * Rng) :=
  let count := (Math_ceil (height / 16) + 5)%Z in
  match MatrixColumn_draw_loop fuel 0 count this g with
  | Some (calls, g') => Some (set_font "16px monospace" :: calls, g')
  | None => None
  end.

(** [MatrixRainSystem.draw(ctx, height)] *)
Fixpoint MatrixRainSystem_draw_columns (fuel : nat) (height : Q)
    (cols : list MatrixColumn.obj) (g : Rng) : option (list Call * Rng) :=
  match cols with
  | [] => Some ([], g)
  | c :: rest =>
      match MatrixColumn_draw fuel height c g with
      | Some (calls, g1) =>
          match MatrixRainSystem_draw_columns fuel height rest g1 with
          | Some (calls', g2) => Some (calls ++ calls', g2)
          | None => None
          end
      | None => None
      end
  end.

Definition MatrixRainSystem_draw (fuel : nat) (height : Q)
    (this : MatrixRainSystem.obj) (g : Rng) : option (list Call * Rng) :=
  MatrixRainSystem_draw_columns fuel height (MatrixRainSystem.columns this) g.

(** [a.forEach(o => o.draw(ctx))] for a draw method that may throw. *)
Fixpoint forEach_draw {A : Type} (d : A -> option (list Call)) (a : list A)
    : option (list Call) :=
  match a with
  | [] => Some []
  | o :: rest =>
      match d o with
      | Some calls =>
          match forEach_draw d rest with
          | Some calls' => Some (calls ++ calls')
          | None => None
          end
      | None => None
      end
  end.

(** The [forEach] of [CodeChunk.draw]: one [fillText] per line, [offsetY]
    growing by 16. *)
Fixpoint CodeChunk_draw_lines (lines : list string) (x y offsetY : Q) : list Call :=
  match lines with
  | [] => []
  | line :: rest =>
      fillText line x (y + offsetY) :: CodeChunk_draw_lines rest x y (offsetY + 16)
  end.

(** [CodeChunk.draw(ctx)]; [None] is the [TypeError] of calling [forEach]
    on an [undefined] text. *)
Definition CodeChunk_draw (this : CodeChunk.obj) : option (list Call) :=
  if Qleb (CodeChunk.alpha this) 0 then Some []
  else
    match CodeChunk.textLines this with
    | Some lines =>
        Some ([ save; set_globalAlpha (CodeChunk.alpha this);
                set_font "14px monospace"; set_fillStyle (Css "#00ff99") ]
              ++ CodeChunk_draw_lines lines (CodeChunk.x this) (CodeChunk.y this) 0
              ++ [ restore ])
    | None => None
    end.

(** [CodeChunkSystem.draw(ctx)] *)
Definition CodeChunkSystem_draw (this : CodeChunkSystem.obj) : option (list Call) :=
  forEach_draw CodeChunk_draw (CodeChunkSystem.chunks this).

(** [Node.draw(ctx)]; [None] is the [TypeError] of reading [complete] of a
    missing skull image, which happens only for a node whose highlight is
    positive. *)
Definition Node_draw (a : Assets) (this : Node.obj) : option (list Call) :=
  let glow := [ save; set_fillStyle (Css "#00ff88"); beginPath;
                arc (Node.x this) (Node.y this) 10; fill ] in
  if Qgtb (Node.hackedAlpha this) 0 then
    match skullImage a with
    | Some true =>
        Some (glow
              ++ [ set_globalAlpha (clamp (Node.hackedAlpha this) 0 1);
                   drawImage skull_image (Node.x this - 12) (Node.y this - 12) 24 24;
                   restore ])
    | Some false => Some (glow ++ [ restore ])
    | None => None
    end
  else Some (glow ++ [ restore ]).

(** [Link.draw(ctx)]; [None] is the [TypeError] of reading a coordinate of
    an [undefined] endpoint. *)
Definition Link_draw (h : list Node.obj) (this : Link.obj) : option (list Call) :=
  match Link.from this, Link.to this with
  | Some a, Some b =>
      match h !! a, h !! b with
      | Some na, Some nb =>
          Some [ save; set_strokeStyle (Css "rgba(0,255,120,0.4)"); set_lineWidth 2;
                 beginPath; moveTo (Node.x na) (Node.y na);
                 lineTo (Node.x nb) (Node.y nb); stroke; restore ]
      | _, _ => None
      end
  | _, _ => None
  end.

(** [Packet.draw(ctx)] *)
Definition Packet_draw (h : list Node.obj) (this : Packet.obj) : option (list Call) :=
  match Packet_position h this with
  | Some (x, y) =>
      Some [ save; set_fillStyle (Css (Packet.color this)); beginPath; arc x y 4;
             fill; restore ]
  | None => None
  end.

(** [NodeNetworkSystem.draw(ctx)]: links, then packets, then nodes. *)
Definition NodeNetworkSystem_draw (a : Assets) (s : Scene) : option (list Call) :=
  match forEach_draw (Link_draw (nodeHeap s)) (links (network s)) with
  | Some c1 =>
      match forEach_draw
              (fun r => match packetHeap s !! r with
                        | Some p => Packet_draw (nodeHeap s) p
                        | None => None
                        end)
              (packets (network s)) with
      | Some c2 =>
          match forEach_draw
                  (fun r => match nodeHeap s !! r with
                            | Some n => Node_draw a n
                            | None => None
                            end)
                  (nodes (network s)) with
          | Some c3 => Some (c1 ++ c2 ++ c3)
          | None => None
          end
      | None => None
      end
  | None => None
  end.

(** [drawBackground(ctx)] *)
Definition drawBackground (a : Assets) (width height : Q) : list Call :=
  match bgImage a with
  | Some true => [ drawImage bg_image 0 0 width height ]
  | _ => [ set_fillStyle (Css "#000"); fillRect 0 0 width height ]
  end.

(** [draw()] of the main loop.  The rain draws random digits, so drawing
    moves the cursor of the random source. *)
Definition draw (fuel : nat) (a : Assets) (w : World) : option (list Call * Rng) :=
  match MatrixRainSystem_draw fuel (canvas_height w) (matrix w) (rng w) with
  | Some (rain, g) =>
      match CodeChunkSystem_draw (codeChunks w) with
      | Some chunks =>
          match NodeNetworkSystem_draw a (scene w) with
          | Some net =>
              Some ([ set_fillStyle (Css "rgba(0,0,0,0.85)");
                      fillRect 0 0 (canvas_width w) (canvas_height w) ]
                    ++ drawBackground a (canvas_width w) (canvas_height w)
                    ++ [ save; set_globalCompositeOperation "lighter" ]
                    ++ rain ++ [ restore ] ++ chunks ++ net, g)
          | None => None
          end
      | None => None
      end
  | None => None
  end.

(** The page between two frames: the systems, the images and [lastTime]. *)
Record Page := mkPage { world : World; assets : Assets; lastTime : Q }.

(** The time step of [loop(timestamp)]:
    [if (!lastTime) lastTime = timestamp;
     const dt = (timestamp - lastTime) / 1000;] *)
Definition time_step (timestamp : Q) (p : Page) : Q :=
  let last := if Qeq_bool (lastTime p) 0 then timestamp else lastTime p in
  (timestamp - last) / 1000.

(** [loop(timestamp)]: the time step, [update(dt)], [draw()].  The result
    holds the calls of the frame; [None] means that the frame threw (or that
    a loop ran out of fuel), in which case no further frame is requested. *)
Definition loop (fuel : nat) (timestamp : Q) (p : Page) : option (Page * list Call) :=
  let dt := time_step timestamp p in
  match update dt (world p) with
  | Some w1 =>
      match draw fuel (assets p) w1 with
      | Some (calls, g) =>
          Some (mkPage (mkWorld (canvas_width w1) (canvas_height w1) (matrix w1)
                          (codeChunks w1) (scene w1) (hacks w1) g)
                  (assets p) timestamp,
                calls)
      | None => None
      end
  | None => None
  end.

(** What the browser delivers to the page once the loop runs: an animation
    frame with its timestamp, or a resize of the window. *)
Inductive PageEvent :=
  | animation_frame (timestamp : Q)
  | window_resize (innerWidth innerHeight : Q).

Definition handle (fuel : nat) (ev : PageEvent) (p : Page) : option Page :=
  match ev with
  | animation_frame timestamp => option_map fst (loop fuel timestamp p)
  | window_resize innerWidth innerHeight =>
      match on_resize fuel innerWidth innerHeight (world p) with
      | Some w => Some (mkPage w (assets p) (lastTime p))
      | None => None
      end
  end.

(** A run of the page; [None] when a frame threw, after which no further
    frame is requested. *)
Fixpoint handles (fuel : nat) (evs : list PageEvent) (p : Page) : option Page :=
  match evs with
  | [] => Some p
  | ev :: rest =>
      match handle fuel ev p with
      | Some p' => handles fuel rest p'
      | None => None
      end
  end.

(** The nesting depth of [save] after a run of calls from depth [d];
    [None] when a [restore] has no [save] to match. *)
Fixpoint save_depth (calls : list Call) (d : nat) : option nat :=
  match calls with
  | [] => Some d
  | save :: rest => save_depth rest (S d)
  | restore :: rest =>
      match d with
      | O => None
      | S d' => save_depth rest d'
      end
  | _ :: rest => save_depth rest d
  end.

(** An endpoint that refers to a node object of the store. *)
Definition valid_ref (h : list Node.obj) (o : option ref) : Prop :=
  exists r n, o = Some r /\ h !! r = Some n.

Definition link_valid (h : list Node.obj) (l : Link.obj) : Prop :=
  valid_ref h (Link.from l) /\ valid_ref h (Link.to l).

(** A chunk whose text is one of the snippets of the pool. *)
Definition text_ok (c : CodeChunk.obj) : Prop :=
  exists lines, CodeChunk.textLines c = Some lines /\ In lines CodeChunkSystem.snippets.

(** What [draw()] relies on: every link, every packet and every hack event
    refers to node objects of the store, the active packets are objects of
    the store, and every chunk has a text. *)
Definition drawable (w : World) : Prop :=
  Forall (link_valid (nodeHeap (scene w))) (links (network (scene w))) /\
  Forall (fun p => link_valid (nodeHeap (scene w)) (Packet.link p))
    (packetHeap (scene w)) /\
  Forall (fun e => link_valid (nodeHeap (scene w))
                     (Link.mk (HackEvent.hacker e) (HackEvent.target e)))
    (HackSystem.events (hacks w)) /\
  Forall text_ok (CodeChunkSystem.chunks (codeChunks w)).

(** The invariant of the page at paint time. *)
Definition page_inv (w : World) : Prop := world_inv w /\ page_ok w /\ drawable w.


(** The page as the script leaves it before the first frame. *)
Definition first_page (fuel : nat) (innerWidth innerHeight : Q) (a : Assets) (g : Rng)
    : option Page :=
  match start fuel innerWidth innerHeight g with
  | Some w => Some (mkPage w a 0)
  | None => None
  end.

(** Every packet of the store, and every hack event, refers to node objects
    of the store. *)
Definition packets_valid (s : Scene) : Prop :=
  Forall (fun p => link_valid (nodeHeap s) (Packet.link p)) (packetHeap s).

Definition events_valid (h : list Node.obj) (evs : list HackEvent.obj) : Prop :=
  Forall (fun e => link_valid h (Link.mk (HackEvent.hacker e) (HackEvent.target e))) evs.

(** The page from the first frame on: the script's setup followed by a run
    of animation frames and resizes. *)
Definition page_run (fuel : nat) (innerWidth innerHeight : Q) (a : Assets) (g : Rng)
    (evs : list PageEvent) : option Page :=
  match first_page fuel innerWidth innerHeight a g with
  | Some p => handles fuel evs p
  | None => None
  end.

(** Timestamps that never go back, starting from [last]. *)
Fixpoint ordered (last : Q) (evs : list PageEvent) : Prop :=
  match evs with
  | [] => True
  | animation_frame timestamp :: rest => last <= timestamp /\ ordered timestamp rest
  | window_resize _ _ :: rest => ordered last rest
  end.

(** The number of iterations that the loop of [reset] (from [x = 0] in
    steps of 16) and the loop of [MatrixColumn.draw] make on a surface of a
    given size, and the largest of them over a run. *)
Definition reset_fuel (width : Q) : nat := Z.to_nat (Qceiling ((width - 0) / 16)).

Definition draw_fuel (height : Q) : nat := Z.to_nat (Math_ceil (height / 16) + 5).

Definition frame_fuel (width height : Q) : nat :=
  Nat.max (reset_fuel width) (draw_fuel height).

Fixpoint run_fuel (width height : Q) (evs : list PageEvent) : nat :=
  match evs with
  | [] => frame_fuel width height
  | animation_frame _ :: rest => run_fuel width height rest
  | window_resize innerWidth innerHeight :: rest =>
      Nat.max (frame_fuel width height) (run_fuel innerWidth innerHeight rest)
  end.

(** Some node of the network has a positive highlight. *)
Definition highlighted (s : Scene) : Prop :=
  exists r n, In r (nodes (network s)) /\ nodeHeap s !! r = Some n /\
              0 < Node.hackedAlpha n.

(** Calls that leave the stack of saved canvas states as they found it. *)
Definition balanced (calls : list Call) : Prop :=
  forall d : nat, save_depth calls d = Some d.

(** [startWhenReady()].  The gate holds the counter [remaining], the images
    that were given a [load] and an [error] listener, and the number of
    calls of [requestAnimationFrame(loop)] made so far. *)
Record Gate := mkGate { remaining : Z; listening : list Image; requested : nat }.

Definition Image_eqb (i j : Image) : bool :=
  match i, j with
  | bg_image, bg_image | skull_image, skull_image => true
  | _, _ => false
  end.

(** [remaining--; if (remaining === 0) requestAnimationFrame(loop);] *)
Definition image_done (s : Gate) : Gate :=
  let r := (remaining s - 1)%Z in
  mkGate r (listening s) (if (r =? 0)%Z then S (requested s) else requested s).

(** The body of [imgs.forEach(img => ...)]. *)
Definition startWhenReady_visit (s : Gate) (img : Image * option bool) : Gate :=
  match snd img with
  | None => s
  | Some true => image_done s
  | Some false => mkGate (remaining s) (listening s ++ [fst img]) (requested s)
  end.

Definition startWhenReady (a : Assets) : Gate :=
  let imgs := [ (bg_image, bgImage a); (skull_image, skullImage a) ] in
  let remaining :=
    Z.of_nat (length (List.filter
                        (fun i => match snd i with Some _ => true | None => false end)
                        imgs)) in
  if (remaining =? 0)%Z then mkGate remaining [] 1
  else fold_left startWhenReady_visit imgs (mkGate remaining [] 0).

(** A [load] or an [error] event of an image: its listener runs if the image
    was given one. *)
Definition image_event (s : Gate) (img : Image) : Gate :=
  if existsb (Image_eqb img) (listening s) then image_done s else s.

Definition image_events (evs : list Image) (s : Gate) : Gate :=
  fold_left image_event evs s.

(** The events that reach a listener. *)
Definition delivered (s : Gate) (evs : list Image) : nat :=
  length (List.filter (fun img => existsb (Image_eqb img) (listening s)) evs).

(** The loop has been started exactly if the counter has reached zero. *)
Definition gate_ok (s : Gate) : Prop :=
  ((remaining s <= 0)%Z -> requested s = 1%nat) /\
  ((0 < remaining s)%Z -> requested s = 0%nat).

(** * Properties *)

(** ** Arithmetic and the random source *)

Ltac qdiv :=
  unfold Qdiv in *;
  repeat match goal with
  | |- context [ / ?c ] =>
      let v := eval vm_compute in (/ c) in change (/ c) with v
  | H : context [ / ?c ] |- _ =>
      let v := eval vm_compute in (/ c) in change (/ c) with v in H
  end.

Lemma Qltb_lt a b : Qltb a b = true <-> a < b.
Proof.
  unfold Qltb. rewrite negb_true_iff, <- not_true_iff_false, Qle_bool_iff.
  split; [apply Qnot_le_lt | apply Qlt_not_le].
Qed.

Lemma Qltb_ge a b : Qltb a b = false <-> b <= a.
Proof. unfold Qltb. rewrite negb_false_iff. apply Qle_bool_iff. Qed.

Lemma Qgtb_gt a b : Qgtb a b = true <-> b < a.
Proof. apply Qltb_lt. Qed.

Lemma Qgtb_le a b : Qgtb a b = false <-> a <= b.
Proof. apply Qltb_ge. Qed.

Lemma Qleb_le a b : Qleb a b = true <-> a <= b.
Proof. apply Qle_bool_iff. Qed.

Lemma Qleb_gt a b : Qleb a b = false <-> b < a.
Proof.
  unfold Qleb. rewrite <- not_true_iff_false, Qle_bool_iff.
  split; [apply Qnot_le_lt | apply Qlt_not_le].
Qed.

Lemma Qgeb_ge a b : Qgeb a b = true <-> b <= a.
Proof. apply Qleb_le. Qed.

Lemma Qgeb_lt a b : Qgeb a b = false <-> a < b.
Proof. apply Qleb_gt. Qed.

(** Case analysis on the first comparison of the goal, with the outcome
    as an inequality among the hypotheses. *)
Ltac cmp H :=
  match goal with
  | |- context [Qltb ?a ?b] =>
      destruct (Qltb a b) eqn:H; [apply Qltb_lt in H | apply Qltb_ge in H]
  | |- context [Qgtb ?a ?b] =>
      destruct (Qgtb a b) eqn:H; [apply Qgtb_gt in H | apply Qgtb_le in H]
  | |- context [Qleb ?a ?b] =>
      destruct (Qleb a b) eqn:H; [apply Qleb_le in H | apply Qleb_gt in H]
  | |- context [Qgeb ?a ?b] =>
      destruct (Qgeb a b) eqn:H; [apply Qgeb_ge in H | apply Qgeb_lt in H]
  end.

Lemma Qceiling_unique (q : Q) (z : Z) :
  inject_Z (z - 1) < q -> q <= inject_Z z -> Qceiling q = z.
Proof.
  intros Hlo Hhi.
  pose proof (Qle_ceiling q) as Hc. pose proof (Qceiling_lt q) as Hl.
  assert (inject_Z (z - 1) < inject_Z (Qceiling q)) as H1 by lra.
  assert (inject_Z (Qceiling q - 1) < inject_Z z) as H2 by lra.
  rewrite <- Zlt_Qlt in H1, H2. lia.
Qed.

Lemma Qceiling_pred (q : Q) : Qceiling (q - 1) = (Qceiling q - 1)%Z.
Proof.
  pose proof (Qle_ceiling q) as Hc. pose proof (Qceiling_lt q) as Hl.
  apply Qceiling_unique.
  - replace (Qceiling q - 1 - 1)%Z with ((Qceiling q - 1) + - 1)%Z by lia.
    rewrite inject_Z_plus. change (inject_Z (-1)) with (- 1). lra.
  - replace (Qceiling q - 1)%Z with (Qceiling q + - 1)%Z by lia.
    rewrite inject_Z_plus. change (inject_Z (-1)) with (- 1). lra.
Qed.

Lemma Qceiling_pos (q : Q) : 0 < q -> (0 < Qceiling q)%Z.
Proof.
  intros H. pose proof (Qle_ceiling q) as Hc.
  rewrite Zlt_Qlt. change (inject_Z 0) with 0. lra.
Qed.

Lemma Qceiling_nonpos (q : Q) : q <= 0 -> (Qceiling q <= 0)%Z.
Proof.
  intros H. pose proof (Qceiling_lt q) as Hl.
  assert (inject_Z (Qceiling q - 1) < inject_Z 0) as H1
    by (change (inject_Z 0) with 0; lra).
  rewrite <- Zlt_Qlt in H1. lia.
Qed.

Lemma same_source_refl g : same_source g g.
Proof. reflexivity. Qed.

Lemma same_source_trans g1 g2 g3 :
  same_source g1 g2 -> same_source g2 g3 -> same_source g1 g3.
Proof. unfold same_source. congruence. Qed.

Lemma same_source_unit_range g g' :
  same_source g g' -> unit_range g -> unit_range g'.
Proof. unfold same_source, unit_range. intros -> H. exact H. Qed.

Lemma Math_random_source g : same_source g (snd (Math_random g)).
Proof. reflexivity. Qed.

Lemma Math_random_range g :
  unit_range g -> 0 <= fst (Math_random g) /\ fst (Math_random g) < 1.
Proof. intros H. apply H. Qed.

Lemma forEach_length {A : Type} (m : A -> Rand A) (a : list A) :
  forall g, length (fst (forEach m a g)) = length a.
Proof.
  induction a as [|o rest IH]; intros g; [reflexivity|].
  cbn. unfold bind. destruct (m o g) as [o' g1].
  specialize (IH g1). destruct (forEach m rest g1) as [rest' g2].
  cbn in *. now rewrite IH.
Qed.

Lemma forEach_source {A : Type} (m : A -> Rand A) (a : list A) :
  (forall o g, same_source g (snd (m o g))) ->
  forall g, same_source g (snd (forEach m a g)).
Proof.
  intros Hm. induction a as [|o rest IH]; intros g; [reflexivity|].
  cbn. unfold bind. pose proof (Hm o g) as H1. destruct (m o g) as [o' g1].
  specialize (IH g1). destruct (forEach m rest g1) as [rest' g2].
  cbn in *. eapply same_source_trans; eassumption.
Qed.

(** ** Matrix rain *)

Lemma MatrixColumn_new_source x0 height g :
  same_source g (snd (MatrixColumn.new x0 height g)).
Proof. reflexivity. Qed.

Lemma MatrixColumn_new_range x0 height g :
  unit_range g -> 0 < height ->
  let c := fst (MatrixColumn.new x0 height g) in
  - height < MatrixColumn.y c /\ MatrixColumn.y c <= 0 /\
  50 <= MatrixColumn.speed c /\ MatrixColumn.speed c < 200.
Proof.
  intros Hg Hh. cbn.
  pose proof (Hg (cursor g)) as [H1 H2].
  pose proof (Hg (S (cursor g))) as [H3 H4].
  repeat split; nra.
Qed.

Lemma MatrixColumn_update_source dt height c g :
  same_source g (snd (MatrixColumn.update dt height c g)).
Proof.
  unfold MatrixColumn.update. cmp H; reflexivity.
Qed.

Lemma MatrixColumn_update_range dt height c g :
  unit_range g -> 0 < height -> 0 <= dt ->
  0 <= MatrixColumn.speed c -> - height <= MatrixColumn.y c ->
  let c' := fst (MatrixColumn.update dt height c g) in
  - height <= MatrixColumn.y c' /\ MatrixColumn.y c' <= height + 100 /\
  MatrixColumn.speed c' = MatrixColumn.speed c.
Proof.
  intros Hg Hh Hdt Hs Hy. unfold MatrixColumn.update. cmp H; cbn.
  - pose proof (Hg (cursor g)) as [H1 H2]. repeat split; nra.
  - repeat split; nra.
Qed.

Lemma MatrixColumn_updates_range dts height :
  0 < height -> Forall (Qle 0) dts ->
  forall c g,
    unit_range g -> 0 <= MatrixColumn.speed c ->
    - height <= MatrixColumn.y c -> MatrixColumn.y c <= height + 100 ->
    let c' := fst (MatrixColumn.updates dts height c g) in
    - height <= MatrixColumn.y c' /\ MatrixColumn.y c' <= height + 100.
Proof.
  intros Hh Hdts. induction Hdts as [|dt rest Hdt _ IH]; intros c g Hg Hs Hlo Hhi.
  - cbn. split; assumption.
  - cbn. unfold bind.
    pose proof (MatrixColumn_update_range dt height c g Hg Hh Hdt Hs Hlo) as (H1 & H2 & H3).
    pose proof (MatrixColumn_update_source dt height c g) as Hsrc.
    destruct (MatrixColumn.update dt height c g) as [c1 g1]. cbn in *.
    apply IH; [eapply same_source_unit_range; eassumption | | assumption..].
    now rewrite H3.
Qed.

Lemma reset_loop_count (width height : Q) (fuel : nat) :
  forall (x : Q) (cols : list MatrixColumn.obj) (g : Rng),
    (Z.to_nat (Qceiling ((width - x) / 16)) <= fuel)%nat ->
    exists cols' g',
      MatrixRainSystem.reset_loop fuel x width height 16 cols g = Some (cols', g') /\
      length cols' = (length cols + Z.to_nat (Qceiling ((width - x) / 16)))%nat.
Proof.
  induction fuel as [|fuel IH]; intros x cols g Hfuel.
  - cbn. cmp Hx.
    + assert (0 < (width - x) / 16) as Hq by (qdiv; lra).
      apply Qceiling_pos in Hq. lia.
    + exists cols, g. split; [reflexivity|].
      assert ((width - x) / 16 <= 0) as Hq by (qdiv; lra).
      apply Qceiling_nonpos in Hq. lia.
  - cbn [MatrixRainSystem.reset_loop]. cmp Hx.
    + assert (0 < (width - x) / 16) as Hq by (qdiv; lra).
      apply Qceiling_pos in Hq.
      assert (Qceiling ((width - (x + 16)) / 16)
              = (Qceiling ((width - x) / 16) - 1)%Z) as Hstep.
      { rewrite <- Qceiling_pred. apply Qceiling_comp. field. }
      destruct (MatrixColumn.new x height g) as [c g1].
      destruct (IH (x + 16) (cols ++ [c]) g1) as (cols' & g' & Hrun & Hlen).
      { rewrite Hstep. lia. }
      exists cols', g'. split; [exact Hrun|].
      rewrite Hlen, length_app, Hstep. cbn. lia.
    + exists cols, g. split; [reflexivity|].
      assert ((width - x) / 16 <= 0) as Hq by (qdiv; lra).
      apply Qceiling_nonpos in Hq. lia.
Qed.

Lemma MatrixRainSystem_update_count dt width height this g :
  length (MatrixRainSystem.columns (fst (MatrixRainSystem.update dt width height this g)))
  = length (MatrixRainSystem.columns this).
Proof.
  unfold MatrixRainSystem.update, bind.
  pose proof (forEach_length (MatrixColumn.update dt height)
                (MatrixRainSystem.columns this) g) as H.
  destruct (forEach _ _ g) as [cols g1]. exact H.
Qed.

(** C8.  [reset(width, height)] on a rain system (whose spacing is the 16
    that the constructor sets) returns once it is given enough fuel, and
    then, for a positive width, the number of columns is ceil(width/16);
    no later [update] call changes the number of columns. *)
Theorem matrix_reset_column_count (width height : Q)
    (this : MatrixRainSystem.obj) (g : Rng) :
  0 < width ->
  MatrixRainSystem.spacing this = 16 ->
  exists fuel0 : nat, forall fuel : nat, (fuel0 <= fuel)%nat ->
    exists this' g',
      MatrixRainSystem.reset fuel width height this g = Some (this', g') /\
      Z.of_nat (length (MatrixRainSystem.columns this')) = Qceiling (width / 16) /\
      forall dt w h g1,
        length (MatrixRainSystem.columns
                  (fst (MatrixRainSystem.update dt w h this' g1)))
        = length (MatrixRainSystem.columns this').
Proof.
  intros Hw Hsp.
  exists (Z.to_nat (Qceiling (width / 16))). intros fuel Hfuel.
  assert (Qceiling ((width - 0) / 16) = Qceiling (width / 16)) as H0
    by (apply Qceiling_comp; field).
  destruct (reset_loop_count width height fuel 0 [] g) as (cols & g' & Hrun & Hlen).
  { rewrite H0. exact Hfuel. }
  exists (MatrixRainSystem.mk cols 16), g'. split; [|split].
  - unfold MatrixRainSystem.reset. rewrite Hsp, Hrun. reflexivity.
  - cbn. rewrite Hlen, H0. cbn.
    assert (0 < width / 16) as Hq by (qdiv; lra).
    apply Qceiling_pos in Hq. lia.
  - intros. apply MatrixRainSystem_update_count.
Qed.

(** The instance of the specification: a surface 1024 pixels wide gets
    64 columns. *)
Lemma matrix_reset_column_count_witness :
  exists fuel0 : nat, forall fuel : nat, (fuel0 <= fuel)%nat ->
    exists this' g',
      MatrixRainSystem.reset fuel 1024 768 (MatrixRainSystem.mk [] 16)
        (mkRng (fun _ => 0.5) 0) = Some (this', g') /\
      Z.of_nat (length (MatrixRainSystem.columns this')) = 64%Z /\
      forall dt w h g1,
        length (MatrixRainSystem.columns
                  (fst (MatrixRainSystem.update dt w h this' g1)))
        = length (MatrixRainSystem.columns this').
Proof.
  apply (matrix_reset_column_count 1024 768 (MatrixRainSystem.mk [] 16)
           (mkRng (fun _ => 0.5) 0)); reflexivity.
Defined.

(** C7, as the code has it.  For a positive height and a time step
    [dt >= 0], [update(dt, height)] advances [y] by [speed * dt]; when the
    advanced [y] exceeds [height + 100] it is replaced by
    [Math.random() * -height], a value in (-height, 0]: zero is possible
    and [-height] is not.  A column built by the constructor therefore has
    its [y] within [-height, height + 100] after any number of updates. *)
Theorem matrix_column_update_wraps (height : Q) :
  0 < height ->
  (forall dt c g,
     unit_range g -> 0 <= dt ->
     let y1 := MatrixColumn.y c + MatrixColumn.speed c * dt in
     (y1 <= height + 100 ->
        MatrixColumn.update dt height c g
        = (MatrixColumn.mk (MatrixColumn.x c) y1 (MatrixColumn.speed c), g)) /\
     (height + 100 < y1 ->
        exists r,
          Math_random g = (r, snd (MatrixColumn.update dt height c g)) /\
          fst (MatrixColumn.update dt height c g)
          = MatrixColumn.mk (MatrixColumn.x c) (r * - height) (MatrixColumn.speed c) /\
          - height < r * - height /\ r * - height <= 0)) /\
  (forall x0 g dts,
     unit_range g -> Forall (Qle 0) dts ->
     let c0 := MatrixColumn.new x0 height g in
     let c := fst (MatrixColumn.updates dts height (fst c0) (snd c0)) in
     - height <= MatrixColumn.y c /\ MatrixColumn.y c <= height + 100).
Proof.
  intros Hh. split.
  - intros dt c g Hg Hdt y1. split; intros Hy.
    + unfold MatrixColumn.update. fold y1. cmp H; [lra | reflexivity].
    + unfold MatrixColumn.update. fold y1. cmp H; [|lra].
      exists (source g (cursor g)). cbn.
      pose proof (Hg (cursor g)) as [H1 H2].
      repeat split; nra.
  - intros x0 g dts Hg Hdts c0 c.
    pose proof (MatrixColumn_new_range x0 height g Hg Hh) as (H1 & H2 & H3 & H4).
    pose proof (MatrixColumn_new_source x0 height g) as Hsrc.
    assert (unit_range (snd c0)) as Hg'
      by (eapply same_source_unit_range; eassumption).
    subst c.
    refine (MatrixColumn_updates_range dts height Hh Hdts (fst c0) (snd c0)
              Hg' _ _ _); subst c0; lra.
Qed.

Lemma matrix_column_update_wraps_witness :
  let c0 := MatrixColumn.new 0 768 (mkRng (fun _ => 0.5) 0) in
  let c := fst (MatrixColumn.updates [5; 1; 0.016] 768 (fst c0) (snd c0)) in
  - 768 <= MatrixColumn.y c /\ MatrixColumn.y c <= 768 + 100.
Proof.
  apply (proj2 (matrix_column_update_wraps 768 eq_refl) 0 (mkRng (fun _ => 0.5) 0)
           [5; 1; 0.016]).
  - intros k. split; cbn; lra.
  - repeat constructor; cbn; lra.
Defined.

(** C7 as stated fails: with [Math.random()] returning 0, a column that
    passes the wrap threshold is reset to y = 0, which is not in
    [-height, 0). *)
Lemma matrix_column_wrap_reaches_zero :
  let g := mkRng (fun _ => 0) 0 in
  let height := 100 in
  let c0 := MatrixColumn.new 0 height g in
  let c := fst (MatrixColumn.update 5 height (fst c0) (snd c0)) in
  unit_range g /\
  height + 100 < MatrixColumn.y (fst c0) + MatrixColumn.speed (fst c0) * 5 /\
  ~ (- height <= MatrixColumn.y c /\ MatrixColumn.y c < 0).
Proof.
  cbv zeta. split; [|split].
  - intros k. cbn. lra.
  - vm_compute. reflexivity.
  - intros [_ H]. vm_compute in H. discriminate H.
Qed.

(** ** Code chunks *)

Lemma CodeChunk_isDead_iff width c :
  CodeChunk.isDead width c = true <->
  CodeChunk.alpha c <= 0 /\
  (CodeChunk.x c < - 400 \/ width + 400 < CodeChunk.x c).
Proof.
  unfold CodeChunk.isDead.
  rewrite andb_true_iff, orb_true_iff, Qleb_le, Qltb_lt, Qgtb_gt. reflexivity.
Qed.

(** C5.  [isDead] holds exactly when the opacity is at most 0 and x is
    more than 400 pixels outside the surface, and [CodeChunkSystem.update]
    keeps, in order, exactly the updated chunks for which it does not hold:
    a chunk with positive opacity is kept wherever it is, and so is a chunk
    whose x is within [-400, width + 400] whatever its opacity. *)
Theorem code_chunk_removed_iff_faded_and_outside
    (dt width height : Q) (this : CodeChunkSystem.obj) (g : Rng) :
  let spawned := CodeChunkSystem.spawn dt width height this g in
  let updated := fst (forEach (CodeChunk.update dt)
                        (CodeChunkSystem.chunks (fst spawned)) (snd spawned)) in
  let kept := CodeChunkSystem.chunks
                (fst (CodeChunkSystem.update dt width height this g)) in
  (forall c, CodeChunk.isDead width c = true <->
             CodeChunk.alpha c <= 0 /\
             (CodeChunk.x c < - 400 \/ width + 400 < CodeChunk.x c)) /\
  kept = List.filter (fun c => negb (CodeChunk.isDead width c)) updated /\
  (forall c, In c kept <->
             In c updated /\
             ~ (CodeChunk.alpha c <= 0 /\
                (CodeChunk.x c < - 400 \/ width + 400 < CodeChunk.x c))) /\
  (forall c, In c updated -> 0 < CodeChunk.alpha c -> In c kept) /\
  (forall c, In c updated ->
             - 400 <= CodeChunk.x c -> CodeChunk.x c <= width + 400 -> In c kept).
Proof.
  intros spawned updated kept.
  assert (kept = List.filter (fun c => negb (CodeChunk.isDead width c)) updated) as Hk.
  { subst kept updated spawned. unfold CodeChunkSystem.update, bind.
    destruct (CodeChunkSystem.spawn dt width height this g) as [this1 g1]. cbn.
    destruct (forEach (CodeChunk.update dt) (CodeChunkSystem.chunks this1) g1)
      as [cs g2]. reflexivity. }
  assert (forall c, In c kept <->
             In c updated /\
             ~ (CodeChunk.alpha c <= 0 /\
                (CodeChunk.x c < - 400 \/ width + 400 < CodeChunk.x c))) as Hin.
  { intros c. rewrite Hk, filter_In, negb_true_iff, <- not_true_iff_false,
      CodeChunk_isDead_iff. reflexivity. }
  split; [intros c; apply CodeChunk_isDead_iff|].
  split; [exact Hk|]. split; [exact Hin|]. split.
  - intros c Hc Ha. apply Hin. split; [exact Hc|]. intros [H _]. lra.
  - intros c Hc Hlo Hhi. apply Hin. split; [exact Hc|]. intros [_ [H|H]]; lra.
Qed.

Lemma CodeChunk_update_alpha_inv dt c g :
  0 <= dt -> CodeChunk_alpha_inv c ->
  CodeChunk_alpha_inv (fst (CodeChunk.update dt c g)).
Proof.
  intros Hdt [Hhi Hlo]. unfold CodeChunk.update, CodeChunk_alpha_inv.
  destruct (CodeChunk.state c) eqn:Hst.
  - cmp H; cbn.
    + split; [lra | intros _; lra].
    + split; [lra | intros _]. assert (0 <= CodeChunk.alpha c) by (apply Hlo; discriminate).
      lra.
  - assert (0 <= CodeChunk.alpha c) by (apply Hlo; discriminate).
    destruct (CodeChunk.holdTime c); cbn; split; auto.
  - cbn. split; [lra | intros H; now elim H].
Qed.

Lemma CodeChunk_updates_alpha_inv dts :
  Forall (Qle 0) dts ->
  forall c g, CodeChunk_alpha_inv c ->
              CodeChunk_alpha_inv (fst (CodeChunk.updates dts c g)).
Proof.
  induction 1 as [|dt rest Hdt _ IH]; intros c g Hc; [exact Hc|].
  cbn. unfold bind.
  pose proof (CodeChunk_update_alpha_inv dt c g Hdt Hc) as H1.
  destruct (CodeChunk.update dt c g) as [c1 g1]. apply IH. exact H1.
Qed.

(** C6, as the code has it.  With [dt >= 0], the opacity rises by
    [0.5 * dt] during fadeIn and is set to 0.8 once it would reach it, is
    left alone during hold, and falls by [0.3 * dt] during fadeOut with no
    floor.  So for a chunk built by the constructor the opacity never
    exceeds 0.8 and is at least 0 as long as the chunk has not entered
    fadeOut; nothing is promised below 0 once it has. *)
Theorem code_chunk_alpha_bounds :
  (forall dt c g,
     0 <= dt ->
     let c' := fst (CodeChunk.update dt c g) in
     match CodeChunk.state c with
     | CodeChunk.fadeIn =>
         (CodeChunk.alpha c + dt * 0.5 < 0.8 ->
            CodeChunk.alpha c' = CodeChunk.alpha c + dt * 0.5 /\
            CodeChunk.state c' = CodeChunk.fadeIn) /\
         (0.8 <= CodeChunk.alpha c + dt * 0.5 ->
            CodeChunk.alpha c' = 0.8 /\ CodeChunk.state c' = CodeChunk.hold)
     | CodeChunk.hold => CodeChunk.alpha c' = CodeChunk.alpha c
     | CodeChunk.fadeOut =>
         CodeChunk.alpha c' = CodeChunk.alpha c - dt * 0.3 /\
         CodeChunk.state c' = CodeChunk.fadeOut
     end) /\
  (forall width height lines dir g dts,
     Forall (Qle 0) dts ->
     let c0 := CodeChunk.new width height lines dir g in
     let c := fst (CodeChunk.updates dts (fst c0) (snd c0)) in
     CodeChunk.alpha c <= 0.8 /\
     (CodeChunk.state c <> CodeChunk.fadeOut -> 0 <= CodeChunk.alpha c)).
Proof.
  split.
  - intros dt c g Hdt c'. subst c'. unfold CodeChunk.update.
    destruct (CodeChunk.state c).
    + split; intros H; cmp H'; cbn; try lra; split; reflexivity.
    + destruct (CodeChunk.holdTime c); reflexivity.
    + split; reflexivity.
  - intros width height lines dir g dts Hdts c0 c.
    apply (CodeChunk_updates_alpha_inv dts Hdts (fst c0) (snd c0)).
    subst c0. unfold CodeChunk_alpha_inv. cbn. split; [lra | intros _; lra].
Qed.

Lemma code_chunk_alpha_bounds_witness :
  let c0 := CodeChunk.new 1024 768 (Some []) 1 (mkRng (fun _ => 0.5) 0) in
  let c := fst (CodeChunk.updates [1; 1; 4; 0.5] (fst c0) (snd c0)) in
  CodeChunk.alpha c <= 0.8 /\
  (CodeChunk.state c <> CodeChunk.fadeOut -> 0 <= CodeChunk.alpha c).
Proof.
  apply (proj2 code_chunk_alpha_bounds 1024 768 (Some []) 1
           (mkRng (fun _ => 0.5) 0) [1; 1; 4; 0.5]).
  repeat constructor; cbn; lra.
Defined.

(** C6 as stated fails: a chunk that fades in, holds and then fades out
    for three seconds has opacity -0.1, outside [0,1]. *)
Lemma code_chunk_alpha_goes_negative :
  let g := mkRng (fun _ => 0) 0 in
  let dts := [2; 2; 3] in
  let c0 := CodeChunk.new 1024 768 (Some []) 1 g in
  let c := fst (CodeChunk.updates dts (fst c0) (snd c0)) in
  unit_range g /\ Forall (Qle 0) dts /\
  CodeChunk.state c = CodeChunk.fadeOut /\
  CodeChunk.alpha c == - 0.1 /\
  ~ (0 <= CodeChunk.alpha c /\ CodeChunk.alpha c <= 1).
Proof.
  cbv zeta. split; [|split; [|split; [|split]]].
  - intros k. cbn. lra.
  - repeat constructor; cbn; lra.
  - vm_compute. reflexivity.
  - vm_compute. reflexivity.
  - intros [H _]. vm_compute in H. apply H. reflexivity.
Qed.

(** ** Node network: lookup by identifier and [sendPacket] *)

Lemma has_id_true h i r :
  has_id h i r = true <-> exists n, h !! r = Some n /\ Node.id n = i.
Proof.
  unfold has_id. destruct (h !! r) as [n|].
  - rewrite String.eqb_eq. split.
    + intros H. exists n. split; [reflexivity | exact H].
    + intros (n' & Hn & Hi). congruence.
  - split; [discriminate | intros (n & Hn & _); discriminate].
Qed.

Lemma find_id_Some h refs i r :
  find_id h refs i = Some r ->
  In r refs /\ exists n, h !! r = Some n /\ Node.id n = i.
Proof.
  intros H. apply find_some in H as [Hin Hid].
  split; [exact Hin | now apply has_id_true].
Qed.

Lemma find_id_contains s i :
  contains_id s i <->
  exists r, find_id (nodeHeap s) (nodes (network s)) i = Some r.
Proof.
  split.
  - intros (r & n & Hin & Hn & Hi).
    destruct (find_id (nodeHeap s) (nodes (network s)) i)
      as [r'|] eqn:Hf; [now exists r'|].
    pose proof (find_none _ _ Hf r Hin) as Hno.
    assert (has_id (nodeHeap s) i r = true) as Hyes
      by (apply has_id_true; now exists n).
    congruence.
  - intros (r & Hf). apply find_id_Some in Hf as (Hin & n & Hn & Hi).
    now exists r, n.
Qed.

(** C3.  [sendPacket(fromId, toId, color, speed)] is total (it raises no
    error).  When the network contains nodes with both identifiers it
    appends exactly one packet to the active collection: a new packet with
    [t = 0], the given color and speed, on a fresh link between the two
    nodes found; nothing else changes.  When either identifier matches no
    node, the scene, and so the collection, is unchanged. *)
Theorem sendPacket_appends_one_or_ignores
    (fromId toId color : string) (speed : Q) (s : Scene) :
  (contains_id s fromId -> contains_id s toId ->
   exists from to nf nt,
     find_id (nodeHeap s) (nodes (network s)) fromId = Some from /\
     find_id (nodeHeap s) (nodes (network s)) toId = Some to /\
     nodeHeap s !! from = Some nf /\ Node.id nf = fromId /\
     nodeHeap s !! to = Some nt /\ Node.id nt = toId /\
     let p := Packet.mk (Link.mk (Some from) (Some to)) 0 speed color in
     let s' := NodeNetworkSystem.sendPacket fromId toId color speed s in
     packetHeap s' = packetHeap s ++ [p] /\
     packets (network s')
     = packets (network s) ++ [length (packetHeap s)] /\
     packetHeap s' !! length (packetHeap s) = Some p /\
     Packet.t p = 0 /\
     nodeHeap s' = nodeHeap s /\
     nodes (network s') = nodes (network s) /\
     links (network s') = links (network s) /\
     normalTrafficTimer (network s')
     = normalTrafficTimer (network s)) /\
  (~ contains_id s fromId \/ ~ contains_id s toId ->
   NodeNetworkSystem.sendPacket fromId toId color speed s = s).
Proof.
  split.
  - intros Hf Ht.
    apply find_id_contains in Hf as [from Hf]. apply find_id_contains in Ht as [to Ht].
    destruct (find_id_Some _ _ _ _ Hf) as (_ & nf & Hnf & Hif).
    destruct (find_id_Some _ _ _ _ Ht) as (_ & nt & Hnt & Hit).
    exists from, to, nf, nt. unfold NodeNetworkSystem.sendPacket. rewrite Hf, Ht. cbn.
    repeat split; try assumption.
    apply list_lookup_middle. reflexivity.
  - intros Hno. unfold NodeNetworkSystem.sendPacket.
    destruct (find_id _ _ fromId) as [from|] eqn:Hf; [|reflexivity].
    destruct (find_id _ _ toId) as [to|] eqn:Ht; [|reflexivity].
    exfalso. destruct Hno as [Hno|Hno]; apply Hno; apply find_id_contains; eauto.
Qed.

Lemma sendPacket_appends_one_or_ignores_witness :
  (let s' := NodeNetworkSystem.sendPacket "router" "desktop1" "#00ff88" 180 scene0 in
   packetHeap s' = [Packet.mk (Link.mk (Some 4%nat) (Some 2%nat)) 0 180 "#00ff88"] /\
   packets (network s') = [0%nat]) /\
  NodeNetworkSystem.sendPacket "router" "printer" "#00ff88" 180 scene0 = scene0.
Proof.
  split.
  - destruct (proj1 (sendPacket_appends_one_or_ignores
                       "router" "desktop1" "#00ff88" 180 scene0))
      as (from & to & nf & nt & Hf & Ht & _ & _ & _ & _ & Hp & Hc & _).
    + exists 4%nat. eexists. split; [cbn; tauto | split; reflexivity].
    + exists 2%nat. eexists. split; [cbn; tauto | split; reflexivity].
    + cbv zeta. rewrite Hp, Hc.
      injection Hf as <-. injection Ht as <-. split; reflexivity.
  - apply (proj2 (sendPacket_appends_one_or_ignores
                    "router" "printer" "#00ff88" 180 scene0)).
    right. intros Hc. apply find_id_contains in Hc as [r Hr]. discriminate Hr.
Defined.

(** ** Invariants of the store *)

Lemma packet_advanced_refl p : packet_advanced p p.
Proof. repeat split; lra. Qed.

Lemma packet_advanced_trans p1 p2 p3 :
  packet_advanced p1 p2 -> packet_advanced p2 p3 -> packet_advanced p1 p3.
Proof.
  intros (H1 & H2 & H3 & H4) (H5 & H6 & H7 & H8).
  repeat split; try congruence. lra.
Qed.

Lemma store_advanced_refl ph : store_advanced ph ph.
Proof. intros r p H. exists p. split; [exact H | apply packet_advanced_refl]. Qed.

Lemma store_advanced_trans ph1 ph2 ph3 :
  store_advanced ph1 ph2 -> store_advanced ph2 ph3 -> store_advanced ph1 ph3.
Proof.
  intros H12 H23 r p Hp.
  destruct (H12 r p Hp) as (p2 & Hp2 & Ha). destruct (H23 r p2 Hp2) as (p3 & Hp3 & Hb).
  exists p3. split; [exact Hp3 | eapply packet_advanced_trans; eassumption].
Qed.

Lemma store_advanced_app ph extra : store_advanced ph (ph ++ extra).
Proof.
  intros r p H. exists p. split; [now apply lookup_app_l_Some | apply packet_advanced_refl].
Qed.

Lemma Node_update_ok dt n : 0 <= dt -> node_ok n -> node_ok (Node.update dt n).
Proof.
  intros Hdt [Hlo Hhi]. unfold Node.update, node_ok.
  destruct (Qgtb (Node.hackedAlpha n) 0) eqn:Hpos; [|split; assumption].
  cmp Hneg; cbn; split; lra.
Qed.

Lemma Packet_update_advanced dt p :
  0 <= dt -> packet_ok p ->
  packet_advanced p (Packet.update dt p) /\ packet_ok (Packet.update dt p).
Proof.
  intros Hdt [Ht Hs]. unfold packet_advanced, packet_ok. cbn.
  assert (0 <= Packet.speed p * dt / 1000) by (qdiv; nra).
  repeat split; lra.
Qed.

Lemma forEach_ref_Forall {A : Type} (P : A -> Prop) (m : A -> A) (refs : list ref) :
  (forall a, P a -> P (m a)) ->
  forall h, Forall P h -> Forall P (forEach_ref m refs h).
Proof.
  intros Hm. unfold forEach_ref.
  induction refs as [|r rest IH]; intros h Hh; [exact Hh|].
  cbn. apply IH. apply Forall_alter; [exact Hh | intros a _; apply Hm].
Qed.

Lemma forEach_ref_length {A : Type} (m : A -> A) (refs : list ref) :
  forall h, length (forEach_ref m refs h) = length h.
Proof.
  unfold forEach_ref. induction refs as [|r rest IH]; intros h; [reflexivity|].
  cbn. rewrite IH. apply length_alter.
Qed.

Lemma forEach_ref_advanced dt (refs : list ref) :
  0 <= dt ->
  forall ph, Forall packet_ok ph ->
             store_advanced ph (forEach_ref (Packet.update dt) refs ph).
Proof.
  intros Hdt. unfold forEach_ref.
  induction refs as [|r0 rest IH]; intros ph Hok; [apply store_advanced_refl|].
  cbn. eapply store_advanced_trans; [|apply IH].
  - intros r p Hp. destruct (decide (r0 = r)) as [->|Hne].
    + exists (Packet.update dt p). rewrite list_lookup_alter_eq, Hp. split; [reflexivity|].
      apply Packet_update_advanced; [exact Hdt|].
      eapply Forall_lookup_1; eassumption.
    + exists p. rewrite list_lookup_alter_ne by exact Hne.
      split; [exact Hp | apply packet_advanced_refl].
  - apply Forall_alter; [exact Hok|]. intros p _ Hp.
    now apply Packet_update_advanced.
Qed.

Lemma active_ok_app ph extra r : active_ok ph r -> active_ok (ph ++ extra) r.
Proof.
  intros (p & Hp & Ht). exists p. split; [now apply lookup_app_l_Some | exact Ht].
Qed.

Lemma push_packet_inv p s :
  packet_ok p -> Packet.t p < 1 -> scene_inv s ->
  scene_inv (NodeNetworkSystem.push_packet p s).
Proof.
  intros Hp Ht (Hn & Hph & Hact). unfold scene_inv. cbn. split; [exact Hn|]. split.
  - apply Forall_app. split; [exact Hph | now constructor].
  - apply Forall_app. split.
    + eapply Forall_impl; [exact Hact|]. intros r. apply active_ok_app.
    + constructor; [|constructor]. exists p. split.
      * apply list_lookup_middle. reflexivity.
      * split; [apply Hp | exact Ht].
Qed.

Lemma push_packet_frame p s :
  nodeHeap (NodeNetworkSystem.push_packet p s) = nodeHeap s /\
  store_advanced (packetHeap s) (packetHeap (NodeNetworkSystem.push_packet p s)).
Proof. split; [reflexivity | apply store_advanced_app]. Qed.

Lemma sendPacket_inv fromId toId color speed s :
  0 <= speed -> scene_inv s ->
  scene_inv (NodeNetworkSystem.sendPacket fromId toId color speed s).
Proof.
  intros Hs Hinv. unfold NodeNetworkSystem.sendPacket.
  destruct (find_id _ _ fromId); [|exact Hinv].
  destruct (find_id _ _ toId); [|exact Hinv].
  apply push_packet_inv; [split; cbn; lra | cbn; lra | exact Hinv].
Qed.

Lemma sendPacket_frame fromId toId color speed s :
  nodeHeap (NodeNetworkSystem.sendPacket fromId toId color speed s) = nodeHeap s /\
  store_advanced (packetHeap s)
    (packetHeap (NodeNetworkSystem.sendPacket fromId toId color speed s)).
Proof.
  unfold NodeNetworkSystem.sendPacket.
  destruct (find_id _ _ fromId); [|split; [reflexivity | apply store_advanced_refl]].
  destruct (find_id _ _ toId); [|split; [reflexivity | apply store_advanced_refl]].
  apply push_packet_frame.
Qed.

Lemma sendPacket_nodes fromId toId color speed s :
  nodes (network (NodeNetworkSystem.sendPacket fromId toId color speed s))
  = nodes (network s).
Proof.
  unfold NodeNetworkSystem.sendPacket.
  destruct (find_id _ _ fromId); [|reflexivity].
  destruct (find_id _ _ toId); reflexivity.
Qed.

Lemma traffic_inv dt s g s' g' :
  unit_range g -> NodeNetworkSystem.traffic dt s g = Some (s', g') -> scene_inv s ->
  scene_inv s' /\ same_source g g' /\ scene_frame s s'.
Proof.
  intros Hg H Hinv. unfold NodeNetworkSystem.traffic, ebind, lift, throw, ret in H.
  unfold scene_frame.
  destruct (Qleb _ 0).
  2:{ injection H as <- <-. repeat split; try apply Hinv. apply store_advanced_refl. }
  cbn [Math_random] in H.
  match type of H with
  | context [find_id ?a ?b ?c] => destruct (find_id a b c) as [router|]
  end.
  2:{ injection H as <- <-. repeat split; try apply Hinv. apply store_advanced_refl. }
  match type of H with
  | context [NodeNetworkSystem.others ?a] => destruct (NodeNetworkSystem.others a) as [|o os]
  end.
  { injection H as <- <-. repeat split; try apply Hinv. apply store_advanced_refl. }
  destruct (array_get _ _) as [target|]; [|discriminate H].
  match type of H with
  | context [nodeHeap ?a !! router] => destruct (nodeHeap a !! router) as [nr|]
  end; [|discriminate H].
  match type of H with
  | context [nodeHeap ?a !! target] => destruct (nodeHeap a !! target) as [nt|]
  end; [|discriminate H].
  injection H as <- <-.
  pose proof (Hg (S (S (cursor g)))) as [Ha _].
  pose proof (Hg (S (S (S (cursor g))))) as [Hb _].
  cbn [source cursor] in *.
  split; [|split; [|split; [|split]]].
  - apply sendPacket_inv; [nra|]. apply sendPacket_inv; [nra|]. exact Hinv.
  - reflexivity.
  - rewrite !(fun a b c d e => proj1 (sendPacket_frame a b c d e)). reflexivity.
  - rewrite !sendPacket_nodes. reflexivity.
  - eapply store_advanced_trans; [|apply sendPacket_frame].
    eapply store_advanced_trans; [|apply sendPacket_frame]. apply store_advanced_refl.
Qed.

Lemma NodeNetworkSystem_update_active dt width height s g s' g' :
  NodeNetworkSystem.update dt width height s g = Some (s', g') ->
  Forall (fun r => exists p, packetHeap s' !! r = Some p /\ Packet.t p < 1)
    (packets (network s')).
Proof.
  intros H. unfold NodeNetworkSystem.update, ebind, lift, ret in H.
  destruct (NodeNetworkSystem.traffic dt _ g) as [[s2 g2]|]; [|discriminate H].
  injection H as <- <-. cbn.
  apply List.Forall_forall. intros r Hr. apply filter_In in Hr as [_ Hlive].
  destruct (forEach_ref (Packet.update dt) _ _ !! r) as [p|]; [|discriminate Hlive].
  exists p. split; [reflexivity|].
  apply negb_true_iff in Hlive. now apply Qgeb_lt in Hlive.
Qed.

Lemma NodeNetworkSystem_update_inv dt width height s g s' g' :
  0 <= dt -> unit_range g ->
  NodeNetworkSystem.update dt width height s g = Some (s', g') -> scene_inv s ->
  scene_inv s' /\ same_source g g' /\
  length (nodeHeap s') = length (nodeHeap s) /\
  store_advanced (packetHeap s) (packetHeap s').
Proof.
  intros Hdt Hg H (Hn & Hp & Ha).
  pose proof (NodeNetworkSystem_update_active _ _ _ _ _ _ _ H) as Hact.
  unfold NodeNetworkSystem.update, ebind, lift, ret in H.
  destruct (NodeNetworkSystem.traffic dt _ g) as [[s2 g2]|] eqn:Htr; [|discriminate H].
  apply traffic_inv in Htr as ((Hn2 & Hp2 & Ha2) & Hsrc & Hnh & _ & Hadv);
    [|exact Hg|].
  2:{ split; [|split]; cbn; [|exact Hp|exact Ha].
      apply forEach_ref_Forall; [|exact Hn]. intros n. now apply Node_update_ok. }
  cbn in Hnh, Hadv.
  pose proof (forEach_ref_advanced dt (packets (network s2))
                Hdt (packetHeap s2) Hp2) as Hadv2.
  assert (Forall packet_ok
            (forEach_ref (Packet.update dt) (packets (network s2))
               (packetHeap s2))) as Hp3.
  { apply forEach_ref_Forall; [|exact Hp2]. intros p. now apply Packet_update_advanced. }
  injection H as <- <-. cbn in *.
  split; [split; [exact Hn2 | split; [exact Hp3|]]|].
  - eapply Forall_impl; [exact Hact|]. intros r (p & Hr & Ht).
    exists p. split; [exact Hr|]. split; [|exact Ht].
    apply (Forall_lookup_1 _ _ _ _ Hp3 Hr).
  - split; [exact Hsrc|]. split.
    + rewrite Hnh. apply forEach_ref_length.
    + eapply store_advanced_trans; eassumption.
Qed.

(** ** Invariants of the hack system and of the main loop *)

Lemma mark_inv r s : scene_inv s -> scene_inv (HackEvent.mark r s).
Proof.
  intros (Hn & Hp & Ha). split; [|split; assumption]. cbn.
  apply Forall_alter; [exact Hn|]. intros n _ _. split; cbn; lra.
Qed.

Lemma HackEvent_update_inv dt e s e' s' :
  HackEvent.update dt e s = Some (e', s') -> scene_inv s ->
  scene_inv s' /\ length (nodeHeap s') = length (nodeHeap s) /\
  store_advanced (packetHeap s) (packetHeap s').
Proof.
  intros H Hinv. unfold HackEvent.update in H.
  destruct (HackEvent.state e).
  - assert (scene_inv match HackEvent.hacker e with
                      | Some h => HackEvent.mark h s
                      | None => s
                      end /\
            length (nodeHeap match HackEvent.hacker e with
                             | Some h => HackEvent.mark h s
                             | None => s
                             end) = length (nodeHeap s) /\
            packetHeap match HackEvent.hacker e with
                       | Some h => HackEvent.mark h s
                       | None => s
                       end = packetHeap s) as (H1 & H2 & H3).
    { destruct (HackEvent.hacker e) as [h|].
      - split; [now apply mark_inv|]. split; [apply length_alter | reflexivity].
      - repeat split; apply Hinv. }
    destruct (Qgtb _ 0.5); injection H as <- <-;
      (split; [exact H1 | split; [exact H2 | rewrite H3; apply store_advanced_refl]]).
  - injection H as <- <-. split; [|split].
    + apply push_packet_inv; [split; cbn; lra | cbn; lra | exact Hinv].
    + reflexivity.
    + apply push_packet_frame.
  - destruct (match HackEvent.packet e with
              | Some pr => _
              | None => false
              end).
    + destruct (HackEvent.target e) as [tg|]; [|discriminate H].
      injection H as <- <-. split; [now apply mark_inv|].
      split; [apply length_alter | apply store_advanced_refl].
    + injection H as <- <-.
      split; [exact Hinv | split; [reflexivity | apply store_advanced_refl]].
  - destruct (Qgtb _ 1.5); injection H as <- <-;
      (split; [exact Hinv | split; [reflexivity | apply store_advanced_refl]]).
  - injection H as <- <-.
    split; [exact Hinv | split; [reflexivity | apply store_advanced_refl]].
Qed.

Lemma forEach_event_inv dt evs :
  forall s evs' s',
    HackSystem.forEach_event dt evs s = Some (evs', s') -> scene_inv s ->
    scene_inv s' /\ length (nodeHeap s') = length (nodeHeap s) /\
    store_advanced (packetHeap s) (packetHeap s').
Proof.
  induction evs as [|e rest IH]; intros s evs' s' H Hinv.
  - injection H as <- <-.
    split; [exact Hinv | split; [reflexivity | apply store_advanced_refl]].
  - cbn in H.
    destruct (HackEvent.update dt e s) as [[e1 s1]|] eqn:He; [|discriminate H].
    destruct (HackSystem.forEach_event dt rest s1) as [[rest1 s2]|] eqn:Hr;
      [|discriminate H].
    injection H as <- <-.
    apply HackEvent_update_inv in He as (H1 & H2 & H3); [|exact Hinv].
    apply IH in Hr as (H4 & H5 & H6); [|exact H1].
    split; [exact H4|]. split; [congruence|].
    eapply store_advanced_trans; eassumption.
Qed.

Lemma HackSystem_spawn_source dt this s g :
  same_source g (snd (HackSystem.spawn dt this s g)).
Proof. unfold HackSystem.spawn. destruct (Qleb _ 0); reflexivity. Qed.

Lemma HackSystem_update_inv dt this s g this' s' g' :
  HackSystem.update dt this s g = Some (this', s', g') -> scene_inv s ->
  scene_inv s' /\ same_source g g' /\
  length (nodeHeap s') = length (nodeHeap s) /\
  store_advanced (packetHeap s) (packetHeap s').
Proof.
  intros H Hinv. unfold HackSystem.update, ebind, lift, throw, ret in H.
  pose proof (HackSystem_spawn_source dt this s g) as Hsrc.
  destruct (HackSystem.spawn dt this s g) as [this1 g1].
  destruct (HackSystem.forEach_event dt _ s) as [[evs s1]|] eqn:He; [|discriminate H].
  injection H as <- <- <-.
  apply forEach_event_inv in He as (H1 & H2 & H3); [|exact Hinv].
  repeat split; try assumption; apply H1.
Qed.

Lemma MatrixRainSystem_update_source dt width height this g :
  same_source g (snd (MatrixRainSystem.update dt width height this g)).
Proof.
  unfold MatrixRainSystem.update, bind.
  pose proof (forEach_source (MatrixColumn.update dt height)
                (MatrixRainSystem.columns this)
                (MatrixColumn_update_source dt height) g) as H.
  destruct (forEach _ _ g) as [cols g1]. exact H.
Qed.

Lemma CodeChunk_update_source dt c g :
  same_source g (snd (CodeChunk.update dt c g)).
Proof.
  unfold CodeChunk.update. destruct (CodeChunk.state c).
  - destruct (Qgeb _ 0.8); reflexivity.
  - destruct (CodeChunk.holdTime c); reflexivity.
  - reflexivity.
Qed.

Lemma CodeChunkSystem_spawn_source dt width height this g :
  same_source g (snd (CodeChunkSystem.spawn dt width height this g)).
Proof. unfold CodeChunkSystem.spawn. destruct (Qleb _ 0); reflexivity. Qed.

Lemma CodeChunkSystem_update_source dt width height this g :
  same_source g (snd (CodeChunkSystem.update dt width height this g)).
Proof.
  unfold CodeChunkSystem.update, bind.
  pose proof (CodeChunkSystem_spawn_source dt width height this g) as H1.
  destruct (CodeChunkSystem.spawn dt width height this g) as [this1 g1].
  pose proof (forEach_source (CodeChunk.update dt) (CodeChunkSystem.chunks this1)
                (CodeChunk_update_source dt) g1) as H2.
  destruct (forEach _ _ g1) as [cs g2]. cbn in *.
  eapply same_source_trans; eassumption.
Qed.

Lemma reset_loop_source fuel :
  forall x width height step cols g cols' g',
    MatrixRainSystem.reset_loop fuel x width height step cols g = Some (cols', g') ->
    same_source g g'.
Proof.
  induction fuel as [|fuel IH]; intros x width height step cols g cols' g' H; cbn in H.
  - destruct (Qltb x width); [discriminate H|]. injection H as <- <-. reflexivity.
  - destruct (Qltb x width); [|injection H as <- <-; reflexivity].
    apply IH in H. exact H.
Qed.

Lemma reset_source fuel width height this g this' g' :
  MatrixRainSystem.reset fuel width height this g = Some (this', g') ->
  same_source g g'.
Proof.
  unfold MatrixRainSystem.reset. intros H.
  destruct (MatrixRainSystem.reset_loop _ _ _ _ _ _ g) as [[cols g1]|] eqn:Hl;
    [|discriminate H].
  injection H as <- <-. eapply reset_loop_source. exact Hl.
Qed.

Lemma setupLayout_inv width height s :
  scene_inv s -> scene_inv (NodeNetworkSystem.setupLayout width height s).
Proof.
  intros (Hn & Hp & Ha). split; [|split; assumption]. cbn.
  apply Forall_app. split; [exact Hn|].
  repeat constructor; cbn; lra.
Qed.

Lemma start_inv fuel width height g w :
  unit_range g -> start fuel width height g = Some w -> world_inv w.
Proof.
  intros Hg H. unfold start in H.
  destruct (MatrixRainSystem.new fuel width height g) as [[m g1]|] eqn:Hm;
    [|discriminate H].
  injection H as <-. split; cbn.
  - apply setupLayout_inv. repeat split; constructor.
  - eapply same_source_unit_range; [|exact Hg]. eapply reset_source. exact Hm.
Qed.

Lemma on_resize_inv fuel width height w w' :
  on_resize fuel width height w = Some w' -> world_inv w ->
  world_inv w' /\
  store_advanced (packetHeap (scene w)) (packetHeap (scene w')).
Proof.
  intros H [Hs Hg]. unfold on_resize in H.
  destruct (MatrixRainSystem.reset _ _ _ _ _) as [[m g1]|] eqn:Hm; [|discriminate H].
  injection H as <-. cbn. split; [split|].
  - now apply setupLayout_inv.
  - eapply same_source_unit_range; [|exact Hg]. eapply reset_source. exact Hm.
  - apply store_advanced_refl.
Qed.

Lemma update_inv dt w w' :
  0 <= dt -> update dt w = Some w' -> world_inv w ->
  world_inv w' /\
  store_advanced (packetHeap (scene w)) (packetHeap (scene w')).
Proof.
  intros Hdt H [Hs Hg]. unfold update in H.
  pose proof (MatrixRainSystem_update_source dt (canvas_width w) (canvas_height w)
                (matrix w) (rng w)) as H1.
  destruct (MatrixRainSystem.update _ _ _ _ _) as [m g1].
  pose proof (CodeChunkSystem_update_source dt (canvas_width w) (canvas_height w)
                (codeChunks w) g1) as H2.
  destruct (CodeChunkSystem.update _ _ _ _ _) as [c g2]. cbn in H1, H2.
  assert (unit_range g2) as Hg2.
  { eapply same_source_unit_range; [exact H2|].
    eapply same_source_unit_range; [exact H1 | exact Hg]. }
  destruct (NodeNetworkSystem.update _ _ _ _ g2) as [[s1 g3]|] eqn:Hn; [|discriminate H].
  apply NodeNetworkSystem_update_inv in Hn as (Hs1 & H3 & _ & Ha1); try assumption.
  destruct (HackSystem.update _ _ _ g3) as [[[h s2] g4]|] eqn:Hh; [|discriminate H].
  apply HackSystem_update_inv in Hh as (Hs2 & H4 & _ & Ha2); [|exact Hs1].
  injection H as <-. cbn. split; [split|].
  - exact Hs2.
  - eapply same_source_unit_range; [exact H4|].
    eapply same_source_unit_range; [exact H3 | exact Hg2].
  - eapply store_advanced_trans; eassumption.
Qed.

Lemma step_inv w w' :
  step w w' -> world_inv w ->
  world_inv w' /\
  store_advanced (packetHeap (scene w)) (packetHeap (scene w')).
Proof.
  intros [dt w1 w2 Hdt H | fuel width height w1 w2 H] Hinv.
  - eapply update_inv; eassumption.
  - eapply on_resize_inv; eassumption.
Qed.

Lemma reachable_inv w : reachable w -> world_inv w.
Proof.
  intros (fuel & width & height & g & w0 & Hg & Hstart & Hsteps).
  induction Hsteps as [w0|w0 w1 w2 _ IH Hstep].
  - eapply start_inv; eassumption.
  - apply (step_inv w1 w2 Hstep). apply IH. exact Hstart.
Qed.

(** ** Runs of the main loop *)

Lemma steps_trans w1 w2 w3 : steps w1 w2 -> steps w2 w3 -> steps w1 w3.
Proof.
  intros H12 H23. induction H23 as [|w2 w3 w4 _ IH Hs]; [exact H12|].
  eapply steps_next; [apply IH; exact H12 | exact Hs].
Qed.

Lemma run_frames_steps dts :
  Forall (Qle 0) dts ->
  forall w w', run_frames dts w = Some w' -> steps w w'.
Proof.
  induction 1 as [|dt rest Hdt _ IH]; intros w w' H; cbn in H.
  - injection H as <-. constructor.
  - destruct (update dt w) as [w1|] eqn:Hu; [|discriminate H].
    eapply steps_trans; [|apply IH; exact H].
    eapply steps_next; [constructor|]. eapply step_frame; eassumption.
Qed.

Lemma reachable_run fuel width height g dts w0 w :
  unit_range g -> start fuel width height g = Some w0 ->
  Forall (Qle 0) dts -> run_frames dts w0 = Some w -> reachable w.
Proof.
  intros Hg Hs Hdts Hr. exists fuel, width, height, g, w0.
  split; [exact Hg|]. split; [exact Hs|]. eapply run_frames_steps; eassumption.
Qed.

Lemma demo_rng_unit_range : unit_range demo_rng.
Proof. intros k. cbn. split; lra. Qed.

Lemma demo_run_reachable dts w :
  Forall (Qle 0) dts -> demo_run dts = Some w -> reachable w.
Proof.
  unfold demo_run. intros Hdts H.
  destruct (start 10 64 48 demo_rng) as [w0|] eqn:Hs; [|discriminate H].
  eapply reachable_run; [apply demo_rng_unit_range | eassumption..].
Qed.

(** ** Node highlight *)

Lemma mark_lookup r0 s r n :
  nodeHeap s !! r = Some n ->
  exists n', nodeHeap (HackEvent.mark r0 s) !! r = Some n' /\
             (n' = n \/ n' = Node.set_hackedAlpha 1 n).
Proof.
  intros Hn. cbn. destruct (decide (r0 = r)) as [->|Hne].
  - exists (Node.set_hackedAlpha 1 n). rewrite list_lookup_alter_eq, Hn. cbn. auto.
  - exists n. rewrite list_lookup_alter_ne by exact Hne. auto.
Qed.

Lemma HackEvent_update_writes dt e s e' s' r n :
  HackEvent.update dt e s = Some (e', s') -> nodeHeap s !! r = Some n ->
  exists n', nodeHeap s' !! r = Some n' /\
             (n' = n \/ n' = Node.set_hackedAlpha 1 n).
Proof.
  intros H Hn. unfold HackEvent.update in H.
  destruct (HackEvent.state e).
  - assert (exists n', nodeHeap match HackEvent.hacker e with
                                | Some h => HackEvent.mark h s
                                | None => s
                                end !! r = Some n' /\
                       (n' = n \/ n' = Node.set_hackedAlpha 1 n)) as Hm.
    { destruct (HackEvent.hacker e) as [h|]; [now apply mark_lookup | eauto]. }
    destruct (Qgtb _ 0.5); injection H as <- <-; exact Hm.
  - injection H as <- <-. cbn. eauto.
  - destruct (match HackEvent.packet e with
              | Some pr => _
              | None => false
              end).
    + destruct (HackEvent.target e) as [tg|]; [|discriminate H].
      injection H as <- <-. now apply mark_lookup.
    + injection H as <- <-. eauto.
  - destruct (Qgtb _ 1.5); injection H as <- <-; eauto.
  - injection H as <- <-. eauto.
Qed.

(** C4.  [Node.update(dt)] with [dt >= 0] keeps a highlight value of [0,1]
    within [0,1]: a positive value loses [0.2 * dt] and is floored at 0, a
    value of 0 is left alone.  The only other write to the highlight of an
    existing node, in [HackEvent.update], sets it to exactly 1.  So in every
    world that the page can reach, by frames with [dt >= 0] and resizes in
    any order, every node object has its highlight within [0,1]. *)
Theorem node_highlight_within_unit_interval :
  (forall dt n,
     0 <= dt -> 0 <= Node.hackedAlpha n -> Node.hackedAlpha n <= 1 ->
     let n' := Node.update dt n in
     (0 <= Node.hackedAlpha n' /\ Node.hackedAlpha n' <= 1) /\
     (0 < Node.hackedAlpha n -> dt * 0.2 <= Node.hackedAlpha n ->
        Node.hackedAlpha n' = Node.hackedAlpha n - dt * 0.2) /\
     (0 < Node.hackedAlpha n -> Node.hackedAlpha n < dt * 0.2 ->
        Node.hackedAlpha n' = 0) /\
     (Node.hackedAlpha n <= 0 -> n' = n)) /\
  (forall dt e s e' s' r n,
     HackEvent.update dt e s = Some (e', s') -> nodeHeap s !! r = Some n ->
     exists n', nodeHeap s' !! r = Some n' /\
                (n' = n \/ n' = Node.mk (Node.id n) (Node.x n) (Node.y n)
                                  (Node.type n) 1)) /\
  (forall w,
     reachable w ->
     forall r n, nodeHeap (scene w) !! r = Some n ->
                 0 <= Node.hackedAlpha n /\ Node.hackedAlpha n <= 1).
Proof.
  split; [|split].
  - intros dt n Hdt Hlo Hhi n'.
    split; [apply Node_update_ok; [exact Hdt | split; assumption]|].
    subst n'. unfold Node.update.
    destruct (Qgtb (Node.hackedAlpha n) 0) eqn:Hpos;
      [apply Qgtb_gt in Hpos | apply Qgtb_le in Hpos].
    + split; [|split]; intros H1; try intros H2; try lra; cmp Hneg; cbn; try lra;
        reflexivity.
    + split; [|split]; intros H1; try intros H2; try lra; reflexivity.
  - intros dt e s e' s' r n H Hn. eapply HackEvent_update_writes; eassumption.
  - intros w Hw r n Hn. apply reachable_inv in Hw as [(Hnodes & _) _].
    apply (Forall_lookup_1 _ _ _ _ Hnodes Hn).
Qed.

Lemma node_highlight_within_unit_interval_witness :
  exists w,
    demo_run [0; 0.3; 0.3; 0.3; 2; 2; 0.5] = Some w /\
    forall r n, nodeHeap (scene w) !! r = Some n ->
                0 <= Node.hackedAlpha n /\ Node.hackedAlpha n <= 1.
Proof.
  destruct (demo_run [0; 0.3; 0.3; 0.3; 2; 2; 0.5]) as [w|] eqn:Hrun;
    [|vm_compute in Hrun; discriminate Hrun].
  exists w. split; [reflexivity|].
  apply (proj2 (proj2 node_highlight_within_unit_interval) w).
  apply (demo_run_reachable [0; 0.3; 0.3; 0.3; 2; 2; 0.5] w); [|exact Hrun].
  repeat constructor; cbn; lra.
Defined.

(** ** Packet progress *)

(** C2.  [Packet.update(dt)] with [dt >= 0] does not decrease [t] of a
    packet whose speed is not negative, and every packet of the program has
    such a speed: along any step of a reachable world every packet object
    keeps its link, speed and color and its [t] does not decrease.  Every
    packet that [NodeNetworkSystem.update] leaves in the active collection
    has [t < 1], so a packet is dropped by the very update in which its [t]
    reaches 1; and at paint time every packet of the collection has its
    [t] within [0,1]. *)
Theorem packet_progress_monotone_and_bounded :
  (forall dt p,
     0 <= dt -> 0 <= Packet.speed p ->
     Packet.t p <= Packet.t (Packet.update dt p)) /\
  (forall w w',
     reachable w -> step w w' ->
     forall r p, packetHeap (scene w) !! r = Some p ->
       exists p', packetHeap (scene w') !! r = Some p' /\
                  Packet.link p' = Packet.link p /\
                  Packet.speed p' = Packet.speed p /\
                  Packet.t p <= Packet.t p') /\
  (forall dt width height s g s' g',
     NodeNetworkSystem.update dt width height s g = Some (s', g') ->
     forall r, In r (packets (network s')) ->
       exists p, packetHeap s' !! r = Some p /\ Packet.t p < 1) /\
  (forall w,
     reachable w ->
     forall r, In r (packets (network (scene w))) ->
       exists p, packetHeap (scene w) !! r = Some p /\
                 0 <= Packet.t p /\ Packet.t p <= 1).
Proof.
  split; [|split; [|split]].
  - intros dt p Hdt Hs. cbn.
    assert (0 <= Packet.speed p * dt / 1000) by (qdiv; nra). lra.
  - intros w w' Hw Hstep r p Hp. apply reachable_inv in Hw.
    destruct (step_inv w w' Hstep Hw) as [_ Hadv].
    destruct (Hadv r p Hp) as (p' & Hp' & Hl & Hs & _ & Ht).
    exists p'. repeat split; assumption.
  - intros dt width height s g s' g' H r Hr.
    pose proof (NodeNetworkSystem_update_active _ _ _ _ _ _ _ H) as Hact.
    rewrite List.Forall_forall in Hact. apply Hact. exact Hr.
  - intros w Hw r Hr. apply reachable_inv in Hw as [(_ & _ & Hact) _].
    rewrite List.Forall_forall in Hact.
    destruct (Hact r Hr) as (p & Hp & Hlo & Hhi).
    exists p. repeat split; [exact Hp | exact Hlo | lra].
Qed.

Lemma packet_progress_monotone_and_bounded_witness :
  exists w,
    demo_run [0; 0.3; 0.3; 0.3; 2; 2; 0.5] = Some w /\
    packets (network (scene w)) <> [] /\
    forall r, In r (packets (network (scene w))) ->
      exists p, packetHeap (scene w) !! r = Some p /\
                0 <= Packet.t p /\ Packet.t p <= 1.
Proof.
  destruct (demo_run [0; 0.3; 0.3; 0.3; 2; 2; 0.5]) as [w|] eqn:Hrun;
    [|vm_compute in Hrun; discriminate Hrun].
  exists w. split; [reflexivity|]. split.
  - intros Hnil.
    assert (option_map (fun w => packets (network (scene w)))
              (demo_run [0; 0.3; 0.3; 0.3; 2; 2; 0.5]) = Some []) as Hc
      by (rewrite Hrun; cbn; now rewrite Hnil).
    vm_compute in Hc. discriminate Hc.
  - apply (proj2 (proj2 (proj2 packet_progress_monotone_and_bounded)) w).
    apply (demo_run_reachable [0; 0.3; 0.3; 0.3; 2; 2; 0.5] w); [|exact Hrun].
    repeat constructor; cbn; lra.
Defined.

(** ** Hack events *)

Lemma mark_lookup_eq (r : nat) s n :
  nodeHeap s !! r = Some n ->
  nodeHeap (HackEvent.mark r s) !! r = Some (Node.set_hackedAlpha 1 n).
Proof.
  intros Hn. cbn. rewrite list_lookup_alter_eq, Hn. reflexivity.
Qed.

(** C1.  One [HackEvent.update(dt)], state by state.  In prepare the
    hacker node's highlight is set to 1 and the event moves to launch, with
    its timer reset, exactly when the elapsed time [timer + dt] exceeds 0.5.
    The update that runs the launch branch creates one packet from the
    hacker node to the target chosen at construction (color '#ff0066',
    speed 260, t = 0), appends it to the network's active collection and
    moves to inFlight.  In inFlight the event moves to impact exactly when
    the packet it owns has [t >= 1], and then sets the target node's
    highlight to 1 and resets its timer.  In impact it moves to done exactly
    when the elapsed time exceeds 1.5.  A new event starts in prepare with
    its timer at 0. *)
Theorem hack_event_state_machine (dt : Q) (e : HackEvent.obj) (s : Scene) :
  let timer1 := HackEvent.timer e + dt in
  let becomes st tm pk :=
    HackEvent.mk st tm (HackEvent.hacker e) (HackEvent.targets e)
      (HackEvent.target e) pk in
  (forall g, let e0 := fst (HackEvent.new s g) in
             HackEvent.state e0 = HackEvent.prepare /\ HackEvent.timer e0 = 0 /\
             HackEvent.packet e0 = None) /\
  match HackEvent.state e with
  | HackEvent.prepare =>
      let s1 := match HackEvent.hacker e with
                | Some h => HackEvent.mark h s
                | None => s
                end in
      (forall h n, HackEvent.hacker e = Some h -> nodeHeap s !! h = Some n ->
         exists n', nodeHeap s1 !! h = Some n' /\ Node.hackedAlpha n' = 1) /\
      packetHeap s1 = packetHeap s /\ network s1 = network s /\
      (0.5 < timer1 ->
         HackEvent.update dt e s
         = Some (becomes HackEvent.launch 0 (HackEvent.packet e), s1)) /\
      (timer1 <= 0.5 ->
         HackEvent.update dt e s
         = Some (becomes HackEvent.prepare timer1 (HackEvent.packet e), s1))
  | HackEvent.launch =>
      let p := Packet.mk (Link.mk (HackEvent.hacker e) (HackEvent.target e))
                 0 260 "#ff0066" in
      let pr := length (packetHeap s) in
      exists s',
        HackEvent.update dt e s
        = Some (becomes HackEvent.inFlight timer1 (Some pr), s') /\
        packetHeap s' = packetHeap s ++ [p] /\
        packetHeap s' !! pr = Some p /\
        packets (network s')
        = packets (network s) ++ [pr] /\
        nodeHeap s' = nodeHeap s
  | HackEvent.inFlight =>
      forall pr p, HackEvent.packet e = Some pr -> packetHeap s !! pr = Some p ->
        (Packet.t p < 1 ->
           HackEvent.update dt e s
           = Some (becomes HackEvent.inFlight timer1 (HackEvent.packet e), s)) /\
        (1 <= Packet.t p ->
           forall tg n, HackEvent.target e = Some tg -> nodeHeap s !! tg = Some n ->
             HackEvent.update dt e s
             = Some (becomes HackEvent.impact 0 (HackEvent.packet e),
                     HackEvent.mark tg s) /\
             exists n', nodeHeap (HackEvent.mark tg s) !! tg = Some n' /\
                        Node.hackedAlpha n' = 1)
  | HackEvent.impact =>
      (1.5 < timer1 ->
         HackEvent.update dt e s
         = Some (becomes HackEvent.done timer1 (HackEvent.packet e), s)) /\
      (timer1 <= 1.5 ->
         HackEvent.update dt e s
         = Some (becomes HackEvent.impact timer1 (HackEvent.packet e), s))
  | HackEvent.done =>
      HackEvent.update dt e s
      = Some (becomes HackEvent.done timer1 (HackEvent.packet e), s)
  end.
Proof.
  intros timer1 becomes. split; [intros g; repeat split|].
  subst timer1 becomes. unfold HackEvent.update.
  destruct (HackEvent.state e).
  - cbv zeta. split; [|split; [|split; [|split]]].
    + intros h n -> Hn. exists (Node.set_hackedAlpha 1 n).
      split; [now apply mark_lookup_eq | reflexivity].
    + destruct (HackEvent.hacker e); reflexivity.
    + destruct (HackEvent.hacker e); reflexivity.
    + intros H. apply Qgtb_gt in H. rewrite H. reflexivity.
    + intros H. apply Qgtb_le in H. rewrite H. reflexivity.
  - cbv zeta. eexists. split; [reflexivity|]. cbn.
    repeat split. apply list_lookup_middle. reflexivity.
  - intros pr p -> Hp. rewrite Hp. unfold Packet.isDone. split.
    + intros H. apply Qgeb_lt in H. rewrite H. reflexivity.
    + intros H tg n -> Hn. apply Qgeb_ge in H. rewrite H. split; [reflexivity|].
      exists (Node.set_hackedAlpha 1 n).
      split; [now apply mark_lookup_eq | reflexivity].
  - split; intros H.
    + apply Qgtb_gt in H. rewrite H. reflexivity.
    + apply Qgtb_le in H. rewrite H. reflexivity.
  - reflexivity.
Qed.

Lemma hack_event_state_machine_witness :
  HackEvent.update 0.016 arrived_event arrived_scene
  = Some (HackEvent.mk HackEvent.impact 0 (Some 0%nat) [1; 2; 3; 5; 6; 7; 8]%nat
            (Some 5%nat) (Some 0%nat),
          HackEvent.mark 5%nat arrived_scene) /\
  exists n', nodeHeap (HackEvent.mark 5%nat arrived_scene) !! 5%nat = Some n' /\
             Node.hackedAlpha n' = 1.
Proof.
  refine (proj2 (proj2 (hack_event_state_machine 0.016 arrived_event arrived_scene)
                   0%nat _ eq_refl eq_refl) _ 5%nat _ eq_refl eq_refl).
  cbn. lra.
Defined.

(** The life of the first hack event of the demo page, frame by frame: it
    is created in the first frame, leaves prepare in the third, launches
    its packet in the fourth, waits for it, shows the impact and is
    dropped. *)
Example hack_event_life_cycle :
  map demo_event_states
    [ [0]; [0; 0.3]; [0; 0.3; 0.3]; [0; 0.3; 0.3; 0.3]; [0; 0.3; 0.3; 0.3; 2];
      [0; 0.3; 0.3; 0.3; 2; 2]; [0; 0.3; 0.3; 0.3; 2; 2; 1];
      [0; 0.3; 0.3; 0.3; 2; 2; 1; 1] ]
  = [ Some [HackEvent.prepare]; Some [HackEvent.prepare]; Some [HackEvent.launch];
      Some [HackEvent.inFlight]; Some [HackEvent.inFlight]; Some [HackEvent.impact];
      Some [HackEvent.impact]; Some [] ].
Proof. vm_compute. reflexivity. Qed.

(** ** Re-layout *)

Lemma layout_nodes_fresh width height :
  length (NodeNetworkSystem.layout_nodes width height) = 9%nat /\
  Forall (fun n => Node.hackedAlpha n = 0) (NodeNetworkSystem.layout_nodes width height).
Proof. split; [reflexivity | repeat constructor]. Qed.

Lemma Packet_position_app h extra p pos :
  Packet_position h p = Some pos -> Packet_position (h ++ extra) p = Some pos.
Proof.
  unfold Packet_position.
  destruct (Link.from (Packet.link p)) as [a|]; [|discriminate].
  destruct (Link.to (Packet.link p)) as [b|]; [|discriminate].
  destruct (h !! a) as [na|] eqn:Ha; [|discriminate].
  destruct (h !! b) as [nb|] eqn:Hb; [|discriminate].
  intros H. rewrite (lookup_app_l_Some _ _ _ _ Ha), (lookup_app_l_Some _ _ _ _ Hb).
  exact H.
Qed.

(** C9.  [setupLayout(width, height)] allocates nine new node objects,
    each with highlight 0, and makes the network's node array refer to
    them and to none of the old objects.  The old node objects stay in the
    store exactly as they were, the packet objects and the active
    collection are untouched, and the resize handler leaves the hack
    events alone: a packet or event created before the re-layout still
    refers to the old nodes, and a packet is painted where it was. *)
Theorem setupLayout_replaces_nodes_and_keeps_old_ones
    (width height : Q) (s : Scene) :
  let s' := NodeNetworkSystem.setupLayout width height s in
  nodeHeap s' = nodeHeap s ++ NodeNetworkSystem.layout_nodes width height /\
  length (nodes (network s')) = 9%nat /\
  (forall r, In r (nodes (network s')) ->
     nodeHeap s !! r = None /\
     exists n, nodeHeap s' !! r = Some n /\ Node.hackedAlpha n = 0) /\
  (forall r n, nodeHeap s !! r = Some n -> nodeHeap s' !! r = Some n) /\
  packetHeap s' = packetHeap s /\
  packets (network s') = packets (network s) /\
  (forall p pos,
     Packet_position (nodeHeap s) p = Some pos ->
     Packet_position (nodeHeap s') p = Some pos) /\
  (forall fuel w w',
     scene w = s -> on_resize fuel width height w = Some w' ->
     scene w' = s' /\ hacks w' = hacks w).
Proof.
  intros s'. destruct (layout_nodes_fresh width height) as [Hlen Hfresh].
  split; [reflexivity|]. split; [reflexivity|]. split; [|split; [|split; [|split; [|split]]]].
  - intros r Hr. subst s'. cbn [NodeNetworkSystem.setupLayout network nodeHeap
                                 nodes] in *.
    apply in_seq in Hr as [Hlo Hhi]. split.
    + apply lookup_ge_None_2. lia.
    + destruct (lookup_lt_is_Some_2 (NodeNetworkSystem.layout_nodes width height)
                  (r - length (nodeHeap s))) as [n Hn]; [lia|].
      exists n. split.
      * rewrite lookup_app_r by lia. exact Hn.
      * apply (Forall_lookup_1 _ _ _ _ Hfresh Hn).
  - intros r n Hn. now apply lookup_app_l_Some.
  - reflexivity.
  - reflexivity.
  - intros p pos. apply Packet_position_app.
  - intros fuel w w' Hs H. unfold on_resize in H.
    destruct (MatrixRainSystem.reset _ _ _ _ _) as [[m g1]|]; [|discriminate H].
    injection H as <-. cbn. subst s. split; reflexivity.
Qed.

(** A resize of the scene in which a hack packet has been launched. *)
Lemma setupLayout_replaces_nodes_and_keeps_old_ones_witness :
  let s' := NodeNetworkSystem.setupLayout 800 600 arrived_scene in
  nodes (network s') = [9; 10; 11; 12; 13; 14; 15; 16; 17]%nat /\
  packetHeap s' = packetHeap arrived_scene /\
  Packet_position (nodeHeap s')
    (Packet.mk (Link.mk (Some 0%nat) (Some 5%nat)) 1.04 260 "#ff0066")
  = Packet_position (nodeHeap arrived_scene)
      (Packet.mk (Link.mk (Some 0%nat) (Some 5%nat)) 1.04 260 "#ff0066").
Proof.
  destruct (setupLayout_replaces_nodes_and_keeps_old_ones 800 600 arrived_scene)
    as (_ & _ & _ & _ & Hp & _ & Hpos & _).
  cbv zeta. split; [reflexivity|]. split; [exact Hp|].
  destruct (Packet_position (nodeHeap arrived_scene)
              (Packet.mk (Link.mk (Some 0%nat) (Some 5%nat)) 1.04 260 "#ff0066"))
    as [pos|] eqn:Hold; [|vm_compute in Hold; discriminate Hold].
  apply Hpos. exact Hold.
Defined.

(** ** First update of each system *)

Lemma Math_floor_index (r : Q) (n : nat) :
  0 <= r -> r < 1 -> (0 < n)%nat ->
  (0 <= Math_floor (r * inject_Z (Z.of_nat n)) < Z.of_nat n)%Z.
Proof.
  intros Hlo Hhi Hn. unfold Math_floor.
  set (q := r * inject_Z (Z.of_nat n)).
  assert (0 < inject_Z (Z.of_nat n)) as Hpos.
  { change 0 with (inject_Z 0). rewrite <- Zlt_Qlt. lia. }
  pose proof (Qfloor_le q) as H1. pose proof (Qlt_floor q) as H2.
  assert (0 <= q) as Hq0 by (subst q; nra).
  assert (q < inject_Z (Z.of_nat n)) as Hq1 by (subst q; nra).
  split.
  - assert (inject_Z 0 < inject_Z (Qfloor q + 1)) as H
      by (change (inject_Z 0) with 0; lra).
    rewrite <- Zlt_Qlt in H. lia.
  - assert (inject_Z (Qfloor q) < inject_Z (Z.of_nat n)) as H by lra.
    rewrite <- Zlt_Qlt in H. exact H.
Qed.

(** Indexing a non-empty array with [Math.floor(Math.random() * length)]
    yields one of its elements. *)
Lemma array_get_random {A : Type} (a : list A) (r : Q) :
  0 <= r -> r < 1 -> a <> [] ->
  exists x,
    array_get a (Math_floor (r * inject_Z (Z.of_nat (length a)))) = Some x /\
    In x a.
Proof.
  intros Hlo Hhi Hne.
  assert (0 < length a)%nat as Hlen by (destruct a; [congruence | cbn; lia]).
  pose proof (Math_floor_index r (length a) Hlo Hhi Hlen) as [Hz0 Hz1].
  unfold array_get.
  destruct (Z.ltb_spec (Math_floor (r * inject_Z (Z.of_nat (length a)))) 0); [lia|].
  destruct (lookup_lt_is_Some_2 a
              (Z.to_nat (Math_floor (r * inject_Z (Z.of_nat (length a))))))
    as [x Hx]; [lia|].
  exists x. split; [exact Hx|].
  apply list_elem_of_In. eapply list_elem_of_lookup_2. exact Hx.
Qed.

Lemma first_chunk_update dt width height g :
  0 <= dt -> 0 <= width ->
  exists c, CodeChunkSystem.chunks
              (fst (CodeChunkSystem.update dt width height CodeChunkSystem.new g))
            = [c].
Proof.
  intros Hdt Hw. unfold CodeChunkSystem.update, CodeChunkSystem.spawn, bind, ret.
  assert (Qleb (CodeChunkSystem.timer CodeChunkSystem.new - dt) 0 = true) as ->
    by (apply Qleb_le; cbn; lra).
  cbn [Math_random CodeChunkSystem.randomSnippet CodeChunk.new bind ret
       CodeChunkSystem.chunks CodeChunkSystem.new app forEach source cursor].
  unfold bind, ret.
  match goal with
  | |- context [CodeChunk.update dt ?c0 ?g0] =>
      set (c := c0);
      pose proof (proj1 code_chunk_alpha_bounds dt c g0 Hdt) as Hstep;
      destruct (CodeChunk.update dt c g0) as [c1 g1] eqn:Hc1
  end.
  assert (CodeChunk.x c1
          = CodeChunk.x c + CodeChunk.direction c * CodeChunk.speed c * dt) as Hx.
  { unfold CodeChunk.update in Hc1. change (CodeChunk.state c) with CodeChunk.fadeIn in Hc1.
    cbv iota in Hc1. destruct (Qgeb _ 0.8); injection Hc1 as <- _; reflexivity. }
  change (CodeChunk.state c) with CodeChunk.fadeIn in Hstep.
  change (CodeChunk.alpha c) with 0 in Hstep. cbn [fst] in Hstep.
  destruct Hstep as [Hlow Hhigh].
  assert (CodeChunk.isDead width c1 = false) as Hlive.
  { apply not_true_iff_false. rewrite CodeChunk_isDead_iff. intros [Ha Hout].
    destruct (Qlt_le_dec (0 + dt * 0.5) 0.8) as [Hlt|Hge].
    - destruct (Hlow Hlt) as [Hal _]. rewrite Hal in Ha.
      assert (dt == 0) as Hdt0 by lra.
      assert (CodeChunk.x c1 == CodeChunk.x c) as Hxc
        by (rewrite Hx, Hdt0; ring).
      rewrite Hxc in Hout. subst c. cbn [CodeChunk.x] in Hout.
      destruct (Qeq_bool _ 1); lra.
    - destruct (Hhigh Hge) as [Hal _]. rewrite Hal in Ha. lra. }
  cbn. rewrite Hlive. cbn. exists c1. reflexivity.
Qed.

Lemma first_network_update dt width height g :
  0 <= dt -> unit_range g ->
  exists s' g' target v1 v2,
    NodeNetworkSystem.update dt width height (NodeNetworkSystem.new width height [] []) g
    = Some (s', g') /\
    g' = mkRng (source g) (S (S (S (S (cursor g))))) /\
    In target [1; 2; 3; 5; 6; 7; 8]%nat /\
    (120 <= v1 /\ v1 < 240) /\ (120 <= v2 /\ v2 < 240) /\
    packetHeap s'
    = [ Packet.update dt
          (Packet.new (Link.mk (Some 4%nat) (Some target)) "#00ff88" v1);
        Packet.update dt
          (Packet.new (Link.mk (Some target) (Some 4%nat)) "#00ff88" v2) ] /\
    packets (network s')
    = List.filter
        (fun r => match packetHeap s' !! r with
                  | Some p => negb (Packet.isDone p)
                  | None => false
                  end) [0; 1]%nat /\
    (exists nr, nodeHeap s' !! 4%nat = Some nr /\ Node.id nr = "router"%string) /\
    (exists nt, nodeHeap s' !! target = Some nt /\
                Node.id nt <> "router"%string /\ Node.id nt <> "hacker"%string).
Proof.
  intros Hdt Hg.
  unfold NodeNetworkSystem.update, ebind, lift, ret.
  unfold NodeNetworkSystem.traffic, ebind, lift, ret, throw.
  destruct (Qleb _ 0) eqn:Htimer.
  2:{ apply Qleb_gt in Htimer. cbn in Htimer. lra. }
  cbn [Math_random].
  match goal with
  | |- context [find_id ?a ?b "router"] =>
      change (find_id a b "router") with (Some 4%nat)
  end.
  match goal with
  | |- context [NodeNetworkSystem.others ?a] =>
      change (NodeNetworkSystem.others a) with [1; 2; 3; 5; 6; 7; 8]%nat
  end.
  cbv iota beta. cbn [source cursor].
  match goal with
  | |- context [@array_get ?T ?a (Math_floor (?r * _))] =>
      destruct (@array_get_random T a r (proj1 (Hg _)) (proj2 (Hg _))
                  ltac:(discriminate))
        as (target & Hget & Hin); rewrite Hget
  end.
  pose proof (Hg (S (S (cursor g)))) as [Ha1 Ha2].
  pose proof (Hg (S (S (S (cursor g))))) as [Hb1 Hb2].
  cbn in Hin.
  destruct Hin as [<-|[<-|[<-|[<-|[<-|[<-|[<-|[]]]]]]]];
    (match type of Hget with
     | _ = Some ?t =>
         eexists _, _, t, (120 + source g (S (S (cursor g))) * 120),
           (120 + source g (S (S (S (cursor g)))) * 120)
     end;
     split; [reflexivity|]; split; [reflexivity|]; split; [cbn; tauto|];
     split; [split; nra|]; split; [split; nra|];
     split; [reflexivity|]; split; [reflexivity|];
     split; eexists; (split; [reflexivity|]); [reflexivity | split; discriminate]).
Qed.

Lemma first_hack_update dt s g :
  0 <= dt ->
  exists e s' g',
    HackSystem.update dt HackSystem.new s g
    = Some (HackSystem.mk [e] (5 + source g (cursor g) * 10), s', g') /\
    HackEvent.update dt (fst (HackEvent.new s (snd (Math_random g)))) s
    = Some (e, s') /\
    (HackEvent.state e = HackEvent.prepare \/ HackEvent.state e = HackEvent.launch).
Proof.
  intros Hdt.
  unfold HackSystem.update, HackSystem.spawn, ebind, lift, throw, bind, ret.
  assert (Qleb (HackSystem.cooldown HackSystem.new - dt) 0 = true) as ->
    by (apply Qleb_le; cbn; lra).
  cbn [Math_random HackEvent.new bind ret fst snd source cursor
       HackSystem.events HackSystem.new app HackSystem.forEach_event].
  unfold bind, ret. cbn [HackSystem.events HackSystem.forEach_event fst snd].
  unfold HackEvent.update.
  cbn [HackEvent.state HackEvent.timer HackEvent.hacker HackEvent.targets
       HackEvent.target HackEvent.packet].
  destruct (Qgtb (0 + dt) 0.5); cbn;
    eexists _, _, _; (split; [reflexivity|split; [reflexivity|auto]]).
Qed.

Lemma fresh_packet_in_flight dt l c v :
  0 <= dt -> dt <= 4 -> 0 <= v -> v < 240 ->
  Packet.isDone (Packet.update dt (Packet.new l c v)) = false.
Proof.
  intros H1 H2 H3 H4. unfold Packet.isDone. apply Qgeb_lt. cbn.
  assert (v * dt / 1000 < 1) by (qdiv; nra). lra.
Qed.

(** C10.  The three countdowns start at 0, so the first [update(dt)] of
    each system, for any [dt >= 0], spawns at once.  The code chunk system
    ends its first update with exactly one chunk.  The node network, as
    built by its constructor, creates exactly two packets, one from the
    router to a node that is neither the router nor the hacker and one
    back, with speeds in [120, 240); both are in the active collection
    after the update unless the time step was long enough for them to
    arrive within it, and certainly when [dt <= 4].  The hack system ends
    its first update with exactly one event, in prepare or launch. *)
Theorem first_update_spawns_immediately (dt width height : Q) (g : Rng) :
  0 <= dt -> 0 <= width -> unit_range g ->
  (CodeChunkSystem.timer CodeChunkSystem.new = 0 /\
   normalTrafficTimer
     (network (NodeNetworkSystem.new width height [] [])) = 0 /\
   HackSystem.cooldown HackSystem.new = 0) /\
  (exists c,
     CodeChunkSystem.chunks
       (fst (CodeChunkSystem.update dt width height CodeChunkSystem.new g)) = [c]) /\
  (exists s' g' target v1 v2,
     NodeNetworkSystem.update dt width height (NodeNetworkSystem.new width height [] []) g
     = Some (s', g') /\
     (120 <= v1 /\ v1 < 240) /\ (120 <= v2 /\ v2 < 240) /\
     packetHeap s'
     = [ Packet.update dt
           (Packet.new (Link.mk (Some 4%nat) (Some target)) "#00ff88" v1);
         Packet.update dt
           (Packet.new (Link.mk (Some target) (Some 4%nat)) "#00ff88" v2) ] /\
     packets (network s')
     = List.filter
         (fun r => match packetHeap s' !! r with
                   | Some p => negb (Packet.isDone p)
                   | None => false
                   end) [0; 1]%nat /\
     (dt <= 4 -> packets (network s') = [0; 1]%nat) /\
     (exists nr, nodeHeap s' !! 4%nat = Some nr /\ Node.id nr = "router"%string) /\
     (exists nt, nodeHeap s' !! target = Some nt /\
                 Node.id nt <> "router"%string /\ Node.id nt <> "hacker"%string)) /\
  (forall s,
     exists e s' g',
       HackSystem.update dt HackSystem.new s g
       = Some (HackSystem.mk [e] (5 + source g (cursor g) * 10), s', g') /\
       (HackEvent.state e = HackEvent.prepare \/
        HackEvent.state e = HackEvent.launch)).
Proof.
  intros Hdt Hw Hg. split; [repeat split|]. split; [|split].
  - apply first_chunk_update; assumption.
  - destruct (first_network_update dt width height g Hdt Hg)
      as (s' & g' & target & v1 & v2 & Hrun & _ & _ & Hv1 & Hv2 & Hheap & Hact
          & Hrouter & Htarget).
    exists s', g', target, v1, v2.
    split; [exact Hrun|]. split; [exact Hv1|]. split; [exact Hv2|].
    split; [exact Hheap|]. split; [exact Hact|]. split; [|split; assumption].
    intros Hdt4. rewrite Hact, Hheap. cbn.
    rewrite !fresh_packet_in_flight by lra. reflexivity.
  - intros s. destruct (first_hack_update dt s g Hdt) as (e & s' & g' & Hrun & _ & Hst).
    exists e, s', g'. split; assumption.
Qed.

Lemma first_update_spawns_immediately_witness :
  (exists c,
     CodeChunkSystem.chunks
       (fst (CodeChunkSystem.update 0 1024 768 CodeChunkSystem.new demo_rng)) = [c]) /\
  (exists s' g',
     NodeNetworkSystem.update 0 1024 768 scene0 demo_rng = Some (s', g') /\
     packets (network s') = [0; 1]%nat) /\
  (exists e s' g',
     HackSystem.update 0 HackSystem.new scene0 demo_rng
     = Some (HackSystem.mk [e] (5 + 0.5 * 10), s', g')).
Proof.
  destruct (first_update_spawns_immediately 0 1024 768 demo_rng)
    as (_ & Hchunk & Hnet & Hhack).
  - cbn. lra.
  - cbn. lra.
  - apply demo_rng_unit_range.
  - split; [exact Hchunk|]. split.
    + destruct Hnet as (s' & g' & _ & _ & _ & Hrun & _ & _ & _ & _ & Hact & _).
      exists s', g'. split; [exact Hrun|]. apply Hact. cbn. lra.
    + destruct (Hhack scene0) as (e & s' & g' & Hrun & _).
      exists e, s', g'. exact Hrun.
Defined.

Lemma code_chunk_removed_iff_faded_and_outside_witness :
  map CodeChunk.y
    (CodeChunkSystem.chunks
       (fst (CodeChunkSystem.update 0 1024 768 three_chunks demo_rng)))
  = [100; 200].
Proof.
  destruct (code_chunk_removed_iff_faded_and_outside 0 1024 768 three_chunks demo_rng)
    as (_ & Hkept & _).
  rewrite Hkept. reflexivity.
Defined.

(** ** The main loop never throws *)

Lemma has_id_ids h i (r : nat) :
  has_id h i r = id_is i (option_map Node.id (h !! r)).
Proof. unfold has_id. destruct (h !! r); reflexivity. Qed.

Lemma same_ids_refl h : same_ids h h.
Proof. intros r. reflexivity. Qed.

Lemma same_ids_trans h1 h2 h3 : same_ids h1 h2 -> same_ids h2 h3 -> same_ids h1 h3.
Proof. intros H12 H23 r. rewrite H23. apply H12. Qed.

Lemma same_ids_alter (m : Node.obj -> Node.obj) (i : nat) h :
  (forall n, Node.id (m n) = Node.id n) -> same_ids h (alter m i h).
Proof.
  intros Hm r. destruct (decide (i = r)) as [->|Hne].
  - rewrite list_lookup_alter_eq. destruct (h !! r); cbn; [now rewrite Hm | reflexivity].
  - now rewrite list_lookup_alter_ne.
Qed.

Lemma same_ids_forEach_ref (m : Node.obj -> Node.obj) (refs : list ref) :
  (forall n, Node.id (m n) = Node.id n) ->
  forall h, same_ids h (forEach_ref m refs h).
Proof.
  intros Hm. unfold forEach_ref.
  induction refs as [|r rest IH]; intros h; [apply same_ids_refl|].
  cbn. eapply same_ids_trans; [|apply IH]. now apply same_ids_alter.
Qed.

Lemma Node_update_id dt n : Node.id (Node.update dt n) = Node.id n.
Proof. unfold Node.update. destruct (Qgtb _ 0); reflexivity. Qed.

Lemma layout_ok_frame s s' :
  same_ids (nodeHeap s) (nodeHeap s') ->
  nodes (network s') = nodes (network s) ->
  layout_ok s -> layout_ok s'.
Proof.
  unfold layout_ok, node_ids. intros Hids -> <-.
  apply map_ext. intros r. apply Hids.
Qed.

Lemma layout_ok_setupLayout width height s :
  layout_ok (NodeNetworkSystem.setupLayout width height s).
Proof.
  unfold layout_ok, node_ids.
  cbn [NodeNetworkSystem.setupLayout network nodeHeap nodes].
  assert (forall (fresh : list Node.obj) (h : list Node.obj),
            map (fun r => option_map Node.id ((h ++ fresh) !! r))
                (seq (length h) (length fresh))
            = map (fun n => Some (Node.id n)) fresh) as Hgen.
  { induction fresh as [|n fresh IH]; intros h; [reflexivity|].
    cbn [length seq map]. f_equal.
    - rewrite list_lookup_middle by reflexivity. reflexivity.
    - specialize (IH (h ++ [n])). rewrite <- app_assoc in IH. cbn in IH.
      rewrite length_app in IH. cbn in IH.
      replace (length h + 1)%nat with (S (length h)) in IH by lia. exact IH. }
  rewrite Hgen. reflexivity.
Qed.

Lemma layout_ok_valid s r :
  layout_ok s -> In r (nodes (network s)) ->
  exists n, nodeHeap s !! r = Some n.
Proof.
  intros Hok Hr.
  assert (In (option_map Node.id (nodeHeap s !! r)) (node_ids s)) as Hin
    by (unfold node_ids; apply in_map_iff; eauto).
  rewrite Hok in Hin. apply in_map_iff in Hin as (j & Hj & _).
  destruct (nodeHeap s !! r) as [n|]; [eauto | discriminate Hj].
Qed.

Lemma existsb_find {A : Type} (f : A -> bool) (l : list A) :
  existsb f l = true -> exists a, List.find f l = Some a.
Proof.
  induction l as [|a l IH]; [discriminate|]. cbn.
  destruct (f a); [eauto | exact IH].
Qed.

Lemma existsb_filter {A : Type} (f : A -> bool) (l : list A) :
  existsb f l = true -> List.filter f l <> [].
Proof.
  induction l as [|a l IH]; [discriminate|]. cbn.
  destruct (f a); [discriminate | exact IH].
Qed.

Lemma existsb_node_ids (f : ref -> bool) (f' : option string -> bool) s :
  (forall r, f r = f' (option_map Node.id (nodeHeap s !! r))) ->
  existsb f (nodes (network s)) = existsb f' (node_ids s).
Proof.
  intros Hf. unfold node_ids.
  induction (nodes (network s)) as [|r l IH]; [reflexivity|].
  cbn. now rewrite Hf, IH.
Qed.

Lemma layout_ok_router s :
  layout_ok s ->
  exists router n,
    find_id (nodeHeap s) (nodes (network s)) "router" = Some router /\
    nodeHeap s !! router = Some n.
Proof.
  intros Hok.
  destruct (existsb_find (has_id (nodeHeap s) "router")
              (nodes (network s))) as [router Hr].
  { rewrite (existsb_node_ids _ (id_is "router")) by (intros r; apply has_id_ids).
    rewrite Hok. reflexivity. }
  destruct (find_id_Some _ _ _ _ Hr) as (_ & n & Hn & _).
  exists router, n. split; assumption.
Qed.

Lemma layout_ok_others s :
  layout_ok s -> NodeNetworkSystem.others s <> [].
Proof.
  intros Hok. apply existsb_filter.
  rewrite (existsb_node_ids _
             (fun o => negb (id_is "router" o) && negb (id_is "hacker" o)))
    by (intros r; now rewrite !has_id_ids).
  rewrite Hok. reflexivity.
Qed.

Lemma layout_ok_targets s g :
  unit_range g -> layout_ok s -> HackEvent.target (fst (HackEvent.new s g)) <> None.
Proof.
  intros Hg Hok. unfold HackEvent.new, bind, ret, Math_random.
  cbn [fst HackEvent.target].
  match goal with
  | |- array_get ?ts _ <> None =>
      destruct (array_get_random ts (source g (cursor g))
                  (proj1 (Hg _)) (proj2 (Hg _))) as (x & Hx & _)
  end.
  - apply existsb_filter.
    rewrite (existsb_node_ids _
               (fun o => negb (id_is "hacker" o) && negb (id_is "router" o)))
      by (intros r; now rewrite !has_id_ids).
    rewrite Hok. reflexivity.
  - rewrite Hx. discriminate.
Qed.

Lemma traffic_source dt s g s' g' :
  NodeNetworkSystem.traffic dt s g = Some (s', g') -> same_source g g'.
Proof.
  intros H. unfold NodeNetworkSystem.traffic, ebind, lift, throw, ret in H.
  destruct (Qleb _ 0); [|injection H as _ <-; reflexivity].
  cbn [Math_random] in H.
  match type of H with
  | context [find_id ?a ?b ?c] => destruct (find_id a b c) as [router|]
  end; [|injection H as _ <-; reflexivity].
  match type of H with
  | context [NodeNetworkSystem.others ?a] => destruct (NodeNetworkSystem.others a) as [|o os]
  end; [injection H as _ <-; reflexivity|].
  destruct (array_get _ _) as [target|]; [|discriminate H].
  match type of H with
  | context [nodeHeap ?a !! router] => destruct (nodeHeap a !! router) as [nr|]
  end; [|discriminate H].
  match type of H with
  | context [nodeHeap ?a !! target] => destruct (nodeHeap a !! target) as [nt|]
  end; [|discriminate H].
  injection H as _ <-. reflexivity.
Qed.

Lemma NodeNetworkSystem_update_source dt width height s g s' g' :
  NodeNetworkSystem.update dt width height s g = Some (s', g') -> same_source g g'.
Proof.
  intros H. unfold NodeNetworkSystem.update, ebind, lift, ret in H.
  destruct (NodeNetworkSystem.traffic dt _ g) as [[s2 g2]|] eqn:Htr; [|discriminate H].
  injection H as _ <-. eapply traffic_source. exact Htr.
Qed.

Lemma traffic_total dt s g :
  unit_range g -> layout_ok s ->
  exists s' g',
    NodeNetworkSystem.traffic dt s g = Some (s', g') /\
    nodeHeap s' = nodeHeap s /\
    nodes (network s') = nodes (network s).
Proof.
  intros Hg Hok. unfold NodeNetworkSystem.traffic, ebind, lift, throw, ret.
  destruct (Qleb _ 0); [|eauto]. cbn [Math_random].
  match goal with
  | |- context [find_id (nodeHeap ?s1) _ "router"] =>
      destruct (layout_ok_router s1 Hok) as (router & nr & Hfind & Hnr);
      pose proof (layout_ok_others s1 Hok) as Hothers;
      pose proof (fun r => layout_ok_valid s1 r Hok) as Hvalid;
      rewrite Hfind;
      destruct (NodeNetworkSystem.others s1) as [|o os] eqn:Ho; [congruence|];
      rewrite <- Ho in *
  end.
  match goal with
  | |- context [array_get ?a (Math_floor (?r * _))] =>
      destruct (array_get_random a r (proj1 (Hg _)) (proj2 (Hg _)) Hothers)
        as (target & Hget & Hin)
  end.
  cbn [source cursor] in *. rewrite Hget.
  apply filter_In in Hin as [Hin _]. destruct (Hvalid target Hin) as [nt Hnt].
  rewrite Hnr, Hnt. eexists _, _. split; [reflexivity|].
  rewrite !(fun a b c d e => proj1 (sendPacket_frame a b c d e)), !sendPacket_nodes.
  split; reflexivity.
Qed.

Lemma NodeNetworkSystem_update_total dt width height s g :
  unit_range g -> layout_ok s ->
  exists s' g',
    NodeNetworkSystem.update dt width height s g = Some (s', g') /\ layout_ok s'.
Proof.
  intros Hg Hok. unfold NodeNetworkSystem.update, ebind, lift, ret.
  match goal with
  | |- context [NodeNetworkSystem.traffic dt ?s1 g] =>
      assert (layout_ok s1) as Hok1;
      [|destruct (traffic_total dt s1 g Hg Hok1) as (s2 & g2 & Htr & Hh & Hn);
        rewrite Htr]
  end.
  - eapply layout_ok_frame; [| |exact Hok]; cbn; [|reflexivity].
    apply same_ids_forEach_ref. intros n. apply Node_update_id.
  - eexists _, _. split; [reflexivity|].
    eapply layout_ok_frame; [| |exact Hok1]; cbn; [|exact Hn].
    rewrite Hh. apply same_ids_refl.
Qed.

Lemma same_ids_mark r s : same_ids (nodeHeap s) (nodeHeap (HackEvent.mark r s)).
Proof. cbn. apply same_ids_alter. reflexivity. Qed.

Lemma HackEvent_update_total dt e s :
  HackEvent.target e <> None ->
  exists e' s',
    HackEvent.update dt e s = Some (e', s') /\
    HackEvent.target e' = HackEvent.target e /\
    same_ids (nodeHeap s) (nodeHeap s') /\
    nodes (network s') = nodes (network s).
Proof.
  intros Htg. unfold HackEvent.update. destruct (HackEvent.state e).
  - destruct (Qgtb _ 0.5); eexists _, _; (split; [reflexivity|]);
      (split; [reflexivity|]); destruct (HackEvent.hacker e);
      split; solve [apply same_ids_mark | apply same_ids_refl | reflexivity].
  - eexists _, _. split; [reflexivity|]. split; [reflexivity|].
    split; [apply same_ids_refl | reflexivity].
  - destruct (match HackEvent.packet e with
              | Some pr => _
              | None => false
              end).
    + destruct (HackEvent.target e) as [tg|]; [|congruence].
      eexists _, _. split; [reflexivity|]. split; [reflexivity|].
      split; [apply same_ids_mark | reflexivity].
    + eexists _, _. split; [reflexivity|]. split; [reflexivity|].
      split; [apply same_ids_refl | reflexivity].
  - destruct (Qgtb _ 1.5); eexists _, _; (split; [reflexivity|]);
      (split; [reflexivity|]); (split; [apply same_ids_refl | reflexivity]).
  - eexists _, _. split; [reflexivity|]. split; [reflexivity|].
    split; [apply same_ids_refl | reflexivity].
Qed.

Lemma forEach_event_total dt evs :
  events_ok evs ->
  forall s, exists evs' s',
    HackSystem.forEach_event dt evs s = Some (evs', s') /\ events_ok evs' /\
    same_ids (nodeHeap s) (nodeHeap s') /\
    nodes (network s') = nodes (network s).
Proof.
  induction 1 as [|e rest He _ IH]; intros s.
  - exists [], s. split; [reflexivity|]. split; [constructor|].
    split; [apply same_ids_refl | reflexivity].
  - cbn. destruct (HackEvent_update_total dt e s He) as (e1 & s1 & Hu & Ht & Hi & Hn).
    rewrite Hu. destruct (IH s1) as (rest1 & s2 & Hr & Hok & Hi2 & Hn2).
    rewrite Hr. exists (e1 :: rest1), s2. split; [reflexivity|]. split.
    + constructor; [congruence | exact Hok].
    + split; [eapply same_ids_trans; eassumption | congruence].
Qed.

Lemma HackSystem_update_total dt this s g :
  unit_range g -> layout_ok s -> events_ok (HackSystem.events this) ->
  exists this' s' g',
    HackSystem.update dt this s g = Some (this', s', g') /\
    layout_ok s' /\ events_ok (HackSystem.events this').
Proof.
  intros Hg Hok Hev. unfold HackSystem.update, ebind, lift, throw, ret.
  assert (events_ok (HackSystem.events (fst (HackSystem.spawn dt this s g)))) as Hev1.
  { unfold HackSystem.spawn, bind, ret. destruct (Qleb _ 0); [|exact Hev].
    cbn [Math_random].
    match goal with
    | |- context [HackEvent.new s ?g1] =>
        pose proof (layout_ok_targets s g1) as Hnew;
        destruct (HackEvent.new s g1) as [e g2]
    end.
    cbn. apply Forall_app. split; [exact Hev|]. constructor; [|constructor].
    apply Hnew; [|exact Hok]. intros k. apply Hg. }
  destruct (HackSystem.spawn dt this s g) as [this1 g1]. cbn [fst] in Hev1.
  destruct (forEach_event_total dt _ Hev1 s) as (evs & s1 & Hrun & Hok1 & Hids & Hn).
  rewrite Hrun. eexists _, _, _. split; [reflexivity|]. split.
  - eapply layout_ok_frame; eassumption.
  - cbn. unfold events_ok in *. rewrite List.Forall_forall in *.
    intros e He. apply filter_In in He as [He _]. now apply Hok1.
Qed.

Lemma update_total dt w :
  page_ok w -> exists w', update dt w = Some w' /\ page_ok w'.
Proof.
  intros (Hg & Hok & Hev & Hsp). unfold update.
  pose proof (MatrixRainSystem_update_source dt (canvas_width w) (canvas_height w)
                (matrix w) (rng w)) as H1.
  assert (MatrixRainSystem.spacing
            (fst (MatrixRainSystem.update dt (canvas_width w) (canvas_height w)
                    (matrix w) (rng w))) = 16) as Hsp1.
  { unfold MatrixRainSystem.update, bind, ret.
    destruct (forEach _ _ (rng w)). exact Hsp. }
  destruct (MatrixRainSystem.update _ _ _ _ _) as [m g1].
  pose proof (CodeChunkSystem_update_source dt (canvas_width w) (canvas_height w)
                (codeChunks w) g1) as H2.
  destruct (CodeChunkSystem.update _ _ _ _ _) as [c g2]. cbn in H1, H2, Hsp1.
  assert (unit_range g2) as Hg2.
  { eapply same_source_unit_range; [exact H2|].
    eapply same_source_unit_range; [exact H1 | exact Hg]. }
  destruct (NodeNetworkSystem_update_total dt (canvas_width w) (canvas_height w)
              (scene w) g2 Hg2 Hok) as (s1 & g3 & Hn & Hok1).
  rewrite Hn.
  assert (unit_range g3) as Hg3.
  { eapply same_source_unit_range; [|exact Hg2].
    eapply NodeNetworkSystem_update_source. exact Hn. }
  destruct (HackSystem_update_total dt (hacks w) s1 g3 Hg3 Hok1 Hev)
    as (h & s2 & g4 & Hh & Hok2 & Hev2).
  rewrite Hh. eexists. split; [reflexivity|].
  pose proof (HackSystem_spawn_source dt (hacks w) s1 g3) as H4.
  unfold HackSystem.update, ebind, lift, throw, ret in Hh.
  destruct (HackSystem.spawn dt (hacks w) s1 g3) as [this1 g3'].
  destruct (HackSystem.forEach_event dt _ s1) as [[evs s3]|]; [|discriminate Hh].
  injection Hh as _ _ <-. cbn in H4.
  repeat split; cbn; try assumption.
  - apply (same_source_unit_range _ _ H4 Hg3 k).
  - apply (same_source_unit_range _ _ H4 Hg3 k).
Qed.

Lemma on_resize_total width height w :
  page_ok w ->
  exists fuel0 : nat, forall fuel : nat, (fuel0 <= fuel)%nat ->
    exists w', on_resize fuel width height w = Some w' /\ page_ok w'.
Proof.
  intros (Hg & Hok & Hev & Hsp).
  exists (Z.to_nat (Qceiling ((width - 0) / 16))). intros fuel Hfuel.
  destruct (reset_loop_count width height fuel 0 [] (rng w) Hfuel)
    as (cols & g' & Hrun & _).
  pose proof (reset_loop_source _ _ _ _ _ _ _ _ _ Hrun) as Hsrc.
  unfold on_resize, MatrixRainSystem.reset. rewrite Hsp, Hrun.
  eexists. split; [reflexivity|]. repeat split; cbn; try assumption.
  - apply (same_source_unit_range _ _ Hsrc Hg k).
  - apply (same_source_unit_range _ _ Hsrc Hg k).
  - apply layout_ok_setupLayout.
Qed.

Lemma start_total width height g :
  unit_range g ->
  exists fuel0 : nat, forall fuel : nat, (fuel0 <= fuel)%nat ->
    exists w, start fuel width height g = Some w /\ page_ok w.
Proof.
  intros Hg.
  exists (Z.to_nat (Qceiling ((width - 0) / 16))). intros fuel Hfuel.
  destruct (reset_loop_count width height fuel 0 [] g Hfuel)
    as (cols & g' & Hrun & _).
  pose proof (reset_loop_source _ _ _ _ _ _ _ _ _ Hrun) as Hsrc.
  unfold start, MatrixRainSystem.new, MatrixRainSystem.reset. cbn. rewrite Hrun.
  eexists. split; [reflexivity|]. repeat split; cbn.
  - apply (same_source_unit_range _ _ Hsrc Hg k).
  - apply (same_source_unit_range _ _ Hsrc Hg k).
  - constructor.
Qed.

Lemma reachable_page_ok w : reachable w -> page_ok w.
Proof.
  intros (fuel & width & height & g & w0 & Hg & Hstart & Hsteps).
  induction Hsteps as [w0|w0 w1 w2 _ IH Hstep].
  - destruct (start_total width height g Hg) as [fuel0 Hfuel0].
    destruct (Hfuel0 (Nat.max fuel fuel0)) as (w0' & Hs' & Hok'); [lia|].
    unfold start, MatrixRainSystem.new, MatrixRainSystem.reset in *.
    cbn [MatrixRainSystem.spacing] in *.
    destruct (MatrixRainSystem.reset_loop fuel _ _ _ _ _ _) as [[cols g1]|] eqn:H1;
      [|discriminate Hstart].
    pose proof (reset_loop_source _ _ _ _ _ _ _ _ _ H1) as Hsrc.
    injection Hstart as <-. repeat split; cbn.
    + apply (same_source_unit_range _ _ Hsrc Hg k).
    + apply (same_source_unit_range _ _ Hsrc Hg k).
    + constructor.
  - specialize (IH Hstart).
    destruct Hstep as [dt w1 w2 Hdt Hu | fuel' width' height' w1 w2 Hr].
    + destruct (update_total dt w1 IH) as (w2' & Hu' & Hok'). congruence.
    + destruct IH as (Hg1 & Hok1 & Hev1 & Hsp1).
      unfold on_resize, MatrixRainSystem.reset in Hr. rewrite Hsp1 in Hr.
      destruct (MatrixRainSystem.reset_loop fuel' _ _ _ _ _ _) as [[cols g1]|] eqn:H1;
        [|discriminate Hr].
      pose proof (reset_loop_source _ _ _ _ _ _ _ _ _ H1) as Hsrc.
      injection Hr as <-. repeat split; cbn; try assumption.
      * apply (same_source_unit_range _ _ Hsrc Hg1 k).
      * apply (same_source_unit_range _ _ Hsrc Hg1 k).
      * apply layout_ok_setupLayout.
Qed.

(** X1.  From every world that the page can reach, a frame with any time
    step completes without a [TypeError], and a resize completes once its loop
    is given enough fuel. *)
Theorem reachable_never_throws w :
  reachable w ->
  (forall dt, exists w', update dt w = Some w') /\
  (forall width height,
     exists fuel0 : nat, forall fuel : nat, (fuel0 <= fuel)%nat ->
       exists w', on_resize fuel width height w = Some w').
Proof.
  intros Hw. apply reachable_page_ok in Hw. split.
  - intros dt. destruct (update_total dt w Hw) as (w' & Hu & _). eauto.
  - intros width height.
    destruct (on_resize_total width height w Hw) as [fuel0 H].
    exists fuel0. intros fuel Hfuel. destruct (H fuel Hfuel) as (w' & Hr & _). eauto.
Qed.

(** * Further properties of the code *)

(** ** Packets and nodes over a run of updates *)

Lemma elapsed_cons (dt : Q) (rest : list Q) : elapsed (dt :: rest) = dt + elapsed rest.
Proof. reflexivity. Qed.








(** ** Code chunks over a run of updates *)

Lemma CodeChunk_update_frame dt c g :
  let c' := fst (CodeChunk.update dt c g) in
  CodeChunk.direction c' = CodeChunk.direction c /\
  CodeChunk.speed c' = CodeChunk.speed c /\
  CodeChunk.y c' = CodeChunk.y c /\
  CodeChunk.textLines c' = CodeChunk.textLines c /\
  CodeChunk.x c' = CodeChunk.x c + CodeChunk.direction c * CodeChunk.speed c * dt.
Proof.
  unfold CodeChunk.update. destruct (CodeChunk.state c).
  - destruct (Qgeb _ 0.8); repeat split.
  - destruct (CodeChunk.holdTime c); repeat split.
  - repeat split.
Qed.

(** X4.  Whatever its state, a code chunk drifts at constant velocity:
    over any run of updates its direction, speed, y and text are unchanged
    and x has moved by [direction * speed * elapsed]. *)
Theorem code_chunk_drifts_at_constant_velocity (dts : list Q) :
  forall (c : CodeChunk.obj) (g : Rng),
    let c' := fst (CodeChunk.updates dts c g) in
    CodeChunk.direction c' = CodeChunk.direction c /\
    CodeChunk.speed c' = CodeChunk.speed c /\
    CodeChunk.y c' = CodeChunk.y c /\
    CodeChunk.textLines c' = CodeChunk.textLines c /\
    CodeChunk.x c'
    == CodeChunk.x c + CodeChunk.direction c * CodeChunk.speed c * elapsed dts.
Proof.
  induction dts as [|dt rest IH]; intros c g c'.
  - subst c'. unfold elapsed. cbn [CodeChunk.updates ret fst fold_right].
    repeat split; try reflexivity. ring.
  - subst c'. cbn [CodeChunk.updates]. unfold bind.
    pose proof (CodeChunk_update_frame dt c g) as (Hd & Hs & Hy & Ht & Hx).
    destruct (CodeChunk.update dt c g) as [c1 g1]. cbn [fst] in *.
    destruct (IH c1 g1) as (Hd' & Hs' & Hy' & Ht' & Hx').
    rewrite Hd', Hs', Hy', Ht', Hx', Hd, Hs, Hy, Ht, Hx.
    repeat split; try reflexivity. rewrite elapsed_cons. ring.
Qed.




(** ** The code chunk system *)

Lemma forEach_Forall {A : Type} (P : A -> Prop) (m : A -> Rand A) (a : list A) :
  (forall o g, P o -> P (fst (m o g))) ->
  forall g, Forall P a -> Forall P (fst (forEach m a g)).
Proof.
  intros Hm. induction a as [|o rest IH]; intros g Ha; [constructor|].
  inversion Ha as [|? ? Ho Hrest]; subst. cbn. unfold bind.
  pose proof (Hm o g Ho) as H1. destruct (m o g) as [o' g1].
  specialize (IH g1 Hrest). destruct (forEach m rest g1) as [rest' g2].
  cbn in *. constructor; assumption.
Qed.

Lemma randomSnippet_in_pool g :
  unit_range g ->
  exists lines,
    fst (CodeChunkSystem.randomSnippet g) = Some lines /\
    In lines CodeChunkSystem.snippets.
Proof.
  intros Hg. unfold CodeChunkSystem.randomSnippet, bind, ret, Math_random. cbn [fst].
  apply (array_get_random CodeChunkSystem.snippets (source g (cursor g))
           (proj1 (Hg _)) (proj2 (Hg _))).
  discriminate.
Qed.









(** ** The rain system *)

Lemma reset_loop_columns (width height : Q) (fuel : nat) :
  0 < height ->
  forall (x : Q) (cols : list MatrixColumn.obj) (g : Rng) cols' g',
    unit_range g ->
    MatrixRainSystem.reset_loop fuel x width height 16 cols g = Some (cols', g') ->
    exists fresh,
      cols' = cols ++ fresh /\
      forall (k : nat) c, fresh !! k = Some c ->
        MatrixColumn.x c == x + 16 * inject_Z (Z.of_nat k) /\
        MatrixColumn.x c < width /\
        column_kept height c c.
Proof.
  intros Hh. induction fuel as [|fuel IH]; intros x cols g cols' g' Hg H.
  - cbn in H. destruct (Qltb x width); [discriminate H|].
    injection H as <- <-. exists []. split; [now rewrite app_nil_r|].
    intros k c Hk. discriminate Hk.
  - cbn [MatrixRainSystem.reset_loop] in H.
    destruct (Qltb x width) eqn:Hx.
    2:{ injection H as <- <-. exists []. split; [now rewrite app_nil_r|].
        intros k c Hk. discriminate Hk. }
    apply Qltb_lt in Hx.
    pose proof (MatrixColumn_new_range x height g Hg Hh) as (H1 & H2 & H3 & H4).
    pose proof (MatrixColumn_new_source x height g) as Hsrc.
    assert (MatrixColumn.x (fst (MatrixColumn.new x height g)) = x) as Hxc
      by reflexivity.
    destruct (MatrixColumn.new x height g) as [c0 g1]. cbn [fst snd] in *.
    apply IH in H as (fresh & -> & Hfresh);
      [|eapply same_source_unit_range; eassumption].
    exists (c0 :: fresh). split; [now rewrite <- app_assoc|].
    intros [|k] c Hk.
    + injection Hk as <-. rewrite Hxc. split; [|split; [exact Hx|]].
      * change (inject_Z (Z.of_nat 0)) with 0. ring.
      * unfold column_kept. repeat split; try assumption; lra.
    + destruct (Hfresh k c Hk) as (Ha & Hb & Hc). split; [|split; assumption].
      rewrite Ha, Nat2Z.inj_succ. unfold Z.succ. rewrite inject_Z_plus.
      change (inject_Z 1) with 1. ring.
Qed.

Lemma forEach_Forall2 {A B : Type} (R : B -> A -> Prop) (m : A -> Rand A) :
  (forall o g, same_source g (snd (m o g))) ->
  (forall b o g, unit_range g -> R b o -> R b (fst (m o g))) ->
  forall l0 l g, unit_range g -> Forall2 R l0 l -> Forall2 R l0 (fst (forEach m l g)).
Proof.
  intros Hsrc Hstep l0 l g Hg Hall. revert g Hg.
  induction Hall as [|b o l0 l Hbo _ IH]; intros g Hg; [constructor|].
  cbn. unfold bind.
  pose proof (Hstep b o g Hg Hbo) as H1. pose proof (Hsrc o g) as H2.
  destruct (m o g) as [o' g1]. cbn [fst snd] in *.
  specialize (IH g1 (same_source_unit_range _ _ H2 Hg)).
  destruct (forEach m l g1) as [rest' g2]. cbn in *. constructor; assumption.
Qed.

Lemma column_kept_update dt height c0 c g :
  0 < height -> 0 <= dt -> unit_range g ->
  column_kept height c0 c -> column_kept height c0 (fst (MatrixColumn.update dt height c g)).
Proof.
  intros Hh Hdt Hg (Hx & Hs & Hsp & Hlo & Hhi).
  destruct (MatrixColumn_update_range dt height c g Hg Hh Hdt) as (H1 & H2 & H3);
    [rewrite Hs; lra | exact Hlo |].
  assert (MatrixColumn.x (fst (MatrixColumn.update dt height c g)) = MatrixColumn.x c)
    as Hx' by (unfold MatrixColumn.update; destruct (Qgtb _ _); reflexivity).
  unfold column_kept. rewrite Hx', H3. repeat split; try assumption; apply Hsp.
Qed.

Lemma MatrixRainSystem_updates_kept dts width height :
  0 < height -> Forall (Qle 0) dts ->
  forall cols0 this g,
    unit_range g ->
    Forall2 (column_kept height) cols0 (MatrixRainSystem.columns this) ->
    Forall2 (column_kept height) cols0
      (MatrixRainSystem.columns
         (fst (MatrixRainSystem_updates dts width height this g))).
Proof.
  intros Hh. induction 1 as [|dt rest Hdt _ IH]; intros cols0 this g Hg Hall;
    [exact Hall|].
  cbn [MatrixRainSystem_updates]. unfold bind.
  pose proof (MatrixRainSystem_update_source dt width height this g) as Hsrc.
  assert (Forall2 (column_kept height) cols0
            (MatrixRainSystem.columns
               (fst (MatrixRainSystem.update dt width height this g)))) as H1.
  { unfold MatrixRainSystem.update, bind, ret.
    pose proof (forEach_Forall2 (column_kept height) (MatrixColumn.update dt height)
                  (MatrixColumn_update_source dt height)
                  (fun b o g' Hg' => column_kept_update dt height b o g' Hh Hdt Hg')
                  cols0 (MatrixRainSystem.columns this) g Hg Hall) as H.
    destruct (forEach _ _ g) as [cols g1]. exact H. }
  destruct (MatrixRainSystem.update dt width height this g) as [this1 g1].
  cbn [fst snd] in *. apply IH; [|exact H1].
  eapply same_source_unit_range; eassumption.
Qed.

(** X8.  The rain columns stay on their grid.  After [reset(width, height)]
    on a surface of positive height and any run of updates with non-negative
    time steps, the k-th column is at x = 16 k, inside [0, width); its speed
    is the one drawn at construction, in [50, 200); and its y is within
    [-height, height + 100]. *)
Theorem matrix_columns_stay_on_grid
    (fuel : nat) (width height : Q) (this0 this : MatrixRainSystem.obj)
    (g g1 : Rng) (dts : list Q) :
  0 < height -> unit_range g -> MatrixRainSystem.spacing this0 = 16 ->
  MatrixRainSystem.reset fuel width height this0 g = Some (this, g1) ->
  Forall (Qle 0) dts ->
  let sys := fst (MatrixRainSystem_updates dts width height this g1) in
  length (MatrixRainSystem.columns sys) = length (MatrixRainSystem.columns this) /\
  forall (k : nat) c, MatrixRainSystem.columns sys !! k = Some c ->
    MatrixColumn.x c == 16 * inject_Z (Z.of_nat k) /\
    (0 <= MatrixColumn.x c /\ MatrixColumn.x c < width) /\
    (50 <= MatrixColumn.speed c /\ MatrixColumn.speed c < 200) /\
    (- height <= MatrixColumn.y c /\ MatrixColumn.y c <= height + 100) /\
    exists c0, MatrixRainSystem.columns this !! k = Some c0 /\
               MatrixColumn.speed c = MatrixColumn.speed c0.
Proof.
  intros Hh Hg Hsp Hreset Hdts sys.
  unfold MatrixRainSystem.reset in Hreset. rewrite Hsp in Hreset.
  destruct (MatrixRainSystem.reset_loop fuel 0 width height 16 [] g)
    as [[cols g']|] eqn:Hloop; [|discriminate Hreset].
  injection Hreset as <- <-.
  pose proof (reset_loop_source _ _ _ _ _ _ _ _ _ Hloop) as Hsrc.
  destruct (reset_loop_columns width height fuel Hh 0 [] g cols g' Hg Hloop)
    as (fresh & Hcols & Hfresh).
  cbn [app] in Hcols. subst fresh.
  assert (Forall2 (column_kept height) cols cols) as Hstart.
  { apply Forall2_same_length_lookup. split; [reflexivity|].
    intros k c c' Hc Hc'. rewrite Hc in Hc'. injection Hc' as <-.
    apply (Hfresh k c Hc). }
  pose proof (MatrixRainSystem_updates_kept dts width height Hh Hdts cols
                (MatrixRainSystem.mk cols 16) g'
                (same_source_unit_range _ _ Hsrc Hg) Hstart) as Hkept.
  fold sys in Hkept. cbn [MatrixRainSystem.columns].
  split; [symmetry; eapply Forall2_length; exact Hkept|].
  intros k c Hc.
  destruct (Forall2_lookup_r _ _ _ _ _ Hkept Hc) as (c0 & Hc0 & Hx & Hs & Hsp0 & Hlo & Hhi).
  destruct (Hfresh k c0 Hc0) as (Hx0 & Hw & _).
  rewrite Hx, Hs.
  assert (0 <= inject_Z (Z.of_nat k)) as Hk
    by (change 0 with (inject_Z 0); rewrite <- Zle_Qle; lia).
  split; [rewrite Hx0; ring|]. split; [split; [rewrite Hx0; lra | exact Hw]|].
  split; [exact Hsp0|]. split; [split; assumption|].
  exists c0. split; [exact Hc0 | reflexivity].
Qed.

Lemma matrix_columns_stay_on_grid_witness :
  exists this g1,
    MatrixRainSystem.new 10 64 48 demo_rng = Some (this, g1) /\
    let sys := fst (MatrixRainSystem_updates [0.5; 2; 0.016] 64 48 this g1) in
    length (MatrixRainSystem.columns sys) = 4%nat /\
    forall (k : nat) c, MatrixRainSystem.columns sys !! k = Some c ->
      MatrixColumn.x c == 16 * inject_Z (Z.of_nat k) /\
      (- 48 <= MatrixColumn.y c /\ MatrixColumn.y c <= 48 + 100).
Proof.
  destruct (MatrixRainSystem.new 10 64 48 demo_rng) as [[this g1]|] eqn:Hnew;
    [|vm_compute in Hnew; discriminate Hnew].
  exists this, g1. split; [reflexivity|].
  destruct (matrix_columns_stay_on_grid 10 64 48 (MatrixRainSystem.mk [] 16) this
              demo_rng g1 [0.5; 2; 0.016]) as [Hlen Hcols].
  - reflexivity.
  - apply demo_rng_unit_range.
  - reflexivity.
  - exact Hnew.
  - repeat constructor; cbn; lra.
  - cbv zeta. split.
    + rewrite Hlen.
      assert (option_map (fun r => length (MatrixRainSystem.columns (fst r)))
                (MatrixRainSystem.new 10 64 48 demo_rng) = Some 4%nat) as H
        by (vm_compute; reflexivity).
      rewrite Hnew in H. cbn in H. now injection H.
    + intros k c Hc. destruct (Hcols k c Hc) as (Hx & _ & _ & Hy & _).
      split; assumption.
Defined.

(** ** The layout of the network *)

Lemma find_id_fresh (i : string) (fresh : list Node.obj) :
  forall h : list Node.obj,
    find_id (h ++ fresh) (seq (length h) (length fresh)) i
    = option_map (fun k => (length h + k)%nat)
        (index_of (fun n => String.eqb (Node.id n) i) fresh).
Proof.
  unfold find_id. induction fresh as [|n fresh IH]; intros h; [reflexivity|].
  cbn [length seq List.find index_of].
  unfold has_id at 1. rewrite list_lookup_middle by reflexivity.
  destruct (String.eqb (Node.id n) i).
  - cbn. f_equal. lia.
  - specialize (IH (h ++ [n])). rewrite <- app_assoc, length_app in IH. cbn in IH.
    replace (length h + 1)%nat with (S (length h)) in IH by lia. rewrite IH.
    destruct (index_of _ fresh); cbn; [f_equal; lia | reflexivity].
Qed.

Lemma layout_nodes_inside (width height : Q) :
  0 <= width -> 0 <= height ->
  Forall (fun n => (0 <= Node.x n /\ Node.x n <= width) /\
                   (0 <= Node.y n /\ Node.y n <= height))
    (NodeNetworkSystem.layout_nodes width height).
Proof.
  intros Hw Hh. unfold NodeNetworkSystem.layout_nodes, Node.new. cbv zeta.
  repeat constructor; cbn [Node.x Node.y]; lra.
Qed.

(** X9.  [setupLayout(width, height)] builds a star around the router: the
    node array holds the nine new nodes in the order hacker, server,
    desktop1, desktop2, router, laptop1, phone, iot, cloud; every lookup by
    identifier succeeds, so the eight links are router-server,
    router-desktop1, router-desktop2, router-laptop1, router-phone,
    router-iot, router-cloud and hacker-router, each between two of the new
    nodes; and on a surface with non-negative sides every node lies inside
    the surface. *)
Theorem setupLayout_builds_star_inside_surface (width height : Q) (s : Scene) :
  let s' := NodeNetworkSystem.setupLayout width height s in
  let base := length (nodeHeap s) in
  nodes (network s') = map (fun k => (base + k)%nat) [0; 1; 2; 3; 4; 5; 6; 7; 8]%nat /\
  map (fun r => option_map Node.id (nodeHeap s' !! r)) (nodes (network s'))
  = map Some layout_ids /\
  links (network s')
  = map (fun ft => Link.mk (Some (base + fst ft)%nat) (Some (base + snd ft)%nat))
      [ (4, 1); (4, 2); (4, 3); (4, 5); (4, 6); (4, 7); (4, 8); (0, 4) ]%nat /\
  map (fun l => (endpoint_id (nodeHeap s') (Link.from l),
                 endpoint_id (nodeHeap s') (Link.to l)))
      (links (network s'))
  = map (fun ft => (Some (fst ft), Some (snd ft)))
      [ ("router", "server"); ("router", "desktop1"); ("router", "desktop2");
        ("router", "laptop1"); ("router", "phone"); ("router", "iot");
        ("router", "cloud"); ("hacker", "router") ]%string /\
  (0 <= width -> 0 <= height ->
   forall r n, In r (nodes (network s')) -> nodeHeap s' !! r = Some n ->
     (0 <= Node.x n /\ Node.x n <= width) /\ (0 <= Node.y n /\ Node.y n <= height)).
Proof.
  intros s' base.
  assert (nodes (network s')
          = map (fun k => (base + k)%nat) [0; 1; 2; 3; 4; 5; 6; 7; 8]%nat) as Hnodes.
  { subst s' base. cbn [NodeNetworkSystem.setupLayout network nodes].
    change (length (NodeNetworkSystem.layout_nodes width height)) with 9%nat.
    cbn [seq map]. repeat (f_equal; try lia). }
  assert (links (network s')
          = map (fun ft => Link.mk (Some (base + fst ft)%nat) (Some (base + snd ft)%nat))
              [ (4, 1); (4, 2); (4, 3); (4, 5); (4, 6); (4, 7); (4, 8); (0, 4) ]%nat)
    as Hlinks.
  { subst s' base. cbn [NodeNetworkSystem.setupLayout network links].
    rewrite !find_id_fresh. reflexivity. }
  assert (forall k n, NodeNetworkSystem.layout_nodes width height !! k = Some n ->
                      nodeHeap s' !! (base + k)%nat = Some n) as Hlook.
  { intros k n Hk. subst s' base. cbn [NodeNetworkSystem.setupLayout nodeHeap].
    rewrite lookup_app_r by lia. rewrite Nat.add_comm, Nat.add_sub. exact Hk. }
  split; [exact Hnodes|]. split; [apply layout_ok_setupLayout|].
  split; [exact Hlinks|]. split.
  - rewrite Hlinks. cbn [map fst snd endpoint_id Link.from Link.to].
    rewrite (Hlook 0%nat _ eq_refl), (Hlook 1%nat _ eq_refl), (Hlook 2%nat _ eq_refl),
      (Hlook 3%nat _ eq_refl), (Hlook 4%nat _ eq_refl), (Hlook 5%nat _ eq_refl),
      (Hlook 6%nat _ eq_refl), (Hlook 7%nat _ eq_refl), (Hlook 8%nat _ eq_refl).
    reflexivity.
  - intros Hw Hh r n Hr Hn. rewrite Hnodes in Hr. apply in_map_iff in Hr as (k & <- & Hk).
    pose proof (layout_nodes_inside width height Hw Hh) as Hall.
    assert (exists n0, NodeNetworkSystem.layout_nodes width height !! k = Some n0)
      as [n0 Hn0].
    { apply lookup_lt_is_Some_2. cbn in Hk.
      change (length (NodeNetworkSystem.layout_nodes width height)) with 9%nat.
      intuition lia. }
    rewrite (Hlook k n0 Hn0) in Hn. injection Hn as <-.
    apply (Forall_lookup_1 _ _ _ _ Hall Hn0).
Qed.

Lemma setupLayout_builds_star_inside_surface_witness :
  exists n,
    nodeHeap scene0 !! 8%nat = Some n /\
    (0 <= Node.x n /\ Node.x n <= 1024) /\ (0 <= Node.y n /\ Node.y n <= 768).
Proof.
  destruct (setupLayout_builds_star_inside_surface 1024 768
              (mkScene [] [] (mkNodeNetwork [] [] [] 0))) as (_ & _ & _ & _ & H).
  eexists. split; [reflexivity|].
  apply (H ltac:(cbn; lra) ltac:(cbn; lra) 8%nat); [cbn; tauto | reflexivity].
Defined.

(** ** Hack events *)

Lemma array_get_nil {A : Type} (z : Z) : array_get (@nil A) z = None.
Proof. unfold array_get. destruct (z <? 0)%Z; reflexivity. Qed.

Lemma layout_ok_id_in_layout s r n :
  layout_ok s -> In r (nodes (network s)) -> nodeHeap s !! r = Some n ->
  In (Node.id n) layout_ids.
Proof.
  intros Hok Hr Hn.
  assert (In (option_map Node.id (nodeHeap s !! r)) (node_ids s)) as Hin
    by (unfold node_ids; apply in_map_iff; eauto).
  rewrite Hok, Hn in Hin. apply in_map_iff in Hin as (j & Hj & Hjin).
  cbn in Hj. injection Hj as ->. exact Hjin.
Qed.

(** X10.  The target of a hack event is chosen at construction among the
    nodes of the network that are neither the hacker nor the router: it is
    never one of those two, and it is [undefined] exactly when there is no
    other node.  In a network laid out by [setupLayout] the target is always
    one of the seven other nodes. *)
Theorem hack_event_target_is_never_hacker_or_router (s : Scene) (g : Rng) :
  unit_range g ->
  let e := fst (HackEvent.new s g) in
  (forall tg, HackEvent.target e = Some tg ->
     In tg (HackEvent.targets e) /\ In tg (nodes (network s)) /\
     forall n, nodeHeap s !! tg = Some n ->
               Node.id n <> "hacker"%string /\ Node.id n <> "router"%string) /\
  (HackEvent.target e = None <-> HackEvent.targets e = []) /\
  (layout_ok s ->
   exists tg n,
     HackEvent.target e = Some tg /\ nodeHeap s !! tg = Some n /\
     In (Node.id n)
        [ "server"; "desktop1"; "desktop2"; "laptop1"; "phone"; "iot"; "cloud" ]%string).
Proof.
  intros Hg e.
  assert (forall tg, HackEvent.target e = Some tg ->
     In tg (HackEvent.targets e) /\ In tg (nodes (network s)) /\
     forall n, nodeHeap s !! tg = Some n ->
               Node.id n <> "hacker"%string /\ Node.id n <> "router"%string) as Hsome.
  { intros tg Htg. subst e. unfold HackEvent.new, bind, ret, Math_random in *.
    cbn [fst HackEvent.target HackEvent.targets] in *.
    assert (In tg (List.filter
                     (fun r => negb (has_id (nodeHeap s) "hacker" r)
                               && negb (has_id (nodeHeap s) "router" r))
                     (nodes (network s)))) as Hin.
    { unfold array_get in Htg. destruct (_ <? 0)%Z; [discriminate Htg|].
      apply list_elem_of_In. eapply list_elem_of_lookup_2. exact Htg. }
    split; [exact Hin|]. apply filter_In in Hin as [Hin Hf].
    split; [exact Hin|]. intros n Hn.
    apply andb_true_iff in Hf as [H1 H2].
    apply negb_true_iff in H1, H2. unfold has_id in H1, H2. rewrite Hn in H1, H2.
    apply String.eqb_neq in H1, H2. split; assumption. }
  split; [exact Hsome|]. split; [split|].
  - intros Hnone. destruct (HackEvent.targets e) as [|t ts] eqn:Hts; [reflexivity|].
    exfalso. subst e. unfold HackEvent.new, bind, ret, Math_random in *.
    cbn [fst HackEvent.target HackEvent.targets] in *.
    match type of Hnone with
    | array_get ?a _ = None =>
        destruct (array_get_random a (source g (cursor g))
                    (proj1 (Hg _)) (proj2 (Hg _))) as (x & Hx & _);
        [rewrite Hts; discriminate|]
    end.
    rewrite Hx in Hnone. discriminate Hnone.
  - intros Hnil. subst e. unfold HackEvent.new, bind, ret, Math_random in *.
    cbn [fst HackEvent.target HackEvent.targets] in *.
    rewrite Hnil. apply array_get_nil.
  - intros Hok. pose proof (layout_ok_targets s g Hg Hok) as Hdef. fold e in Hdef.
    destruct (HackEvent.target e) as [tg|] eqn:Htg; [|congruence].
    destruct (Hsome tg eq_refl) as (_ & Hin & Hid).
    destruct (layout_ok_valid s tg Hok Hin) as [n Hn].
    exists tg, n. split; [reflexivity|]. split; [exact Hn|].
    destruct (Hid n Hn) as [Hh Hr].
    pose proof (layout_ok_id_in_layout s tg n Hok Hin Hn) as Hlay.
    cbn in Hlay. cbn. intuition congruence.
Qed.

Lemma hack_event_target_is_never_hacker_or_router_witness :
  exists tg n,
    HackEvent.target (fst (HackEvent.new scene0 demo_rng)) = Some tg /\
    nodeHeap scene0 !! tg = Some n /\
    In (Node.id n)
       [ "server"; "desktop1"; "desktop2"; "laptop1"; "phone"; "iot"; "cloud" ]%string.
Proof.
  apply (hack_event_target_is_never_hacker_or_router scene0 demo_rng).
  - apply demo_rng_unit_range.
  - apply layout_ok_setupLayout.
Defined.

Lemma HackEvent_update_account dt e s e' s' :
  HackEvent.update dt e s = Some (e', s') ->
  HackEvent.hacker e' = HackEvent.hacker e /\
  HackEvent.targets e' = HackEvent.targets e /\
  HackEvent.target e' = HackEvent.target e /\
  (HackEvent_rank (HackEvent.state e) <= HackEvent_rank (HackEvent.state e'))%nat /\
  (HackEvent_rank (HackEvent.state e') <= S (HackEvent_rank (HackEvent.state e)))%nat /\
  (length (packetHeap s') + launched e = length (packetHeap s) + launched e')%nat /\
  (length (packets (network s')) + launched e
   = length (packets (network s)) + launched e')%nat.
Proof.
  intros H. unfold HackEvent.update in H. unfold launched.
  destruct (HackEvent.state e) eqn:Hst.
  - destruct (Qgtb _ 0.5); injection H as <- <-; cbn;
      destruct (HackEvent.hacker e); cbn; repeat split; lia.
  - injection H as <- <-. cbn. rewrite !length_app. cbn. repeat split; lia.
  - destruct (match HackEvent.packet e with
              | Some pr => _
              | None => false
              end).
    + destruct (HackEvent.target e); [|discriminate H].
      injection H as <- <-. cbn. repeat split; lia.
    + injection H as <- <-. cbn. repeat split; lia.
  - destruct (Qgtb _ 1.5); injection H as <- <-; cbn; repeat split; lia.
  - injection H as <- <-. cbn. repeat split; lia.
Qed.

(** X11.  A hack event only moves forward through prepare, launch,
    inFlight, impact, done, one state at a time, and never changes its
    hacker or its target.  Over any run of its updates it pushes exactly one
    packet, in passing from launch to inFlight: the store and the active
    collection grow by one if the run crosses that point and not at all
    otherwise. *)
Theorem hack_event_pushes_exactly_one_packet (dts : list Q) :
  forall e s e' s',
    HackEvent.updates dts e s = Some (e', s') ->
    HackEvent.hacker e' = HackEvent.hacker e /\
    HackEvent.target e' = HackEvent.target e /\
    (HackEvent_rank (HackEvent.state e) <= HackEvent_rank (HackEvent.state e'))%nat /\
    (HackEvent_rank (HackEvent.state e')
     <= HackEvent_rank (HackEvent.state e) + length dts)%nat /\
    (length (packetHeap s') + launched e = length (packetHeap s) + launched e')%nat /\
    (length (packets (network s')) + launched e
     = length (packets (network s)) + launched e')%nat.
Proof.
  induction dts as [|dt rest IH]; intros e s e' s' H.
  - injection H as <- <-. cbn. repeat split; lia.
  - cbn [HackEvent.updates] in H.
    destruct (HackEvent.update dt e s) as [[e1 s1]|] eqn:Hu; [|discriminate H].
    apply HackEvent_update_account in Hu as (H1 & _ & H3 & H4 & H5 & H6 & H7).
    apply IH in H as (H1' & H3' & H4' & H5' & H6' & H7').
    cbn [length]. repeat split; try congruence; lia.
Qed.

Lemma hack_event_pushes_exactly_one_packet_witness :
  exists e' s',
    HackEvent.updates [0.3; 0.3; 0.1; 0.1]
      (fst (HackEvent.new scene0 demo_rng)) scene0 = Some (e', s') /\
    HackEvent.state e' = HackEvent.inFlight /\
    length (packetHeap s') = 1%nat.
Proof.
  destruct (HackEvent.updates [0.3; 0.3; 0.1; 0.1]
              (fst (HackEvent.new scene0 demo_rng)) scene0) as [[e' s']|] eqn:Hrun;
    [|vm_compute in Hrun; discriminate Hrun].
  exists e', s'. split; [reflexivity|].
  assert (HackEvent.state e' = HackEvent.inFlight) as Hst.
  { assert (option_map (fun r => HackEvent.state (fst r))
              (HackEvent.updates [0.3; 0.3; 0.1; 0.1]
                 (fst (HackEvent.new scene0 demo_rng)) scene0)
            = Some HackEvent.inFlight) as H by (vm_compute; reflexivity).
    rewrite Hrun in H. cbn in H. now injection H. }
  split; [exact Hst|].
  destruct (hack_event_pushes_exactly_one_packet _ _ _ _ _ Hrun)
    as (_ & _ & _ & _ & Hheap & _).
  unfold launched in Hheap. rewrite Hst in Hheap. cbn in Hheap. lia.
Defined.

(** ** What drawing relies on *)

Lemma valid_ref_same_ids h h' o :
  same_ids h h' -> valid_ref h o -> valid_ref h' o.
Proof.
  intros Hids (r & n & -> & Hn). specialize (Hids r). rewrite Hn in Hids.
  destruct (h' !! r) as [n'|] eqn:Hn'; [|discriminate Hids].
  now exists r, n'.
Qed.

Lemma valid_ref_app h extra o : valid_ref h o -> valid_ref (h ++ extra) o.
Proof.
  intros (r & n & -> & Hn). exists r, n. split; [reflexivity|].
  now apply lookup_app_l_Some.
Qed.

Lemma link_valid_same_ids h h' l :
  same_ids h h' -> link_valid h l -> link_valid h' l.
Proof. intros Hids [H1 H2]. split; eapply valid_ref_same_ids; eassumption. Qed.

Lemma link_valid_app h extra l : link_valid h l -> link_valid (h ++ extra) l.
Proof. intros [H1 H2]. split; now apply valid_ref_app. Qed.

Lemma find_id_valid h refs i :
  find_id h refs i <> None -> valid_ref h (find_id h refs i).
Proof.
  destruct (find_id h refs i) as [r|] eqn:Hf; [|congruence]. intros _.
  destruct (find_id_Some _ _ _ _ Hf) as (_ & n & Hn & _). now exists r, n.
Qed.

Lemma sendPacket_valid fromId toId color speed s :
  packets_valid s ->
  packets_valid (NodeNetworkSystem.sendPacket fromId toId color speed s).
Proof.
  intros Hp. unfold NodeNetworkSystem.sendPacket.
  destruct (find_id _ _ fromId) as [from|] eqn:Hf; [|exact Hp].
  destruct (find_id _ _ toId) as [to|] eqn:Ht; [|exact Hp].
  unfold packets_valid. cbn. apply Forall_app. split; [exact Hp|].
  constructor; [|constructor]. cbn. split.
  - rewrite <- Hf. apply find_id_valid. congruence.
  - rewrite <- Ht. apply find_id_valid. congruence.
Qed.

Lemma sendPacket_links fromId toId color speed s :
  links (network (NodeNetworkSystem.sendPacket fromId toId color speed s))
  = links (network s).
Proof.
  unfold NodeNetworkSystem.sendPacket.
  destruct (find_id _ _ fromId); [|reflexivity].
  destruct (find_id _ _ toId); reflexivity.
Qed.

Lemma traffic_valid dt s g s' g' :
  NodeNetworkSystem.traffic dt s g = Some (s', g') -> packets_valid s ->
  packets_valid s' /\ nodeHeap s' = nodeHeap s /\
  links (network s') = links (network s).
Proof.
  intros H Hp. unfold NodeNetworkSystem.traffic, ebind, lift, throw, ret in H.
  destruct (Qleb _ 0); [|injection H as <- _; repeat split; exact Hp].
  cbn [Math_random] in H.
  match type of H with
  | context [find_id ?a ?b ?c] => destruct (find_id a b c) as [router|]
  end; [|injection H as <- _; repeat split; exact Hp].
  match type of H with
  | context [NodeNetworkSystem.others ?a] =>
      destruct (NodeNetworkSystem.others a) as [|o os]
  end; [injection H as <- _; repeat split; exact Hp|].
  destruct (array_get _ _) as [target|]; [|discriminate H].
  match type of H with
  | context [nodeHeap ?a !! router] => destruct (nodeHeap a !! router) as [nr|]
  end; [|discriminate H].
  match type of H with
  | context [nodeHeap ?a !! target] => destruct (nodeHeap a !! target) as [nt|]
  end; [|discriminate H].
  injection H as <- _. split; [|split].
  - apply sendPacket_valid. apply sendPacket_valid. exact Hp.
  - rewrite !(fun a b c d e => proj1 (sendPacket_frame a b c d e)). reflexivity.
  - rewrite !sendPacket_links. reflexivity.
Qed.

Lemma NodeNetworkSystem_update_valid dt width height s g s' g' :
  NodeNetworkSystem.update dt width height s g = Some (s', g') ->
  packets_valid s ->
  packets_valid s' /\ same_ids (nodeHeap s) (nodeHeap s') /\
  links (network s') = links (network s).
Proof.
  intros H Hp. unfold NodeNetworkSystem.update, ebind, lift, ret in H.
  destruct (NodeNetworkSystem.traffic dt _ g) as [[s2 g2]|] eqn:Htr; [|discriminate H].
  assert (same_ids (nodeHeap s)
            (forEach_ref (Node.update dt) (nodes (network s)) (nodeHeap s))) as Hids
    by (apply same_ids_forEach_ref; intros n; apply Node_update_id).
  apply traffic_valid in Htr as (Hp2 & Hh2 & Hl2).
  2:{ unfold packets_valid in *. cbn. eapply Forall_impl; [exact Hp|].
      intros p. apply link_valid_same_ids. exact Hids. }
  cbn in Hh2, Hl2. injection H as <- _. cbn. split; [|split].
  - unfold packets_valid in *. cbn. apply forEach_ref_Forall; [|exact Hp2].
    intros p Hl. exact Hl.
  - rewrite Hh2. exact Hids.
  - exact Hl2.
Qed.

Lemma HackEvent_update_valid dt e s e' s' :
  HackEvent.update dt e s = Some (e', s') ->
  link_valid (nodeHeap s) (Link.mk (HackEvent.hacker e) (HackEvent.target e)) ->
  packets_valid s ->
  packets_valid s' /\ same_ids (nodeHeap s) (nodeHeap s') /\
  links (network s') = links (network s) /\
  HackEvent.hacker e' = HackEvent.hacker e /\
  HackEvent.target e' = HackEvent.target e.
Proof.
  intros H He Hp. unfold HackEvent.update in H.
  assert (forall r, packets_valid (HackEvent.mark r s)) as Hmark.
  { intros r. unfold packets_valid in *. cbn. eapply Forall_impl; [exact Hp|].
    intros p. apply link_valid_same_ids. apply same_ids_mark. }
  assert (packets_valid (NodeNetworkSystem.push_packet
            (Packet.new (Link.mk (HackEvent.hacker e) (HackEvent.target e))
               "#ff0066" 260) s)) as Hpush.
  { unfold packets_valid. cbn. apply Forall_app. split; [exact Hp|].
    constructor; [exact He | constructor]. }
  destruct (HackEvent.state e);
    [ destruct (Qgtb _ 0.5); injection H as <- <-; destruct (HackEvent.hacker e)
    | injection H as <- <-
    | destruct (match HackEvent.packet e with
                | Some pr => _
                | None => false
                end);
      [ destruct (HackEvent.target e); [|discriminate H] |];
      injection H as <- <-
    | destruct (Qgtb _ 1.5); injection H as <- <-
    | injection H as <- <- ];
    repeat split;
    first [ exact Hp | exact Hpush | apply Hmark | apply same_ids_mark
          | apply same_ids_refl ].
Qed.

Lemma events_valid_same_ids h h' evs :
  same_ids h h' -> events_valid h evs -> events_valid h' evs.
Proof.
  intros Hids Hev. eapply Forall_impl; [exact Hev|].
  intros e. now apply link_valid_same_ids.
Qed.

Lemma forEach_event_valid dt evs :
  forall s evs' s',
    HackSystem.forEach_event dt evs s = Some (evs', s') ->
    events_valid (nodeHeap s) evs -> packets_valid s ->
    packets_valid s' /\ same_ids (nodeHeap s) (nodeHeap s') /\
    links (network s') = links (network s) /\ events_valid (nodeHeap s') evs'.
Proof.
  induction evs as [|e rest IH]; intros s evs' s' H Hev Hp.
  - injection H as <- <-.
    split; [exact Hp|]. split; [apply same_ids_refl|]. split; [reflexivity | constructor].
  - cbn in H. inversion Hev as [|? ? He Hrest]; subst.
    destruct (HackEvent.update dt e s) as [[e1 s1]|] eqn:Hu; [|discriminate H].
    destruct (HackSystem.forEach_event dt rest s1) as [[rest1 s2]|] eqn:Hr;
      [|discriminate H].
    injection H as <- <-.
    apply HackEvent_update_valid in Hu as (Hp1 & Hids1 & Hl1 & Hh1 & Ht1);
      [|exact He|exact Hp].
    apply IH in Hr as (Hp2 & Hids2 & Hl2 & Hev2);
      [|eapply events_valid_same_ids; eassumption|exact Hp1].
    split; [exact Hp2|]. split; [eapply same_ids_trans; eassumption|].
    split; [congruence|]. constructor; [|exact Hev2].
    rewrite Hh1, Ht1. eapply link_valid_same_ids; [|exact He].
    eapply same_ids_trans; eassumption.
Qed.

Lemma layout_ok_hacker s :
  layout_ok s ->
  find_id (nodeHeap s) (nodes (network s)) "hacker" <> None.
Proof.
  intros Hok.
  destruct (existsb_find (has_id (nodeHeap s) "hacker") (nodes (network s)))
    as [h Hh].
  { rewrite (existsb_node_ids _ (id_is "hacker")) by (intros r; apply has_id_ids).
    rewrite Hok. reflexivity. }
  unfold find_id. rewrite Hh. discriminate.
Qed.

Lemma HackEvent_new_valid s g :
  unit_range g -> layout_ok s ->
  link_valid (nodeHeap s)
    (Link.mk (HackEvent.hacker (fst (HackEvent.new s g)))
             (HackEvent.target (fst (HackEvent.new s g)))).
Proof.
  intros Hg Hok. pose proof (layout_ok_targets s g Hg Hok) as Htg.
  unfold HackEvent.new, bind, ret, Math_random in *.
  cbn [fst HackEvent.hacker HackEvent.target] in *. split; cbn [Link.from Link.to].
  - apply find_id_valid. now apply layout_ok_hacker.
  - destruct (array_get _ _) as [tg|] eqn:Hget; [|congruence].
    unfold array_get in Hget. destruct (_ <? 0)%Z; [discriminate Hget|].
    apply list_elem_of_lookup_2, list_elem_of_In, filter_In in Hget as [Hin _].
    destruct (layout_ok_valid s tg Hok Hin) as [n Hn]. now exists tg, n.
Qed.

Lemma HackSystem_update_valid dt this s g this' s' g' :
  HackSystem.update dt this s g = Some (this', s', g') ->
  unit_range g -> layout_ok s ->
  events_valid (nodeHeap s) (HackSystem.events this) -> packets_valid s ->
  packets_valid s' /\ same_ids (nodeHeap s) (nodeHeap s') /\
  links (network s') = links (network s) /\
  events_valid (nodeHeap s') (HackSystem.events this').
Proof.
  intros H Hg Hok Hev Hp. unfold HackSystem.update, ebind, lift, throw, ret in H.
  assert (events_valid (nodeHeap s)
            (HackSystem.events (fst (HackSystem.spawn dt this s g)))) as Hev1.
  { unfold HackSystem.spawn, bind, ret. destruct (Qleb _ 0); [|exact Hev].
    cbn [Math_random].
    match goal with
    | |- context [HackEvent.new s ?g1] =>
        pose proof (HackEvent_new_valid s g1) as Hnew;
        destruct (HackEvent.new s g1) as [e g2]
    end.
    cbn. apply Forall_app. split; [exact Hev|]. constructor; [|constructor].
    apply Hnew; [|exact Hok]. intros k. apply Hg. }
  destruct (HackSystem.spawn dt this s g) as [this1 g1]. cbn [fst] in Hev1.
  destruct (HackSystem.forEach_event dt _ s) as [[evs s1]|] eqn:He; [|discriminate H].
  injection H as <- <- _.
  apply forEach_event_valid in He as (Hp1 & Hids & Hl & Hev2); [|exact Hev1|exact Hp].
  repeat split; try assumption. cbn. unfold events_valid in *.
  rewrite List.Forall_forall in *. intros e Hin.
  apply filter_In in Hin as [Hin _]. now apply Hev2.
Qed.

Lemma text_ok_system_update dt width height this g :
  unit_range g ->
  Forall text_ok (CodeChunkSystem.chunks this) ->
  Forall text_ok
    (CodeChunkSystem.chunks (fst (CodeChunkSystem.update dt width height this g))).
Proof.
  intros Hg Hall. unfold CodeChunkSystem.update, bind, ret.
  assert (Forall text_ok
            (CodeChunkSystem.chunks
               (fst (CodeChunkSystem.spawn dt width height this g)))) as H1.
  { unfold CodeChunkSystem.spawn, bind, ret.
    destruct (Qleb _ 0); [|exact Hall]. cbn [Math_random].
    match goal with
    | |- context [CodeChunkSystem.randomSnippet ?g1] =>
        destruct (randomSnippet_in_pool g1) as (lines & Hl & Hin);
        [intros k; apply Hg|];
        destruct (CodeChunkSystem.randomSnippet g1) as [l1 g2]
    end.
    cbn [fst] in Hl. subst l1. cbn. apply Forall_app. split; [exact Hall|].
    constructor; [|constructor]. now exists lines. }
  destruct (CodeChunkSystem.spawn dt width height this g) as [this1 g1].
  cbn [fst] in H1.
  assert (forall o g', text_ok o -> text_ok (fst (CodeChunk.update dt o g'))) as Hstep.
  { intros o g' (lines & Hl & Hin).
    pose proof (CodeChunk_update_frame dt o g') as (_ & _ & _ & Ht & _).
    cbv zeta in Ht. exists lines. split; [congruence | exact Hin]. }
  pose proof (forEach_Forall text_ok (CodeChunk.update dt)
                (CodeChunkSystem.chunks this1) Hstep g1 H1) as H2.
  destruct (forEach _ _ g1) as [cs g2]. cbn [fst CodeChunkSystem.chunks] in *.
  rewrite List.Forall_forall in *. intros c Hc.
  apply filter_In in Hc as [Hc _]. now apply H2.
Qed.

Lemma update_drawable dt w w' :
  update dt w = Some w' -> page_ok w -> drawable w -> drawable w'.
Proof.
  intros H (Hg & Hok & _ & _) (Hl & Hp & Hev & Htx). unfold update in H.
  pose proof (MatrixRainSystem_update_source dt (canvas_width w) (canvas_height w)
                (matrix w) (rng w)) as H1.
  destruct (MatrixRainSystem.update _ _ _ _ _) as [m g1].
  pose proof (CodeChunkSystem_update_source dt (canvas_width w) (canvas_height w)
                (codeChunks w) g1) as H2.
  pose proof (text_ok_system_update dt (canvas_width w) (canvas_height w)
                (codeChunks w) g1
                (same_source_unit_range _ _ H1 Hg) Htx) as Htx'.
  destruct (CodeChunkSystem.update _ _ _ _ _) as [c g2]. cbn [fst snd] in *.
  assert (unit_range g2) as Hg2.
  { eapply same_source_unit_range; [exact H2|].
    eapply same_source_unit_range; [exact H1 | exact Hg]. }
  destruct (NodeNetworkSystem.update _ _ _ _ g2) as [[s1 g3]|] eqn:Hn; [|discriminate H].
  pose proof (NodeNetworkSystem_update_source _ _ _ _ _ _ _ Hn) as H3.
  destruct (NodeNetworkSystem_update_total dt (canvas_width w) (canvas_height w)
              (scene w) g2 Hg2 Hok) as (s1' & g3' & Hn' & Hok1).
  rewrite Hn in Hn'. injection Hn' as <- <-.
  apply NodeNetworkSystem_update_valid in Hn as (Hp1 & Hids1 & Hl1); [|exact Hp].
  destruct (HackSystem.update _ _ _ g3) as [[[h s2] g4]|] eqn:Hh; [|discriminate H].
  apply HackSystem_update_valid in Hh as (Hp2 & Hids2 & Hl2 & Hev2);
    [ | eapply same_source_unit_range; eassumption | exact Hok1
      | eapply events_valid_same_ids; eassumption | exact Hp1 ].
  injection H as <-. unfold drawable. cbn.
  split; [|split; [exact Hp2 | split; [exact Hev2 | exact Htx']]].
  rewrite Hl2, Hl1. eapply Forall_impl; [exact Hl|].
  intros l. apply link_valid_same_ids. eapply same_ids_trans; eassumption.
Qed.

Lemma setupLayout_links_valid width height s :
  Forall (link_valid (nodeHeap (NodeNetworkSystem.setupLayout width height s)))
    (links (network (NodeNetworkSystem.setupLayout width height s))).
Proof.
  cbn [NodeNetworkSystem.setupLayout network links nodeHeap].
  assert (forall i : string,
            index_of (fun n => String.eqb (Node.id n) i)
              (NodeNetworkSystem.layout_nodes width height) <> None ->
            valid_ref (nodeHeap s ++ NodeNetworkSystem.layout_nodes width height)
              (find_id (nodeHeap s ++ NodeNetworkSystem.layout_nodes width height)
                 (seq (length (nodeHeap s))
                    (length (NodeNetworkSystem.layout_nodes width height))) i)) as Hv.
  { intros i Hi. apply find_id_valid. rewrite find_id_fresh.
    destruct (index_of _ _); [discriminate | congruence]. }
  repeat constructor; apply Hv; discriminate.
Qed.

Lemma on_resize_drawable fuel width height w w' :
  on_resize fuel width height w = Some w' -> drawable w -> drawable w'.
Proof.
  intros H (Hl & Hp & Hev & Htx). unfold on_resize in H.
  destruct (MatrixRainSystem.reset _ _ _ _ _) as [[m g1]|]; [|discriminate H].
  injection H as <-. unfold drawable.
  cbn [scene hacks codeChunks].
  split; [apply setupLayout_links_valid|].
  cbn [NodeNetworkSystem.setupLayout nodeHeap packetHeap].
  split; [|split; [|exact Htx]].
  - eapply Forall_impl; [exact Hp|]. intros p. apply link_valid_app.
  - eapply Forall_impl; [exact Hev|]. intros e. apply link_valid_app.
Qed.

Lemma start_drawable fuel width height g w :
  start fuel width height g = Some w -> drawable w.
Proof.
  intros H. unfold start in H.
  destruct (MatrixRainSystem.new fuel width height g) as [[m g1]|]; [|discriminate H].
  injection H as <-. unfold drawable. cbn [scene hacks codeChunks].
  split; [apply setupLayout_links_valid|].
  cbn. repeat split; constructor.
Qed.

Lemma start_page_ok fuel width height g w :
  unit_range g -> start fuel width height g = Some w -> page_ok w.
Proof.
  intros Hg H. unfold start, MatrixRainSystem.new, MatrixRainSystem.reset in H.
  cbn [MatrixRainSystem.spacing] in H.
  destruct (MatrixRainSystem.reset_loop fuel _ _ _ _ _ _) as [[cols g1]|] eqn:H1;
    [|discriminate H].
  pose proof (reset_loop_source _ _ _ _ _ _ _ _ _ H1) as Hsrc.
  injection H as <-. repeat split; cbn.
  - apply (same_source_unit_range _ _ Hsrc Hg k).
  - apply (same_source_unit_range _ _ Hsrc Hg k).
  - constructor.
Qed.

Lemma start_page_inv fuel width height g w :
  unit_range g -> start fuel width height g = Some w -> page_inv w.
Proof.
  intros Hg H. split; [|split].
  - eapply start_inv; eassumption.
  - eapply start_page_ok; eassumption.
  - eapply start_drawable; eassumption.
Qed.

Lemma update_page_inv dt w :
  0 <= dt -> page_inv w -> exists w', update dt w = Some w' /\ page_inv w'.
Proof.
  intros Hdt (Hinv & Hok & Hdraw).
  destruct (update_total dt w Hok) as (w' & Hu & Hok').
  exists w'. split; [exact Hu|]. split; [|split].
  - eapply update_inv; eassumption.
  - exact Hok'.
  - eapply update_drawable; eassumption.
Qed.

Lemma page_inv_rng w g :
  same_source (rng w) g -> page_inv w ->
  page_inv (mkWorld (canvas_width w) (canvas_height w) (matrix w) (codeChunks w)
              (scene w) (hacks w) g).
Proof.
  intros Hsrc ((Hs & Hg) & (Hg' & Hok & Hev & Hsp) & Hdraw).
  pose proof (same_source_unit_range _ _ Hsrc Hg) as Hg1.
  split; [split; [exact Hs | exact Hg1]|].
  split; [split; [exact Hg1 | split; [exact Hok | split; [exact Hev | exact Hsp]]]|].
  exact Hdraw.
Qed.

Lemma step_drawable w w' : step w w' -> page_ok w -> drawable w -> drawable w'.
Proof.
  intros [dt w1 w2 Hdt H | fuel width height w1 w2 H] Hok Hd.
  - eapply update_drawable; eassumption.
  - eapply on_resize_drawable; eassumption.
Qed.

Lemma reachable_page_inv w : reachable w -> page_inv w.
Proof.
  intros Hw. split; [now apply reachable_inv|]. split; [now apply reachable_page_ok|].
  destruct Hw as (fuel & width & height & g & w0 & Hg & Hstart & Hsteps).
  induction Hsteps as [w0|w0 w1 w2 Hsteps IH Hstep].
  - eapply start_drawable; eassumption.
  - eapply step_drawable; [exact Hstep | | exact (IH Hstart)].
    apply reachable_page_ok. exists fuel, width, height, g, w0. auto.
Qed.

(** ** Drawing *)

Lemma save_depth_app (a b : list Call) :
  forall d, save_depth (a ++ b) d
            = match save_depth a d with
              | Some d' => save_depth b d'
              | None => None
              end.
Proof.
  induction a as [|c a IH]; intros d; [reflexivity|].
  destruct c; cbn [app save_depth]; try apply IH.
  destruct d; [reflexivity | apply IH].
Qed.

Lemma balanced_nil : balanced [].
Proof. intros d. reflexivity. Qed.

Lemma balanced_app (a b : list Call) : balanced a -> balanced b -> balanced (a ++ b).
Proof. intros Ha Hb d. rewrite save_depth_app, Ha. apply Hb. Qed.

Lemma forEach_draw_balanced {A : Type} (d : A -> option (list Call)) (a : list A) :
  (forall o calls, d o = Some calls -> balanced calls) ->
  forall calls, forEach_draw d a = Some calls -> balanced calls.
Proof.
  intros Hd. induction a as [|o rest IH]; intros calls H; cbn in H.
  - injection H as <-. apply balanced_nil.
  - destruct (d o) as [c1|] eqn:Ho; [|discriminate H].
    destruct (forEach_draw d rest) as [c2|]; [|discriminate H].
    injection H as <-. apply balanced_app; [eapply Hd; eassumption | now apply IH].
Qed.


Lemma forEach_draw_throws {A : Type} (d : A -> option (list Call)) (a : list A) (o : A) :
  In o a -> d o = None -> forEach_draw d a = None.
Proof.
  intros Hin Ho. induction a as [|o' rest IH]; [destruct Hin|].
  cbn. destruct Hin as [->|Hin]; [rewrite Ho; reflexivity|].
  destruct (d o'); [|reflexivity]. rewrite (IH Hin). reflexivity.
Qed.

Lemma Math_max_left (a b : Q) : ~ a < b -> Math_max a b = a.
Proof.
  intros H. unfold Math_max. destruct (Qltb a b) eqn:E; [|reflexivity].
  apply Qltb_lt in E. contradiction.
Qed.

Lemma MatrixColumn_draw_loop_spec (count : Z) (this : MatrixColumn.obj) :
  forall (fuel : nat) (i : Z) (g : Rng),
    (0 <= i)%Z -> (Z.to_nat (count - i) <= fuel)%nat ->
    exists calls g',
      MatrixColumn_draw_loop fuel i count this g = Some (calls, g') /\
      source g' = source g /\
      cursor g' = (cursor g + Z.to_nat (count - i))%nat /\
      length calls = (2 * Z.to_nat (count - i))%nat /\
      balanced calls /\
      forall k : nat, (k < Z.to_nat (count - i))%nat ->
        calls !! (2 * k)%nat
        = Some (set_fillStyle
                  (Rgba 0 255 120 (1 - inject_Z (i + Z.of_nat k) / inject_Z count))) /\
        calls !! (2 * k + 1)%nat
        = Some (fillText
                  (if Qgtb (source g (cursor g + k)%nat) 0.5 then "1" else "0")%string
                  (MatrixColumn.x this)
                  (MatrixColumn.y this - inject_Z (i + Z.of_nat k) * 16)).
Proof.
  induction fuel as [|fuel IH]; intros i g Hi Hfuel.
  - assert ((i <? count)%Z = false) as E by (apply Z.ltb_ge; lia).
    cbn. rewrite E. exists [], g.
    replace (Z.to_nat (count - i)) with 0%nat by lia.
    repeat split; try (cbn; lia); try apply balanced_nil.
  - cbn [MatrixColumn_draw_loop]. destruct (i <? count)%Z eqn:E.
    + apply Z.ltb_lt in E. unfold Math_random.
      destruct (IH (i + 1)%Z (mkRng (source g) (S (cursor g)))) as
        (calls & g' & Hrun & Hsrc & Hcur & Hlen & Hbal & Hk); [lia | lia |].
      rewrite Hrun. eexists _, g'. split; [reflexivity|].
      cbn [source cursor] in *.
      replace (Z.to_nat (count - i)) with (S (Z.to_nat (count - (i + 1)))) by lia.
      split; [exact Hsrc|]. split; [lia|]. split; [cbn [length]; lia|].
      split; [intros d; cbn [save_depth]; apply Hbal|].
      intros [|k] Hlt.
      * cbn [Nat.mul Nat.add lookup list_lookup]. rewrite Z.add_0_r, Nat.add_0_r.
        split; [|reflexivity]. do 3 f_equal. apply Math_max_left.
        assert (inject_Z i / inject_Z count < 1) as Hq.
        { apply Qlt_shift_div_r; [change 0 with (inject_Z 0); rewrite <- Zlt_Qlt; lia|].
          rewrite Qmult_1_l. rewrite <- Zlt_Qlt. exact E. }
        lra.
      * destruct (Hk k ltac:(lia)) as [H1 H2].
        replace (2 * S k)%nat with (S (S (2 * k))) by lia.
        replace (S (S (2 * k)) + 1)%nat with (S (S (2 * k + 1))) by lia.
        replace (i + Z.of_nat (S k))%Z with (i + 1 + Z.of_nat k)%Z by lia.
        replace (cursor g + S k)%nat with (S (cursor g) + k)%nat by lia.
        split; [exact H1 | exact H2].
    + exists [], g. apply Z.ltb_ge in E.
      replace (Z.to_nat (count - i)) with 0%nat by lia.
      split; [reflexivity|]. repeat split; try (cbn; lia); try apply balanced_nil.
Qed.



Lemma MatrixColumn_draw_loop_balanced fuel count this :
  forall i g calls g',
    MatrixColumn_draw_loop fuel i count this g = Some (calls, g') -> balanced calls.
Proof.
  induction fuel as [|fuel IH]; intros i g calls g' H; cbn in H.
  - destruct (i <? count)%Z; [discriminate H|]. injection H as <- <-. apply balanced_nil.
  - destruct (i <? count)%Z; [|injection H as <- <-; apply balanced_nil].
    destruct (MatrixColumn_draw_loop fuel _ _ _ _) as [[c1 g1]|] eqn:Hl; [|discriminate H].
    injection H as <- <-. intros d. cbn [save_depth]. eapply IH. exact Hl.
Qed.

Lemma MatrixRainSystem_draw_balanced fuel height this g calls g' :
  MatrixRainSystem_draw fuel height this g = Some (calls, g') -> balanced calls.
Proof.
  unfold MatrixRainSystem_draw. revert g calls g'.
  induction (MatrixRainSystem.columns this) as [|c rest IH]; intros g calls g' H.
  - injection H as <- <-. apply balanced_nil.
  - cbn [MatrixRainSystem_draw_columns] in H.
    destruct (MatrixColumn_draw fuel height c g) as [[c1 g1]|] eqn:H1; [|discriminate H].
    destruct (MatrixRainSystem_draw_columns fuel height rest g1) as [[c2 g2]|] eqn:H2;
      [|discriminate H].
    injection H as <- <-. apply balanced_app; [|eapply IH; exact H2].
    unfold MatrixColumn_draw in H1.
    destruct (MatrixColumn_draw_loop _ _ _ _ _) as [[c3 g3]|] eqn:H3; [|discriminate H1].
    injection H1 as <- <-. intros d. cbn [save_depth].
    eapply MatrixColumn_draw_loop_balanced. exact H3.
Qed.

Lemma CodeChunk_draw_lines_balanced lines x y :
  forall offsetY, balanced (CodeChunk_draw_lines lines x y offsetY).
Proof.
  induction lines as [|l rest IH]; intros offsetY d; [reflexivity|].
  cbn [CodeChunk_draw_lines save_depth]. apply IH.
Qed.

Lemma CodeChunk_draw_balanced c calls : CodeChunk_draw c = Some calls -> balanced calls.
Proof.
  unfold CodeChunk_draw. intros H.
  destruct (Qleb _ 0); [injection H as <-; apply balanced_nil|].
  destruct (CodeChunk.textLines c) as [lines|]; [|discriminate H].
  injection H as <-. intros d. cbn [app save_depth].
  rewrite save_depth_app, CodeChunk_draw_lines_balanced. reflexivity.
Qed.

Lemma Node_draw_balanced a n calls : Node_draw a n = Some calls -> balanced calls.
Proof.
  unfold Node_draw. intros H.
  destruct (Qgtb _ 0); [destruct (skullImage a) as [[|]|]|];
    try discriminate H; injection H as <-; intros d; reflexivity.
Qed.

Lemma Link_draw_balanced h l calls : Link_draw h l = Some calls -> balanced calls.
Proof.
  unfold Link_draw. intros H.
  destruct (Link.from l) as [a|]; [|discriminate H].
  destruct (Link.to l) as [b|]; [|discriminate H].
  destruct (h !! a); [|discriminate H]. destruct (h !! b); [|discriminate H].
  injection H as <-. intros d. reflexivity.
Qed.

Lemma Packet_draw_balanced h p calls : Packet_draw h p = Some calls -> balanced calls.
Proof.
  unfold Packet_draw. intros H. destruct (Packet_position h p) as [[x y]|]; [|discriminate H].
  injection H as <-. intros d. reflexivity.
Qed.

Lemma NodeNetworkSystem_draw_balanced a s calls :
  NodeNetworkSystem_draw a s = Some calls -> balanced calls.
Proof.
  unfold NodeNetworkSystem_draw. intros H.
  destruct (forEach_draw (Link_draw _) _) as [c1|] eqn:H1; [|discriminate H].
  destruct (forEach_draw _ (packets _)) as [c2|] eqn:H2; [|discriminate H].
  destruct (forEach_draw _ (nodes _)) as [c3|] eqn:H3; [|discriminate H].
  injection H as <-. apply balanced_app; [|apply balanced_app].
  - eapply forEach_draw_balanced; [|exact H1]. intros l c. apply Link_draw_balanced.
  - eapply forEach_draw_balanced; [|exact H2]. intros r c Hc. cbv beta in Hc.
    destruct (packetHeap s !! r); [|discriminate Hc]. eapply Packet_draw_balanced. exact Hc.
  - eapply forEach_draw_balanced; [|exact H3]. intros r c Hc. cbv beta in Hc.
    destruct (nodeHeap s !! r); [|discriminate Hc]. eapply Node_draw_balanced. exact Hc.
Qed.

Lemma drawBackground_balanced a width height : balanced (drawBackground a width height).
Proof. unfold drawBackground. intros d. destruct (bgImage a) as [[|]|]; reflexivity. Qed.

Lemma MatrixColumn_draw_loop_source fuel count this :
  forall i g calls g',
    MatrixColumn_draw_loop fuel i count this g = Some (calls, g') -> same_source g g'.
Proof.
  induction fuel as [|fuel IH]; intros i g calls g' H; cbn in H.
  - destruct (i <? count)%Z; [discriminate H|]. injection H as <- <-. reflexivity.
  - destruct (i <? count)%Z; [|injection H as <- <-; reflexivity].
    destruct (MatrixColumn_draw_loop fuel _ _ _ _) as [[c1 g1]|] eqn:Hl; [|discriminate H].
    injection H as <- <-. apply IH in Hl. exact Hl.
Qed.

Lemma MatrixRainSystem_draw_source fuel height this g calls g' :
  MatrixRainSystem_draw fuel height this g = Some (calls, g') -> same_source g g'.
Proof.
  unfold MatrixRainSystem_draw. revert g calls g'.
  induction (MatrixRainSystem.columns this) as [|c rest IH]; intros g calls g' H.
  - injection H as <- <-. reflexivity.
  - cbn [MatrixRainSystem_draw_columns] in H.
    destruct (MatrixColumn_draw fuel height c g) as [[c1 g1]|] eqn:H1; [|discriminate H].
    destruct (MatrixRainSystem_draw_columns fuel height rest g1) as [[c2 g2]|] eqn:H2;
      [|discriminate H].
    injection H as <- <-. apply IH in H2.
    unfold MatrixColumn_draw in H1.
    destruct (MatrixColumn_draw_loop _ _ _ _ _) as [[c3 g3]|] eqn:H3; [|discriminate H1].
    injection H1 as <- <-. apply MatrixColumn_draw_loop_source in H3.
    eapply same_source_trans; eassumption.
Qed.

Lemma draw_source fuel a w calls g :
  draw fuel a w = Some (calls, g) -> same_source (rng w) g.
Proof.
  unfold draw. intros H.
  destruct (MatrixRainSystem_draw _ _ _ _) as [[rain g1]|] eqn:Hr; [|discriminate H].
  destruct (CodeChunkSystem_draw _); [|discriminate H].
  destruct (NodeNetworkSystem_draw _ _); [|discriminate H].
  injection H as _ <-. eapply MatrixRainSystem_draw_source. exact Hr.
Qed.

Lemma draw_balanced fuel a w calls g :
  draw fuel a w = Some (calls, g) -> balanced calls.
Proof.
  unfold draw. intros H.
  destruct (MatrixRainSystem_draw _ _ _ _) as [[rain g1]|] eqn:Hr; [|discriminate H].
  destruct (CodeChunkSystem_draw _) as [chunks|] eqn:Hc; [|discriminate H].
  destruct (NodeNetworkSystem_draw _ _) as [net|] eqn:Hn; [|discriminate H].
  injection H as <- _.
  apply MatrixRainSystem_draw_balanced in Hr. apply NodeNetworkSystem_draw_balanced in Hn.
  assert (balanced chunks) as Hch.
  { eapply forEach_draw_balanced; [|exact Hc]. intros c calls. apply CodeChunk_draw_balanced. }
  intros d. cbn [app save_depth].
  rewrite save_depth_app, drawBackground_balanced. cbn [app save_depth].
  rewrite save_depth_app, Hr. cbn [app save_depth].
  rewrite save_depth_app, Hch. apply Hn.
Qed.




Lemma Node_draw_None a n :
  Node_draw a n = None <-> skullImage a = None /\ 0 < Node.hackedAlpha n.
Proof.
  unfold Node_draw. destruct (Qgtb (Node.hackedAlpha n) 0) eqn:E.
  - apply Qgtb_gt in E. destruct (skullImage a) as [[|]|].
    + split; [intros H; discriminate H | intros [H _]; discriminate H].
    + split; [intros H; discriminate H | intros [H _]; discriminate H].
    + split; [intros _; split; [reflexivity | exact E] | reflexivity].
  - apply Qgtb_le in E. split; [intros H; discriminate H|]. intros [_ H]. lra.
Qed.


Lemma NodeNetworkSystem_draw_throws a s :
  skullImage a = None -> highlighted s -> NodeNetworkSystem_draw a s = None.
Proof.
  intros Ha (r & n & Hr & Hn & Hpos). unfold NodeNetworkSystem_draw.
  destruct (forEach_draw (Link_draw _) _); [|reflexivity].
  destruct (forEach_draw _ (packets _)); [|reflexivity].
  rewrite (forEach_draw_throws _ _ r Hr); [reflexivity|].
  rewrite Hn. apply Node_draw_None. auto.
Qed.


Lemma draw_throws fuel a w :
  skullImage a = None -> highlighted (scene w) -> draw fuel a w = None.
Proof.
  intros Ha Hh. unfold draw.
  destruct (MatrixRainSystem_draw _ _ _ _) as [[rain g1]|]; [|reflexivity].
  destruct (CodeChunkSystem_draw _); [|reflexivity].
  rewrite (NodeNetworkSystem_draw_throws a (scene w) Ha Hh). reflexivity.
Qed.


(** ** The main loop *)

Lemma update_canvas dt w w' :
  update dt w = Some w' ->
  canvas_width w' = canvas_width w /\ canvas_height w' = canvas_height w.
Proof.
  unfold update. intros H.
  destruct (MatrixRainSystem.update _ _ _ _ _) as [m g1].
  destruct (CodeChunkSystem.update _ _ _ _ _) as [c g2].
  destruct (NodeNetworkSystem.update _ _ _ _ _) as [[s1 g3]|]; [|discriminate H].
  destruct (HackSystem.update _ _ _ _) as [[[h s2] g4]|]; [|discriminate H].
  injection H as <-. split; reflexivity.
Qed.

Lemma on_resize_canvas fuel width height w w' :
  on_resize fuel width height w = Some w' ->
  canvas_width w' = width /\ canvas_height w' = height.
Proof.
  unfold on_resize. intros H.
  destruct (MatrixRainSystem.reset _ _ _ _ _) as [[m g1]|]; [|discriminate H].
  injection H as <-. split; reflexivity.
Qed.

Lemma time_step_nonneg timestamp p : lastTime p <= timestamp -> 0 <= time_step timestamp p.
Proof.
  intros H. unfold time_step. destruct (Qeq_bool (lastTime p) 0); qdiv; lra.
Qed.

Lemma loop_unfold fuel timestamp p :
  loop fuel timestamp p
  = match update (time_step timestamp p) (world p) with
    | Some w1 =>
        match draw fuel (assets p) w1 with
        | Some (calls, g) =>
            Some (mkPage (mkWorld (canvas_width w1) (canvas_height w1) (matrix w1)
                            (codeChunks w1) (scene w1) (hacks w1) g)
                    (assets p) timestamp,
                  calls)
        | None => None
        end
    | None => None
    end.
Proof. reflexivity. Qed.

Lemma loop_inv fuel timestamp p p' calls :
  page_inv (world p) -> lastTime p <= timestamp ->
  loop fuel timestamp p = Some (p', calls) ->
  page_inv (world p') /\ assets p' = assets p /\ lastTime p' = timestamp /\
  canvas_width (world p') = canvas_width (world p) /\
  canvas_height (world p') = canvas_height (world p) /\
  balanced calls.
Proof.
  intros Hinv Hts H. rewrite loop_unfold in H.
  destruct (update_page_inv _ _ (time_step_nonneg _ _ Hts) Hinv) as (w1 & Hu & Hinv1).
  rewrite Hu in H. destruct (update_canvas _ _ _ Hu) as [Hcw Hch].
  destruct (draw fuel (assets p) w1) as [[calls' g]|] eqn:Hd; [|discriminate H].
  injection H as <- <-. cbn [world assets lastTime canvas_width canvas_height].
  split; [|split; [reflexivity | split; [reflexivity | split; [exact Hcw | split;
    [exact Hch | eapply draw_balanced; exact Hd]]]]].
  apply page_inv_rng; [|exact Hinv1]. eapply draw_source. exact Hd.
Qed.


(** ** Runs of the page *)




Lemma first_page_inv fuel width height a g p :
  unit_range g -> first_page fuel width height a g = Some p ->
  page_inv (world p) /\ assets p = a /\ lastTime p = 0 /\
  canvas_width (world p) = width /\ canvas_height (world p) = height.
Proof.
  intros Hg H. unfold first_page in H.
  destruct (start fuel width height g) as [w|] eqn:Hs; [|discriminate H].
  injection H as <-. cbn [world assets lastTime].
  split; [eapply start_page_inv; eassumption|].
  unfold start in Hs.
  destruct (MatrixRainSystem.new fuel width height g) as [[m g1]|]; [|discriminate Hs].
  injection Hs as <-. repeat split.
Qed.

Lemma handle_inv fuel ev p p' :
  page_inv (world p) ->
  match ev with animation_frame ts => lastTime p <= ts | _ => True end ->
  handle fuel ev p = Some p' ->
  page_inv (world p') /\ assets p' = assets p /\
  lastTime p' = match ev with animation_frame ts => ts | _ => lastTime p end /\
  canvas_width (world p')
  = match ev with window_resize w _ => w | _ => canvas_width (world p) end /\
  canvas_height (world p')
  = match ev with window_resize _ h => h | _ => canvas_height (world p) end.
Proof.
  intros Hinv Hts H. destruct ev as [ts | w h]; cbn [handle] in H.
  - destruct (loop fuel ts p) as [[p1 calls]|] eqn:Hl; [|discriminate H].
    injection H as <-.
    destruct (loop_inv _ _ _ _ _ Hinv Hts Hl) as (H1 & H2 & H3 & H4 & H5 & _). auto.
  - destruct (on_resize fuel w h (world p)) as [w1|] eqn:Hr; [|discriminate H].
    injection H as <-. cbn [world assets lastTime].
    destruct (on_resize_canvas _ _ _ _ _ Hr) as [H4 H5].
    destruct Hinv as (Hinv & Hok & Hdraw).
    split; [|auto]. split; [eapply on_resize_inv; eassumption|].
    split; [|eapply on_resize_drawable; eassumption].
    pose proof Hr as Hr'. unfold on_resize, MatrixRainSystem.reset in Hr'.
    destruct (MatrixRainSystem.reset_loop _ _ _ _ _ _ _) as [[cols g1]|] eqn:Hrun;
      [|discriminate Hr'].
    pose proof (reset_loop_source _ _ _ _ _ _ _ _ _ Hrun) as Hsrc.
    destruct Hok as (Hg & Hok & Hev & Hsp).
    injection Hr' as <-. split; [|split; [|split]]; cbn.
    + eapply same_source_unit_range; eassumption.
    + apply layout_ok_setupLayout.
    + exact Hev.
    + exact Hsp.
Qed.

Lemma handles_inv fuel evs rest :
  forall p p',
    page_inv (world p) -> ordered (lastTime p) (evs ++ rest) ->
    handles fuel evs p = Some p' ->
    page_inv (world p') /\ assets p' = assets p /\ ordered (lastTime p') rest /\
    ((run_fuel (canvas_width (world p)) (canvas_height (world p)) evs <= fuel)%nat ->
     (frame_fuel (canvas_width (world p')) (canvas_height (world p')) <= fuel)%nat).
Proof.
  induction evs as [|ev evs IH]; intros p p' Hinv Hord H; cbn [handles] in H.
  - injection H as <-. cbn [run_fuel]. auto.
  - destruct (handle fuel ev p) as [p1|] eqn:Hh; [|discriminate H].
    assert (match ev with animation_frame ts => lastTime p <= ts | _ => True end) as Hts
      by (destruct ev; [apply Hord | exact I]).
    destruct (handle_inv _ _ _ _ Hinv Hts Hh) as (Hinv1 & Ha1 & Hl1 & Hw1 & Hh1).
    destruct (IH p1 p' Hinv1) as (Hinv' & Ha' & Hord' & Hfuel'); [|exact H|].
    { rewrite Hl1. destruct ev; [apply Hord | exact Hord]. }
    split; [exact Hinv'|]. split; [congruence|]. split; [exact Hord'|].
    intros Hfuel. apply Hfuel'. rewrite Hw1, Hh1.
    destruct ev; cbn [run_fuel] in Hfuel; [exact Hfuel | lia].
Qed.

Lemma page_run_inv fuel width height a g evs rest p :
  unit_range g -> ordered 0 (evs ++ rest) ->
  page_run fuel width height a g evs = Some p ->
  page_inv (world p) /\ assets p = a /\ ordered (lastTime p) rest /\
  ((run_fuel width height evs <= fuel)%nat ->
   (frame_fuel (canvas_width (world p)) (canvas_height (world p)) <= fuel)%nat).
Proof.
  intros Hg Hord H. unfold page_run in H.
  destruct (first_page fuel width height a g) as [p0|] eqn:H0; [|discriminate H].
  destruct (first_page_inv _ _ _ _ _ _ Hg H0) as (Hinv0 & Ha0 & Hl0 & Hw0 & Hh0).
  destruct (handles_inv fuel evs rest p0 p Hinv0) as (Hinv & Ha & Hord' & Hfuel);
    [rewrite Hl0; exact Hord | exact H |].
  rewrite Hw0, Hh0 in Hfuel. split; [exact Hinv|]. split; [congruence|]. auto.
Qed.






Lemma on_resize_page_ok fuel width height w w' :
  on_resize fuel width height w = Some w' -> page_ok w ->
  page_ok w' /\ hacks w' = hacks w.
Proof.
  intros H (Hg & Hok & Hev & Hsp). unfold on_resize, MatrixRainSystem.reset in H.
  destruct (MatrixRainSystem.reset_loop _ _ _ _ _ _ _) as [[cols g1]|] eqn:Hrun;
    [|discriminate H].
  pose proof (reset_loop_source _ _ _ _ _ _ _ _ _ Hrun) as Hsrc.
  injection H as <-. split; [|reflexivity]. split; [|split; [|split]]; cbn.
  - eapply same_source_unit_range; eassumption.
  - apply layout_ok_setupLayout.
  - exact Hev.
  - exact Hsp.
Qed.

Lemma first_update_highlights_hacker dt w w1 :
  page_ok w -> hacks w = HackSystem.new -> 0 <= dt ->
  update dt w = Some w1 -> highlighted (scene w1).
Proof.
  intros (Hg0 & Hok0 & _ & _) Hnew Hdt Hu. unfold update in Hu. rewrite Hnew in Hu.
  pose proof (MatrixRainSystem_update_source dt (canvas_width w) (canvas_height w)
                (matrix w) (rng w)) as H1.
  destruct (MatrixRainSystem.update _ _ _ _ _) as [m1 g1].
  pose proof (CodeChunkSystem_update_source dt (canvas_width w) (canvas_height w)
                (codeChunks w) g1) as H2.
  destruct (CodeChunkSystem.update _ _ _ _ _) as [c g2]. cbn [fst snd] in *.
  assert (unit_range g2) as Hg2.
  { eapply same_source_unit_range; [exact H2|].
    eapply same_source_unit_range; [exact H1 | exact Hg0]. }
  destruct (NodeNetworkSystem_update_total dt (canvas_width w) (canvas_height w)
              (scene w) g2 Hg2 Hok0) as (s1 & g3 & Hn & Hok1).
  rewrite Hn in Hu.
  destruct (first_hack_update dt s1 g3 Hdt) as (e & s2 & g4 & Hh & He & _).
  rewrite Hh in Hu. injection Hu as <-. cbn [scene].
  pose proof (layout_ok_hacker s1 Hok1) as Hhk.
  unfold HackEvent.new, bind, ret, Math_random in He. cbn [fst snd] in He.
  unfold HackEvent.update in He. cbn [HackEvent.state HackEvent.hacker] in He.
  destruct (find_id (nodeHeap s1) (nodes (network s1)) "hacker") as [r|] eqn:Hf;
    [|congruence].
  destruct (find_id_Some _ _ _ _ Hf) as (Hin & n & Hlook & _).
  assert (s2 = HackEvent.mark r s1) as ->
    by (destruct (Qgtb _ 0.5); injection He as _ <-; reflexivity).
  exists r, (Node.set_hackedAlpha 1 n). split; [exact Hin|].
  split; [apply mark_lookup_eq; exact Hlook|]. cbn. lra.
Qed.

Lemma first_frame_throws_without_skull fuel timestamp p :
  page_ok (world p) -> hacks (world p) = HackSystem.new -> lastTime p = 0 ->
  skullImage (assets p) = None -> loop fuel timestamp p = None.
Proof.
  intros Hok Hnew Hlast Ha. rewrite loop_unfold.
  destruct (update _ (world p)) as [w1|] eqn:Hu; [|reflexivity].
  rewrite (draw_throws fuel (assets p) w1 Ha); [reflexivity|].
  eapply first_update_highlights_hacker; [exact Hok | exact Hnew | | exact Hu].
  unfold time_step. rewrite Hlast. change (Qeq_bool 0 0) with true. cbv iota.
  qdiv. lra.
Qed.

Lemma handles_without_skull fuel evs :
  forall p,
    page_ok (world p) -> hacks (world p) = HackSystem.new -> lastTime p = 0 ->
    skullImage (assets p) = None ->
    (exists timestamp, In (animation_frame timestamp) evs) ->
    handles fuel evs p = None.
Proof.
  induction evs as [|ev evs IH]; intros p Hok Hnew Hlast Ha [ts Hin]; [destruct Hin|].
  cbn [handles]. destruct ev as [ts' | w h]; cbn [handle].
  - rewrite (first_frame_throws_without_skull fuel ts' p Hok Hnew Hlast Ha). reflexivity.
  - destruct (on_resize fuel w h (world p)) as [w1|] eqn:Hr; [|reflexivity].
    destruct (on_resize_page_ok _ _ _ _ _ Hr Hok) as [Hok1 Hh1].
    apply IH; cbn [world assets lastTime]; try assumption.
    + congruence.
    + exists ts. destruct Hin as [Hin | Hin]; [discriminate Hin | exact Hin].
Qed.

(** X14.  The skull image is not optional: if the page has no skull image
    element, no animation frame ever completes.  Whatever the timestamps,
    the size of the window, the resizes that come first and the random
    numbers, the first frame creates a hack event, which highlights the
    hacker node at once, and [Node.draw] reads [skullImage.complete] of
    [null]: the frame throws and the next one is never requested. *)
Theorem missing_skull_image_stops_first_frame
    (fuel : nat) (width height : Q) (a : Assets) (g : Rng) (evs : list PageEvent)
    (timestamp : Q) :
  unit_range g -> skullImage a = None -> In (animation_frame timestamp) evs ->
  page_run fuel width height a g evs = None.
Proof.
  intros Hg Ha Hin. unfold page_run, first_page.
  destruct (start fuel width height g) as [w0|] eqn:Hs; [|reflexivity].
  apply handles_without_skull; cbn [world assets lastTime].
  - eapply start_page_ok; eassumption.
  - unfold start in Hs.
    destruct (MatrixRainSystem.new fuel width height g) as [[m g0]|]; [|discriminate Hs].
    injection Hs as <-. reflexivity.
  - reflexivity.
  - exact Ha.
  - exists timestamp. exact Hin.
Qed.

Lemma missing_skull_image_stops_first_frame_witness :
  page_run 10 64 48 (mkAssets (Some true) None) demo_rng
    [window_resize 32 32; animation_frame 16] = None.
Proof.
  apply (missing_skull_image_stops_first_frame 10 64 48 (mkAssets (Some true) None)
           demo_rng [window_resize 32 32; animation_frame 16] 16).
  - apply demo_rng_unit_range.
  - reflexivity.
  - cbn. auto.
Defined.

(** X15.  Whatever the state of the page, a frame that [draw()] completes
    leaves the stack of saved canvas states as it found it: every [save] is
    followed by its [restore] and no [restore] comes without a [save].
    Drawing changes nothing of the page but the position in the random
    source, from which the rain takes its digits. *)
Theorem draw_balances_save_and_restore
    (fuel : nat) (a : Assets) (w : World) (calls : list Call) (g : Rng) :
  draw fuel a w = Some (calls, g) ->
  (forall d : nat, save_depth calls d = Some d) /\ source g = source (rng w).
Proof.
  intros H. split; [eapply draw_balanced; exact H | eapply draw_source; exact H].
Qed.

Lemma draw_balances_save_and_restore_witness :
  exists calls g,
    option_map (draw 10 (mkAssets None (Some true))) (demo_run [0.1; 0.1]) = Some (Some (calls, g)) /\
    save_depth calls 0 = Some 0%nat.
Proof.
  destruct (demo_run [0.1; 0.1]) as [w|] eqn:Hrun; [|vm_compute in Hrun; discriminate Hrun].
  assert (option_map (fun w => match draw 10 (mkAssets None (Some true)) w with
                               | Some _ => true
                               | None => false
                               end) (demo_run [0.1; 0.1]) = Some true) as Hd
    by (vm_compute; reflexivity).
  rewrite Hrun in Hd. cbn [option_map] in *.
  destruct (draw 10 (mkAssets None (Some true)) w) as [[calls g]|] eqn:Hdraw; [|discriminate Hd].
  exists calls, g. split; [reflexivity|].
  apply (draw_balances_save_and_restore 10 (mkAssets None (Some true)) w calls g Hdraw).
Defined.

(** ** What a frame paints *)





(** X18.  [MatrixColumn.draw(ctx, height)] paints a trail of
    [ceil(height / 16) + 5] glyphs above the head of the column and takes
    that many numbers from the random source, one per glyph: glyph [k] is
    '1' if its number exceeds 0.5 and '0' otherwise, at [y - 16 k], with
    opacity [1 - k / count].  The opacity is 1 at the head and stays
    positive, so the [Math.max(alpha, 0)] of the code never applies.  When
    the count is not positive nothing is painted. *)
Theorem matrix_column_draws_fading_trail
    (fuel : nat) (height : Q) (this : MatrixColumn.obj) (g : Rng) :
  (draw_fuel height <= fuel)%nat ->
  let count := (Math_ceil (height / 16) + 5)%Z in
  exists calls g',
    MatrixColumn_draw fuel height this g
    = Some (set_font "16px monospace" :: calls, g') /\
    source g' = source g /\
    cursor g' = (cursor g + Z.to_nat count)%nat /\
    length calls = (2 * Z.to_nat count)%nat /\
    forall k : nat, (k < Z.to_nat count)%nat ->
      let alpha := 1 - inject_Z (Z.of_nat k) / inject_Z count in
      0 < alpha /\ alpha <= 1 /\
      calls !! (2 * k)%nat = Some (set_fillStyle (Rgba 0 255 120 alpha)) /\
      calls !! (2 * k + 1)%nat
      = Some (fillText
                (if Qgtb (source g (cursor g + k)%nat) 0.5 then "1" else "0")%string
                (MatrixColumn.x this)
                (MatrixColumn.y this - inject_Z (Z.of_nat k) * 16)).
Proof.
  intros Hfuel count. unfold MatrixColumn_draw. fold count.
  destruct (MatrixColumn_draw_loop_spec count this fuel 0 g)
    as (calls & g' & Hrun & Hsrc & Hcur & Hlen & _ & Hk);
    [lia | rewrite Z.sub_0_r; exact Hfuel |].
  rewrite Z.sub_0_r in *. rewrite Hrun. exists calls, g'.
  split; [reflexivity|]. split; [exact Hsrc|]. split; [exact Hcur|].
  split; [exact Hlen|]. intros k Hlt. cbv zeta.
  destruct (Hk k Hlt) as [H1 H2]. cbn [Z.add] in H1, H2.
  assert (0 <= inject_Z (Z.of_nat k) / inject_Z count /\
          inject_Z (Z.of_nat k) / inject_Z count < 1) as [Hq0 Hq1].
  { assert (0 < inject_Z count) as Hc
      by (change 0 with (inject_Z 0); rewrite <- Zlt_Qlt; lia).
    split.
    - apply Qle_shift_div_l; [exact Hc|]. rewrite Qmult_0_l.
      change 0 with (inject_Z 0). rewrite <- Zle_Qle. lia.
    - apply Qlt_shift_div_r; [exact Hc|]. rewrite Qmult_1_l. rewrite <- Zlt_Qlt. lia. }
  split; [lra|]. split; [lra|]. split; [exact H1 | exact H2].
Qed.

Lemma matrix_column_draws_fading_trail_witness :
  exists calls g',
    MatrixColumn_draw 8 48 (MatrixColumn.mk 32 100 60) demo_rng
    = Some (set_font "16px monospace" :: calls, g') /\
    cursor g' = 8%nat /\ length calls = 16%nat.
Proof.
  destruct (matrix_column_draws_fading_trail 8 48 (MatrixColumn.mk 32 100 60) demo_rng)
    as (calls & g' & Hrun & _ & Hcur & Hlen & _); [vm_compute; lia|].
  exists calls, g'. split; [exact Hrun|]. split; [exact Hcur | exact Hlen].
Defined.

Lemma CodeChunk_draw_lines_lookup (x y : Q) (lines : list string) :
  forall (offsetY : Q) (k : nat) (line : string),
    lines !! k = Some line ->
    exists y', CodeChunk_draw_lines lines x y offsetY !! k = Some (fillText line x y') /\
               y' == y + offsetY + 16 * inject_Z (Z.of_nat k).
Proof.
  induction lines as [|l rest IH]; intros offsetY k line Hk; [discriminate Hk|].
  destruct k as [|k]; cbn [CodeChunk_draw_lines].
  - injection Hk as <-. eexists. split; [reflexivity|]. cbn. ring.
  - destruct (IH (offsetY + 16) k line Hk) as (y' & Hy & Heq).
    exists y'. split; [exact Hy|]. rewrite Heq, Nat2Z.inj_succ. unfold Z.succ.
    rewrite inject_Z_plus. ring.
Qed.

Lemma CodeChunk_draw_lines_length (x y : Q) (lines : list string) :
  forall offsetY, length (CodeChunk_draw_lines lines x y offsetY) = length lines.
Proof.
  induction lines as [|l rest IH]; intros offsetY; [reflexivity|].
  cbn [CodeChunk_draw_lines length]. now rewrite IH.
Qed.

(** X19.  [CodeChunk.draw(ctx)] paints nothing, and touches no canvas
    state, for a chunk whose opacity is zero or negative (a chunk that
    fades out goes below zero before it is removed).  Otherwise it paints
    the lines of the text in order, line [k] at [(x, y + 16 k)], with the
    chunk's opacity as global alpha, between a [save] and a [restore]. *)
Theorem code_chunk_draw_paints_lines_sixteen_apart
    (this : CodeChunk.obj) (lines : list string) :
  CodeChunk.textLines this = Some lines ->
  (CodeChunk.alpha this <= 0 -> CodeChunk_draw this = Some []) /\
  (0 < CodeChunk.alpha this ->
   exists body,
     CodeChunk_draw this
     = Some ([ save; set_globalAlpha (CodeChunk.alpha this); set_font "14px monospace";
               set_fillStyle (Css "#00ff99") ] ++ body ++ [ restore ]) /\
     length body = length lines /\
     forall (k : nat) (line : string), lines !! k = Some line ->
       exists y', body !! k = Some (fillText line (CodeChunk.x this) y') /\
                  y' == CodeChunk.y this + 16 * inject_Z (Z.of_nat k)).
Proof.
  intros Hl. unfold CodeChunk_draw. rewrite Hl. split.
  - intros Ha. apply Qleb_le in Ha. rewrite Ha. reflexivity.
  - intros Ha. destruct (Qleb (CodeChunk.alpha this) 0) eqn:E;
      [apply Qleb_le in E; lra|].
    eexists. split; [reflexivity|]. split; [apply CodeChunk_draw_lines_length|].
    intros k line Hk.
    destruct (CodeChunk_draw_lines_lookup (CodeChunk.x this) (CodeChunk.y this) lines 0
                k line Hk) as (y' & Hy & Heq).
    exists y'. split; [exact Hy|]. rewrite Heq. ring.
Qed.

Lemma code_chunk_draw_paints_lines_sixteen_apart_witness :
  CodeChunk_draw
    (CodeChunk.mk 1 30 (- 0.1) CodeChunk.fadeOut 100 200
       (Some [ "const x = 1;"; "return x;" ]%string) (Some 0))
  = Some [].
Proof.
  destruct (code_chunk_draw_paints_lines_sixteen_apart
              (CodeChunk.mk 1 30 (- 0.1) CodeChunk.fadeOut 100 200
                 (Some [ "const x = 1;"; "return x;" ]%string) (Some 0))
              [ "const x = 1;"; "return x;" ]%string eq_refl) as [H _].
  apply H. cbn. lra.
Defined.

(** ** Starting the loop *)

Lemma image_event_listening s img : listening (image_event s img) = listening s.
Proof. unfold image_event. destruct (existsb _ _); reflexivity. Qed.

Lemma image_done_ok s : gate_ok s -> gate_ok (image_done s).
Proof.
  intros [H1 H0]. unfold gate_ok, image_done. cbn [remaining requested].
  destruct (remaining s - 1 =? 0)%Z eqn:E.
  - apply Z.eqb_eq in E. split; [intros _; rewrite H0 by lia; reflexivity | lia].
  - apply Z.eqb_neq in E. split; [intros H; apply H1; lia | intros H; apply H0; lia].
Qed.

Lemma image_events_spec (evs : list Image) :
  forall s : Gate,
    gate_ok s ->
    remaining (image_events evs s) = (remaining s - Z.of_nat (delivered s evs))%Z /\
    gate_ok (image_events evs s).
Proof.
  induction evs as [|img evs IH]; intros s Hok.
  - unfold image_events, delivered. cbn. split; [lia | exact Hok].
  - change (image_events (img :: evs) s) with (image_events evs (image_event s img)).
    assert (gate_ok (image_event s img)) as Hok1
      by (unfold image_event; destruct (existsb _ _); [now apply image_done_ok | exact Hok]).
    destruct (IH _ Hok1) as [Hr Hq]. split; [|exact Hq]. rewrite Hr.
    unfold delivered. rewrite image_event_listening. cbn [List.filter].
    unfold image_event. destruct (existsb (Image_eqb img) (listening s));
      cbn [length remaining image_done]; lia.
Qed.

(** X20.  [startWhenReady()] starts the loop at most once, whatever [load]
    and [error] events follow and however often they fire.  It gives
    listeners exactly to the images that are on the page and not yet
    complete, and the loop is started exactly when the number of events
    that reached a listener is at least the number of these images: at
    once if there is none, otherwise by the event that brings the counter
    to zero. *)
Theorem startWhenReady_starts_the_loop_at_most_once (a : Assets) (evs : list Image) :
  let s0 := startWhenReady a in
  let s := image_events evs s0 in
  listening s0
  = (match bgImage a with Some false => [bg_image] | _ => [] end)
    ++ (match skullImage a with Some false => [skull_image] | _ => [] end) /\
  (requested s <= 1)%nat /\
  (requested s = 1%nat <-> (length (listening s0) <= delivered s0 evs)%nat).
Proof.
  intros s0 s.
  assert (remaining s0 = Z.of_nat (length (listening s0)) /\
          ((remaining s0 <= 0)%Z -> requested s0 = 1%nat) /\
          ((0 < remaining s0)%Z -> requested s0 = 0%nat) /\
          listening s0
          = (match bgImage a with Some false => [bg_image] | _ => [] end)
            ++ (match skullImage a with Some false => [skull_image] | _ => [] end))
    as (Hrem & H1 & H0 & Hlist).
  { subst s0. unfold startWhenReady.
    destruct (bgImage a) as [[|]|]; destruct (skullImage a) as [[|]|];
      (split; [reflexivity|]);
      (split; [intros H; vm_compute in H |- *;
               first [reflexivity | exfalso; apply H; reflexivity]|]);
      (split; [intros H; vm_compute in H |- *;
               first [reflexivity | discriminate H] | reflexivity]). }
  split; [exact Hlist|].
  destruct (image_events_spec evs s0 (conj H1 H0)) as (Hr & Hq1 & Hq0).
  fold s in Hr, Hq1, Hq0.
  destruct (Z_le_gt_dec (remaining s) 0) as [Hle | Hgt].
  - rewrite (Hq1 Hle). split; [lia|]. split; [intros _; lia | reflexivity].
  - rewrite (Hq0 ltac:(lia)). split; [lia|]. split; [discriminate | lia].
Qed.

(** ** The hack system *)

Lemma forEach_event_length dt evs :
  forall s evs' s',
    HackSystem.forEach_event dt evs s = Some (evs', s') -> length evs' = length evs.
Proof.
  induction evs as [|e rest IH]; intros s evs' s' H; cbn in H.
  - injection H as <- _. reflexivity.
  - destruct (HackEvent.update dt e s) as [[e1 s1]|]; [|discriminate H].
    destruct (HackSystem.forEach_event dt rest s1) as [[rest1 s2]|] eqn:Hr;
      [|discriminate H].
    injection H as <- _. cbn [length]. f_equal. eapply IH. exact Hr.
Qed.

(** X21.  One [HackSystem.update(dt)] never leaves a finished event in
    the list, and it creates at most one event however long the time step:
    when the cooldown has not run out it only counts down, takes no random
    number and creates nothing; when it has run out, the new cooldown is in
    [5, 15) whatever the time that was overdue. *)
Theorem hack_system_update_spawns_at_most_one_event
    (dt : Q) (this this' : HackSystem.obj) (s s' : Scene) (g g' : Rng) :
  unit_range g ->
  HackSystem.update dt this s g = Some (this', s', g') ->
  Forall (fun e => HackEvent.state e <> HackEvent.done) (HackSystem.events this') /\
  (length (HackSystem.events this') <= length (HackSystem.events this) + 1)%nat /\
  (0 < HackSystem.cooldown this - dt ->
   HackSystem.cooldown this' = HackSystem.cooldown this - dt /\ g' = g /\
   (length (HackSystem.events this') <= length (HackSystem.events this))%nat) /\
  (HackSystem.cooldown this - dt <= 0 ->
   5 <= HackSystem.cooldown this' /\ HackSystem.cooldown this' < 15).
Proof.
  intros Hg H. unfold HackSystem.update, ebind, lift, throw, ret in H.
  destruct (HackSystem.spawn dt this s g) as [this1 g1] eqn:Hsp.
  destruct (HackSystem.forEach_event dt (HackSystem.events this1) s)
    as [[evs s1]|] eqn:Hrun; [|discriminate H].
  injection H as <- <- <-. cbn [HackSystem.events HackSystem.cooldown].
  apply forEach_event_length in Hrun.
  pose proof (filter_length_le (fun e => negb (HackEvent.isDone e)) evs) as Hfl.
  assert ((length (HackSystem.events this1) <= length (HackSystem.events this) + 1)%nat /\
          (0 < HackSystem.cooldown this - dt ->
           HackSystem.cooldown this1 = HackSystem.cooldown this - dt /\ g1 = g /\
           length (HackSystem.events this1) = length (HackSystem.events this)) /\
          (HackSystem.cooldown this - dt <= 0 ->
           5 <= HackSystem.cooldown this1 /\ HackSystem.cooldown this1 < 15))
    as (Hlen & Hpos & Hneg).
  { unfold HackSystem.spawn, bind, ret, Math_random in Hsp.
    destruct (Qleb (HackSystem.cooldown this - dt) 0) eqn:E.
    - apply Qleb_le in E. destruct (HackEvent.new s _) as [e g2].
      injection Hsp as <- <-. cbn [HackSystem.events HackSystem.cooldown].
      rewrite length_app. cbn [length]. split; [lia|]. split; [intros; lra|].
      intros _. destruct (Hg (cursor g)) as [Hr0 Hr1]. split; lra.
    - apply Qleb_gt in E. injection Hsp as <- <-.
      cbn [HackSystem.events HackSystem.cooldown]. split; [lia|].
      split; [intros _; auto | intros; lra]. }
  split.
  - apply List.Forall_forall. intros e He. apply filter_In in He as [_ He].
    unfold HackEvent.isDone in He. destruct (HackEvent.state e); try discriminate.
  - split; [lia|]. split; [|exact Hneg].
    intros Hc. destruct (Hpos Hc) as (H1 & H2 & H3). split; [exact H1|].
    split; [exact H2 | lia].
Qed.

Lemma hack_system_update_spawns_at_most_one_event_witness :
  exists this' s' g',
    HackSystem.update 100 HackSystem.new scene0 demo_rng = Some (this', s', g') /\
    (length (HackSystem.events this') <= 1)%nat /\
    5 <= HackSystem.cooldown this' /\ HackSystem.cooldown this' < 15.
Proof.
  destruct (HackSystem.update 100 HackSystem.new scene0 demo_rng)
    as [[[this' s'] g']|] eqn:Hu; [|vm_compute in Hu; discriminate Hu].
  exists this', s', g'. split; [reflexivity|].
  destruct (hack_system_update_spawns_at_most_one_event 100 HackSystem.new this'
              scene0 s' demo_rng g' demo_rng_unit_range Hu) as (_ & Hlen & _ & Hcool).
  split; [exact Hlen|]. apply Hcool. cbn. lra.
Defined.

(** ** A witness for the frames that never throw *)

Lemma reachable_never_throws_witness :
  exists w, demo_run [0.1; 0.2] = Some w /\ exists w', update 0.3 w = Some w'.
Proof.
  destruct (demo_run [0.1; 0.2]) as [w|] eqn:Hrun; [|vm_compute in Hrun; discriminate Hrun].
  exists w. split; [reflexivity|].
  apply (reachable_never_throws w).
  apply (demo_run_reachable [0.1; 0.2] w); [|exact Hrun].
  repeat constructor; lra.
Defined.

(** X22.  The bounds hold at every paint of a run of the page, with the
    drawing and the resizes in between the updates: every node object, of
    the current layout or of a former one, has its highlight in [0, 1];
    every active packet is an object of the store with [0 <= t < 1]; the
    network has the nine nodes of the layout; every live hack event has a
    target; and the images of the page are those of the start. *)
Theorem page_run_keeps_highlights_and_packets_in_range
    (fuel : nat) (width height : Q) (a : Assets) (g : Rng) (evs : list PageEvent)
    (p : Page) :
  unit_range g -> ordered 0 evs ->
  page_run fuel width height a g evs = Some p ->
  assets p = a /\
  Forall (fun n => 0 <= Node.hackedAlpha n /\ Node.hackedAlpha n <= 1)
    (nodeHeap (scene (world p))) /\
  Forall (fun r => exists pk, packetHeap (scene (world p)) !! r = Some pk /\
                              0 <= Packet.t pk /\ Packet.t pk < 1)
    (packets (network (scene (world p)))) /\
  map (fun r => option_map Node.id (nodeHeap (scene (world p)) !! r))
    (nodes (network (scene (world p))))
  = map Some [ "hacker"; "server"; "desktop1"; "desktop2"; "router"; "laptop1";
               "phone"; "iot"; "cloud" ]%string /\
  Forall (fun e => HackEvent.target e <> None) (HackSystem.events (hacks (world p))).
Proof.
  intros Hg Hord Hrun. rewrite <- (app_nil_r evs) in Hord.
  destruct (page_run_inv _ _ _ _ _ _ _ _ Hg Hord Hrun)
    as ((((Hn & _ & Hact) & _) & (_ & Hok & Hev & _) & _) & Ha & _).
  split; [exact Ha|]. split; [exact Hn|]. split; [exact Hact|].
  split; [exact Hok | exact Hev].
Qed.

Lemma page_run_keeps_highlights_and_packets_in_range_witness :
  exists p,
    page_run 10 64 48 (mkAssets None (Some true)) demo_rng
      [animation_frame 16; window_resize 32 32; animation_frame 700] = Some p /\
    Forall (fun n => 0 <= Node.hackedAlpha n /\ Node.hackedAlpha n <= 1)
      (nodeHeap (scene (world p))).
Proof.
  destruct (page_run 10 64 48 (mkAssets None (Some true)) demo_rng
              [animation_frame 16; window_resize 32 32; animation_frame 700])
    as [p|] eqn:Hrun; [|vm_compute in Hrun; discriminate Hrun].
  exists p. split; [reflexivity|].
  apply (page_run_keeps_highlights_and_packets_in_range 10 64 48
           (mkAssets None (Some true)) demo_rng
           [animation_frame 16; window_resize 32 32; animation_frame 700] p).
  - apply demo_rng_unit_range.
  - cbn. repeat split; lra.
  - exact Hrun.
Defined.

(** ** Background traffic *)

Lemma map_NoDup_eq {A B : Type} (f : A -> B) (l : list A) (x y : A) :
  List.NoDup (map f l) -> In x l -> In y l -> f x = f y -> x = y.
Proof.
  induction l as [|a l IH]; cbn [map]; intros Hnd Hx Hy Hf; [destruct Hx|].
  inversion Hnd as [|? ? Hnotin Hnd']; subst.
  destruct Hx as [->|Hx]; destruct Hy as [->|Hy]; auto.
  - exfalso. apply Hnotin. rewrite Hf. apply in_map. exact Hy.
  - exfalso. apply Hnotin. rewrite <- Hf. apply in_map. exact Hx.
Qed.

Lemma find_id_layout s r n :
  layout_ok s -> In r (nodes (network s)) -> nodeHeap s !! r = Some n ->
  find_id (nodeHeap s) (nodes (network s)) (Node.id n) = Some r.
Proof.
  intros Hok Hr Hn.
  destruct (find_id (nodeHeap s) (nodes (network s)) (Node.id n)) as [r'|] eqn:Hf.
  - destruct (find_id_Some _ _ _ _ Hf) as (Hr' & n' & Hn' & Hid). f_equal.
    apply (map_NoDup_eq (fun r => option_map Node.id (nodeHeap s !! r))
             (nodes (network s))); [|exact Hr' | exact Hr|].
    + unfold layout_ok, node_ids in Hok. rewrite Hok.
      repeat constructor; cbn; intuition discriminate.
    + cbv beta. rewrite Hn, Hn'. cbn. congruence.
  - exfalso. unfold find_id in Hf. pose proof (find_none _ _ Hf r Hr) as Hno.
    assert (has_id (nodeHeap s) (Node.id n) r = true) as Hyes
      by (apply has_id_true; now exists n).
    congruence.
Qed.

Lemma traffic_due dt s g :
  unit_range g -> layout_ok s -> normalTrafficTimer (network s) - dt <= 0 ->
  exists router target nr nt,
    In router (nodes (network s)) /\ In target (nodes (network s)) /\
    nodeHeap s !! router = Some nr /\ Node.id nr = "router"%string /\
    nodeHeap s !! target = Some nt /\
    Node.id nt <> "router"%string /\ Node.id nt <> "hacker"%string /\
    NodeNetworkSystem.traffic dt s g
    = Some (mkScene (nodeHeap s)
              (packetHeap s
               ++ [ Packet.new (Link.mk (Some router) (Some target)) "#00ff88"
                      (120 + source g (S (S (cursor g))) * 120);
                    Packet.new (Link.mk (Some target) (Some router)) "#00ff88"
                      (120 + source g (S (S (S (cursor g)))) * 120) ])
              (mkNodeNetwork (nodes (network s)) (links (network s))
                 (packets (network s)
                  ++ [ length (packetHeap s); S (length (packetHeap s)) ])
                 (0.3 + source g (cursor g) * 0.7)),
            mkRng (source g) (S (S (S (S (cursor g)))))).
Proof.
  intros Hg Hok Hdue.
  unfold NodeNetworkSystem.traffic, ebind, lift, throw, ret.
  apply Qleb_le in Hdue. rewrite Hdue. cbn [Math_random].
  match goal with
  | |- context [find_id (nodeHeap ?s1) _ "router"] =>
      assert (layout_ok s1) as Hok1 by exact Hok; set (s1' := s1) in *
  end.
  destruct (layout_ok_router s1' Hok1) as (router & nr & Hfind & Hnr).
  destruct (find_id_Some _ _ _ _ Hfind) as (Hrin & nr' & Hnr' & Hrid).
  rewrite Hnr in Hnr'. injection Hnr' as <-.
  pose proof (layout_ok_others s1' Hok1) as Hothers.
  rewrite Hfind.
  destruct (NodeNetworkSystem.others s1') as [|o os] eqn:Ho; [congruence|].
  cbn [source cursor].
  destruct (array_get_random (o :: os) (source g (S (cursor g)))
              (proj1 (Hg _)) (proj2 (Hg _)) ltac:(discriminate))
    as (target & Hget & Hin).
  rewrite Hget. rewrite <- Ho in Hin. unfold NodeNetworkSystem.others in Hin.
  apply filter_In in Hin as [Htin Hf]. apply andb_true_iff in Hf as [Hf1 Hf2].
  apply negb_true_iff in Hf1, Hf2.
  destruct (layout_ok_valid s1' target Hok1 Htin) as [nt Hnt].
  unfold has_id in Hf1, Hf2. rewrite Hnt in Hf1, Hf2.
  apply String.eqb_neq in Hf1, Hf2.
  rewrite Hnr, Hnt.
  pose proof (find_id_layout s1' router nr Hok1 Hrin Hnr) as Hfr.
  pose proof (find_id_layout s1' target nt Hok1 Htin Hnt) as Hft.
  exists router, target, nr, nt.
  split; [exact Hrin|]. split; [exact Htin|]. split; [exact Hnr|].
  split; [exact Hrid|]. split; [exact Hnt|]. split; [exact Hf1|]. split; [exact Hf2|].
  unfold NodeNetworkSystem.sendPacket at 2. rewrite Hfr, Hft.
  unfold NodeNetworkSystem.sendPacket, NodeNetworkSystem.push_packet.
  cbn [nodeHeap network nodes packetHeap links packets normalTrafficTimer].
  change (nodeHeap s1') with (nodeHeap s) in *.
  change (nodes (network s1')) with (nodes (network s)) in *.
  rewrite Hfr, Hft. subst s1'.
  cbn [nodeHeap network nodes packetHeap links packets normalTrafficTimer].
  rewrite <- !app_assoc, length_app. cbn [app length].
  replace (length (packetHeap s) + 1)%nat with (S (length (packetHeap s))) by lia.
  reflexivity.
Qed.

Lemma forEach_ref_lookup_other {A : Type} (m : A -> A) (k : nat) (refs : list ref) :
  Forall (fun r => r <> k) refs ->
  forall h, forEach_ref m refs h !! k = h !! k.
Proof.
  unfold forEach_ref. induction 1 as [|r rest Hr _ IH]; intros h; [reflexivity|].
  cbn [fold_left]. rewrite IH. apply list_lookup_alter_ne. exact Hr.
Qed.

(** X23.  Background traffic comes in round trips.  When the traffic timer
    has not run out, [NodeNetworkSystem.update] creates no packet, takes no
    random number and only counts the timer down.  When it has run out, in
    a network laid out by [setupLayout], the update creates exactly two
    packets, of color '#00ff88': one from the router to a node that is
    neither the router nor the hacker, and one back from that node to the
    router, each with its own speed in [120, 240) and already advanced by
    this frame's time step; the timer is set anew in [0.3, 1) and four
    random numbers are taken, whatever the time that was overdue. *)
Theorem traffic_comes_in_round_trips
    (dt width height : Q) (s s' : Scene) (g g' : Rng) :
  unit_range g -> layout_ok s -> scene_inv s ->
  NodeNetworkSystem.update dt width height s g = Some (s', g') ->
  (0 < normalTrafficTimer (network s) - dt ->
   length (packetHeap s') = length (packetHeap s) /\ g' = g /\
   normalTrafficTimer (network s') = normalTrafficTimer (network s) - dt) /\
  (normalTrafficTimer (network s) - dt <= 0 ->
   exists router target nr nt p1 p2,
     length (packetHeap s') = (length (packetHeap s) + 2)%nat /\
     packetHeap s' !! length (packetHeap s) = Some p1 /\
     packetHeap s' !! S (length (packetHeap s)) = Some p2 /\
     Packet.link p1 = Link.mk (Some router) (Some target) /\
     Packet.link p2 = Link.mk (Some target) (Some router) /\
     In router (nodes (network s')) /\ In target (nodes (network s')) /\
     nodeHeap s' !! router = Some nr /\ Node.id nr = "router"%string /\
     nodeHeap s' !! target = Some nt /\
     Node.id nt <> "router"%string /\ Node.id nt <> "hacker"%string /\
     Packet.color p1 = "#00ff88"%string /\ Packet.color p2 = "#00ff88"%string /\
     (120 <= Packet.speed p1 /\ Packet.speed p1 < 240) /\
     (120 <= Packet.speed p2 /\ Packet.speed p2 < 240) /\
     Packet.t p1 == Packet.speed p1 * dt / 1000 /\
     Packet.t p2 == Packet.speed p2 * dt / 1000 /\
     (0.3 <= normalTrafficTimer (network s') /\ normalTrafficTimer (network s') < 1) /\
     cursor g' = (cursor g + 4)%nat).
Proof.
  intros Hg Hok (_ & _ & Hact) H.
  unfold NodeNetworkSystem.update, ebind, lift, ret in H.
  match type of H with
  | context [NodeNetworkSystem.traffic dt ?s1 g] =>
      assert (layout_ok s1) as Hok1;
      [|set (s1' := s1) in *]
  end.
  { eapply layout_ok_frame; [| |exact Hok]; cbn; [|reflexivity].
    apply same_ids_forEach_ref. intros n. apply Node_update_id. }
  split.
  - intros Hpos. unfold NodeNetworkSystem.traffic, ebind, lift, ret in H.
    assert (Qleb (normalTrafficTimer (network s1') - dt) 0 = false) as E
      by (apply Qleb_gt; exact Hpos).
    rewrite E in H. injection H as <- <-.
    cbn [packetHeap network normalTrafficTimer].
    rewrite forEach_ref_length. auto.
  - intros Hdue.
    destruct (traffic_due dt s1' g Hg Hok1 Hdue)
      as (router & target & nr & nt & Hrin & Htin & Hnr & Hrid & Hnt & Hn1 & Hn2 & Htr).
    rewrite Htr in H. injection H as <- <-.
    cbn [packetHeap network nodes nodeHeap normalTrafficTimer packets cursor].
    change (packetHeap s1') with (packetHeap s).
    change (packets (network s1')) with (packets (network s)).
    change (nodes (network s1')) with (nodes (network s)) in *.
    set (p1 := Packet.new (Link.mk (Some router) (Some target)) "#00ff88"
                 (120 + source g (S (S (cursor g))) * 120)).
    set (p2 := Packet.new (Link.mk (Some target) (Some router)) "#00ff88"
                 (120 + source g (S (S (S (cursor g)))) * 120)).
    exists router, target, nr, nt, (Packet.update dt p1), (Packet.update dt p2).
    assert (Forall (fun r => (r < length (packetHeap s))%nat) (packets (network s)))
      as Hlt.
    { eapply Forall_impl; [exact Hact|]. intros r (p & Hp & _).
      eapply lookup_lt_Some. exact Hp. }
    unfold forEach_ref. rewrite fold_left_app. cbn [fold_left].
    fold (forEach_ref (Packet.update dt) (packets (network s))
            (packetHeap s ++ [p1; p2])).
    set (ph := forEach_ref (Packet.update dt) (packets (network s))
                 (packetHeap s ++ [p1; p2])).
    assert (ph !! length (packetHeap s) = Some p1) as H1.
    { subst ph. rewrite forEach_ref_lookup_other.
      - rewrite lookup_app_r by lia. rewrite Nat.sub_diag. reflexivity.
      - eapply Forall_impl; [exact Hlt|]. intros r Hr. cbv beta in Hr. lia. }
    assert (ph !! S (length (packetHeap s)) = Some p2) as H2.
    { subst ph. rewrite forEach_ref_lookup_other.
      - rewrite lookup_app_r by lia.
        replace (S (length (packetHeap s)) - length (packetHeap s))%nat with 1%nat by lia.
        reflexivity.
      - eapply Forall_impl; [exact Hlt|]. intros r Hr. cbv beta in Hr. lia. }
    assert (length ph = (length (packetHeap s) + 2)%nat) as Hlen
      by (subst ph; rewrite forEach_ref_length, length_app; reflexivity).
    pose proof (Hg (cursor g)) as [Hr0 Hr0'].
    pose proof (Hg (S (S (cursor g)))) as [Hr1 Hr1'].
    pose proof (Hg (S (S (S (cursor g))))) as [Hr2 Hr2'].
    split; [rewrite !length_alter; exact Hlen|].
    split.
    { rewrite list_lookup_alter_ne by lia. rewrite list_lookup_alter_eq, H1. reflexivity. }
    split.
    { rewrite list_lookup_alter_eq. rewrite list_lookup_alter_ne by lia.
      rewrite H2. reflexivity. }
    split; [reflexivity|]. split; [reflexivity|].
    split; [exact Hrin|]. split; [exact Htin|]. split; [exact Hnr|].
    split; [exact Hrid|]. split; [exact Hnt|]. split; [exact Hn1|]. split; [exact Hn2|].
    split; [reflexivity|]. split; [reflexivity|].
    cbn [Packet.speed Packet.t Packet.update Packet.new p1 p2].
    subst p1 p2. cbn [Packet.speed Packet.t Packet.update Packet.new].
    split; [split; lra|]. split; [split; lra|].
    split; [qdiv; ring|]. split; [qdiv; ring|].
    split; [split; lra | lia].
Qed.

Lemma traffic_comes_in_round_trips_witness :
  exists s' g',
    NodeNetworkSystem.update 3 1024 768 scene0 demo_rng = Some (s', g') /\
    length (packetHeap s') = 2%nat /\ cursor g' = 4%nat.
Proof.
  destruct (NodeNetworkSystem.update 3 1024 768 scene0 demo_rng) as [[s' g']|] eqn:Hu;
    [|vm_compute in Hu; discriminate Hu].
  exists s', g'. split; [reflexivity|].
  destruct (traffic_comes_in_round_trips 3 1024 768 scene0 s' demo_rng g') as [_ H].
  - apply demo_rng_unit_range.
  - apply layout_ok_setupLayout.
  - split; [|split]; repeat constructor; cbn; lra.
  - exact Hu.
  - destruct H as (router & target & nr & nt & p1 & p2 & Hlen & _ & _ & _ & _ & _ & _
                   & _ & _ & _ & _ & _ & _ & _ & _ & _ & _ & _ & _ & Hcur).
    + cbn. lra.
    + split; [exact Hlen | exact Hcur].
Defined.
